(** * pcse agromanager: crop calendars, event dispatchers and the campaign scheduler

    A shallow embedding of [agromanager.py].  Python objects become records,
    a method that mutates [self] becomes a function returning the updated
    record, and everything a call sends to the signal bus or to the logger is
    returned as a list of effects in program order.  A Python exception is a
    [Raise] in the result monad [Res]; the state of an object whose method
    raised is not observed afterwards.  Numbers are Python 2 ints and
    floats, the floats with the arithmetic of IEEE 754 doubles. *)

From Stdlib Require Import ZArith QArith Qcanon Sorted SpecFloat.
From stdpp Require Import base option list gmap strings numbers.

Local Open Scope Z_scope.

(** ** Exceptions and the result monad *)

(** The texts of the [exc.PCSEError]s of the module, with the values that are
    formatted into them. *)
Inductive pcse_msg :=
| MsgCropStartOutsideCampaign (start : Z) (crop : string) (campaign_start : Z) (next_start : option Z)
| MsgSignalNotDefined (event_signal : string)
| MsgMultiDays (name : string) (multi_days : list Z)
| MsgTimedEventOutsideCampaign (day : Z) (campaign_start : Z) (next_start : option Z)
| MsgMultiStates (name : string) (multi_states : list Qc)
| MsgEmptyAgromanagement
| MsgCampaignsNotSequential.

Inductive exn :=
| PCSEError (msg : pcse_msg)
| TypeError
| ValueError
| IndexError
| AttributeError
| KeyError
| OverflowError.

Inductive Res (A : Type) :=
| Ok (a : A)
| Raise (e : exn).
Arguments Ok {A} a.
Arguments Raise {A} e.

Global Instance Res_ret : MRet Res := fun A a => Ok a.
Global Instance Res_bind : MBind Res := fun A B k m =>
  match m with
  | Ok a => k a
  | Raise e => Raise e
  end.

Definition is_Ok {A} (r : Res A) : bool :=
  match r with Ok _ => true | Raise _ => false end.

(** ** Dates

    A [datetime.date] is its proleptic Gregorian ordinal ([date.toordinal()]):
    [date(1,1,1)] is 1 and [date(9999,12,31)] is 3652059.  Comparison of dates
    is comparison of ordinals; adding a [timedelta] of whole days adds to the
    ordinal and raises [OverflowError] outside the range of dates. *)
Abbreviation date := Z (only parsing).

Definition date_min : date := 1.
Definition date_max : date := 3652059.

Definition valid_date (d : date) : Prop := date_min <= d <= date_max.

Definition is_leap (y : Z) : bool :=
  (y mod 4 =? 0) && (negb (y mod 100 =? 0) || (y mod 400 =? 0)).

Definition days_before_year (y : Z) : Z :=
  let y1 := y - 1 in y1 * 365 + y1 / 4 - y1 / 100 + y1 / 400.

Definition days_before_month (y m : Z) : Z :=
  nth (Z.to_nat m) [0; 0; 31; 59; 90; 120; 151; 181; 212; 243; 273; 304; 334] 0
  + (if (2 <? m) && is_leap y then 1 else 0).

(** [date(y, m, d)] for a day that exists. *)
Definition date_ymd (y m d : Z) : date :=
  days_before_year y + days_before_month y m + d.

(** [d + timedelta(days=n)] *)
Definition date_add (d : date) (n : Z) : Res date :=
  if (date_min <=? d + n) && (d + n <=? date_max) then Ok (d + n)
  else Raise OverflowError.

(** [a >= b] where [b] may be [None]: ordering a date against [None] raises
    [TypeError]. *)
Definition date_ge (a : date) (b : option date) : Res bool :=
  match b with
  | Some b => Ok (b <=? a)
  | None => Raise TypeError
  end.

(** [a == b] where [b] may be [None]: a date never equals [None]. *)
Definition date_eq (a : date) (b : option date) : bool :=
  match b with
  | Some b => a =? b
  | None => false
  end.

(** ** Numbers

    The values in the kiosk and the thresholds of a state events table are
    Python 2 numbers: ints (of any size) or floats.  A float is an IEEE 754
    double: a [spec_float] with precision 53 and exponent bound 1024, with
    the arithmetic of [SpecFloat], which rounds to nearest, ties to even.
    The model covers the finite doubles and the ints that [float()]
    converts: it leaves out the infinities and NaN (the [cmp] of a NaN
    depends on the interpreter) and the ints too large for a double, for
    which a subtraction with a float raises [OverflowError]. *)

(** [float(z)] for an int [z]: the double nearest to [z]. *)
Definition float_of_int (z : Z) : spec_float := binary_normalize 53 1024 z 0 false.

Definition float_is_finite (x : spec_float) : bool :=
  match x with
  | S754_zero _ | S754_finite _ _ _ => true
  | S754_infinity _ | S754_nan => false
  end.

(** A finite double. *)
Definition is_double (x : spec_float) : bool :=
  valid_binary 53 1024 x && float_is_finite x.

(** An int that [float()] converts without [OverflowError]. *)
Definition has_float (z : Z) : bool := float_is_finite (float_of_int z).

Inductive pynum :=
| PyInt (z : Z) (Hz : has_float z = true)
| PyFloat (x : spec_float) (Hx : is_double x = true).

(** The coercion of the operands of a mixed operation. *)
Definition to_float (a : pynum) : spec_float :=
  match a with
  | PyInt z _ => float_of_int z
  | PyFloat x _ => x
  end.

(** The result of a subtraction: an int of any size, or a double that may
    be an infinity. *)
Inductive pydiff :=
| DInt (z : Z)
| DFloat (x : spec_float).

(** [a - b]: exact on two ints; as soon as one operand is a float the other
    is converted to a float and the doubles are subtracted. *)
Definition py_sub (a b : pynum) : pydiff :=
  match a, b with
  | PyInt x _, PyInt y _ => DInt (x - y)
  | _, _ => DFloat (SFsub 53 1024 (to_float a) (to_float b))
  end.

(** [cmp(d, 0)]: one of -1, 0, 1.  Both zeros of the doubles compare equal
    to 0.  No subtraction of the model yields a NaN (lemma
    [py_sub_not_nan]), so the last case is never reached. *)
Definition cmp0 (d : pydiff) : Z :=
  match d with
  | DInt z => Z.sgn z
  | DFloat x =>
      match SFcompare x (S754_zero false) with
      | Some Lt => -1
      | Some Eq => 0
      | Some Gt => 1
      | None => -1
      end
  end.

(** The value of a finite double, [m · 2^e] with its sign, as a fraction. *)
Definition float_value (x : spec_float) : Q :=
  match x with
  | S754_finite s m e =>
      match e with
      | Zneg p => cond_Zopp s (Zpos m) # (2 ^ p)
      | _ => inject_Z (cond_Zopp s (Zpos m) * 2 ^ e)
      end
  | _ => 0%Q
  end.

(** The value of a number.  Python compares and hashes numbers by value:
    [1 == 1.0], and the two are the same key of a dictionary. *)
Definition py_value (a : pynum) : Qc :=
  Q2Qc match a with
       | PyInt z _ => inject_Z z
       | PyFloat x _ => float_value x
       end.

(** The sign of the exact difference of two numbers. *)
Definition cmp_exact (a b : pynum) : Z :=
  match (py_value a ?= py_value b)%Qc with
  | Lt => -1
  | Eq => 0
  | Gt => 1
  end.

(** [float(z)] has the value of [z]: the conversion does not round. *)
Definition int_exact (z : Z) : Prop :=
  (float_value (float_of_int z) == inject_Z z)%Q.

(** [a - b] rounds no int: the operands are two ints or two floats, or the
    int that is converted to a float is converted exactly. *)
Definition sub_exact (a b : pynum) : Prop :=
  match a, b with
  | PyInt _ _, PyInt _ _ | PyFloat _ _, PyFloat _ _ => True
  | PyInt z _, PyFloat _ _ | PyFloat _ _, PyInt z _ => int_exact z
  end.

(** The exponent of a finite double is not below the least exponent. *)
Definition exp_ok (x : spec_float) : Prop :=
  match x with
  | S754_zero _ => True
  | S754_finite _ _ e => -1074 <= e
  | S754_infinity _ | S754_nan => False
  end.

(** The value of a finite double and of a number in units of 2^-1074, an
    integer. *)
Definition float_scaled (x : spec_float) : Z :=
  match x with
  | S754_finite s m e => cond_Zopp s (Zpos m) * 2 ^ (e + 1074)
  | _ => 0
  end.

Definition py_scaled (a : pynum) : Z :=
  match a with
  | PyInt z _ => z * 2 ^ 1074
  | PyFloat x _ => float_scaled x
  end.

(** ** Values, signals and effects *)

Inductive pyval :=
| VDate (d : date)
| VStr (s : string)
| VNum (n : pynum)
| VBool (b : bool).

Abbreviation kwargs := (list (string * pyval)) (only parsing).

(** The module-level object [signals = TestSignals()]: the four signals
    that the class defines, and their values.  [hasattr(signals, n)] is
    [is_Some (signals_getattr n)] for every name [n] but the names of the
    attributes that every object has ([__class__], [__doc__], ...): these
    are no signals and are left out of the model. *)
Definition signals_getattr (name : string) : option string :=
  if decide (name = "apply_npk") then Some "APPLY_NPK"
  else if decide (name = "irrigate") then Some "IRRIGATE"
  else if decide (name = "crop_finish") then Some "CROP_FINISH"
  else if decide (name = "crop_start") then Some "CROP_START"
  else None.

Definition signals_crop_start : string := "CROP_START".
Definition signals_crop_finish : string := "CROP_FINISH".

Inductive log_msg :=
| LogStartingCrop (crop : string) (day : date)
| LogTimeEvent (name : string) (day : date)
| LogStateNotAvailable (event_state : string)
| LogStateEventAtEventState (name : string) (state : pynum)
| LogStateEventAtModelState (name : string) (current_state : pynum).

Inductive log_level := INFO | WARNING.

(** What a call does to the outside world: [_send_signal] and [logger] calls. *)
Inductive effect :=
| Send (signal : string) (kw : kwargs)
| Log (level : log_level) (msg : log_msg).

Definition is_send (sig : string) (e : effect) : bool :=
  match e with
  | Send s _ => bool_decide (s = sig)
  | Log _ _ => false
  end.

Definition is_any_send (e : effect) : bool :=
  match e with Send _ _ => true | Log _ _ => false end.

Fixpoint count_sends (sig : string) (out : list effect) : nat :=
  match out with
  | [] => 0
  | e :: out => (if is_send sig e then 1 else 0) + count_sends sig out
  end%nat.

(** No two crop-start signals without a crop-finish signal in between;
    [pending] tells whether a crop-start is waiting for its crop-finish. *)
Fixpoint starts_separated (pending : bool) (out : list effect) : bool :=
  match out with
  | [] => true
  | e :: out =>
      if is_send signals_crop_start e then negb pending && starts_separated true out
      else if is_send signals_crop_finish e then starts_separated false out
      else starts_separated pending out
  end.

(** [check_date_range(day, start, end)] *)
Definition check_date_range (day start : date) (end_ : option date) : bool :=
  match end_ with
  | None => start <=? day
  | Some e => (start <=? day) && (day <? e)
  end.

(** ** CropCalendar *)

Inductive start_type := sowing | emergence.
Inductive end_type := maturity | harvest | earliest.

Definition start_type_str (t : start_type) : string :=
  match t with sowing => "sowing" | emergence => "emergence" end.
Definition end_type_str (t : end_type) : string :=
  match t with maturity => "maturity" | harvest => "harvest" | earliest => "earliest" end.

(** [self.crop_end_type in ["harvest", "earliest"]] *)
Definition harvest_or_earliest (t : end_type) : bool :=
  match t with harvest | earliest => true | maturity => false end.

Record CropCalendar := mkCropCalendar {
  crop_id : string;
  crop_start_date : date;
  crop_start_type : start_type;
  crop_end_date : option date;
  crop_end_type : end_type;
  max_duration : Z;
  duration : Z;
  in_crop_cycle : bool
}.

Definition set_duration (self : CropCalendar) (n : Z) : CropCalendar :=
  mkCropCalendar (crop_id self) (crop_start_date self) (crop_start_type self)
    (crop_end_date self) (crop_end_type self) (max_duration self) n (in_crop_cycle self).

Definition set_in_crop_cycle (self : CropCalendar) (b : bool) : CropCalendar :=
  mkCropCalendar (crop_id self) (crop_start_date self) (crop_start_type self)
    (crop_end_date self) (crop_end_type self) (max_duration self) (duration self) b.

(** The keyword arguments of [CropCalendar(kiosk, **cc_def)]. *)
Record cc_def := mkCcDef {
  def_crop_id : string;
  def_crop_start_date : date;
  def_crop_start_type : start_type;
  def_crop_end_date : option date;
  def_crop_end_type : end_type;
  def_max_duration : Z
}.

(** [CropCalendar.__init__]: the counters start at their class defaults. *)
Definition CropCalendar_init (d : cc_def) : CropCalendar :=
  mkCropCalendar (def_crop_id d) (def_crop_start_date d) (def_crop_start_type d)
    (def_crop_end_date d) (def_crop_end_type d) (def_max_duration d) 0 false.

(** [CropCalendar.validate].  The message of the first check has one [%s]
    and is formatted with a tuple of two values (source lines 104-105), so
    the formatting raises [TypeError] and the [PCSEError] is never built. *)
Definition CropCalendar_validate (self : CropCalendar)
    (campaign_start_date : date) (next_campaign_start_date : option date) : Res unit :=
  crop_end_date' ←
    (match crop_end_type self with
     | maturity => e ← date_add (crop_start_date self) (max_duration self); Ok (Some e)
     | _ => Ok (crop_end_date self)
     end);
  ge ← date_ge (crop_start_date self) crop_end_date';
  if ge : bool then Raise TypeError
  else if check_date_range (crop_start_date self) campaign_start_date next_campaign_start_date
  then Ok tt
  else Raise (PCSEError (MsgCropStartOutsideCampaign (crop_start_date self) (crop_id self)
                           campaign_start_date next_campaign_start_date)).

Definition crop_start_signal (self : CropCalendar) (day : date) : effect :=
  Send signals_crop_start
    [("day", VDate day); ("crop_id", VStr (crop_id self));
     ("crop_start_type", VStr (start_type_str (crop_start_type self)));
     ("crop_end_type", VStr (end_type_str (crop_end_type self)))].

Definition crop_finish_signal (day : date) (finish_type : string) : effect :=
  Send signals_crop_finish
    [("day", VDate day); ("finish", VStr finish_type); ("crop_delete", VBool true)].

(** The first half of [CropCalendar.__call__]: the duration counter and the
    start of the cycle (source lines 116-127). *)
Definition CropCalendar_start (self : CropCalendar) (day : date)
    : CropCalendar * list effect :=
  let self := if in_crop_cycle self then set_duration self (duration self + 1) else self in
  if day =? crop_start_date self then
    (set_in_crop_cycle (set_duration self 0) true,
     [Log INFO (LogStartingCrop (crop_id self) day); crop_start_signal self day])
  else (self, []).

(** The finish type computed by the second half (source lines 130-138). *)
Definition CropCalendar_finish_type (self : CropCalendar) (day : date)
    : Res (option string) :=
  finish_type ←
    (if harvest_or_earliest (crop_end_type self) then
       ge ← date_ge day (crop_end_date self);
       Ok (if ge : bool then Some "harvest" else None)
     else Ok None);
  Ok (if max_duration self <=? duration self then Some "max_duration" else finish_type).

(** [CropCalendar.__call__(day, drv)] *)
Definition CropCalendar_call (self : CropCalendar) (day : date)
    : Res (CropCalendar * list effect) :=
  let '(self, out) := CropCalendar_start self day in
  finish_type ← CropCalendar_finish_type self day;
  match finish_type with
  | Some ft => Ok (set_in_crop_cycle self false, out ++ [crop_finish_signal day ft])
  | None => Ok (self, out)
  end.

(** [CropCalendar._on_CROP_FINISH]: the handler the calendar connects to the
    crop-finish signal in its constructor. *)
Definition CropCalendar_on_CROP_FINISH (self : CropCalendar) : CropCalendar :=
  set_in_crop_cycle self false.

(** [CropCalendar.get_end_date] *)
Definition CropCalendar_get_end_date (self : CropCalendar) : Res (option date) :=
  if harvest_or_earliest (crop_end_type self) then Ok (crop_end_date self)
  else e ← date_add (crop_start_date self) (max_duration self); Ok (Some e).


(** ** collections.Counter

    A [Counter] is a dictionary from keys to counts; iterating over it visits
    the keys in no order the program controls, like [map_to_list]. *)
Section Counter.
Context `{Countable K}.

(** [c.update(keys)]: one more for every key of the iterable. *)
Definition Counter_update (c : gmap K nat) (keys : list K) : gmap K nat :=
  foldl (fun c k => <[k := S (default 0%nat (c !! k))]> c) c keys.

(** The counter built by [for ev in events_table: c.update(ev.keys())],
    every event being a dictionary with the single key [ev.1]. *)
Definition Counter_of_events {V} (events_table : list (K * V)) : gmap K nat :=
  foldl (fun c ev => Counter_update c [ev.1]) ∅ events_table.

(** [[k for k, count in c.items() if count > 1]] *)
Definition Counter_multi (c : gmap K nat) : list K :=
  (filter (fun kc => (1 < kc.2)%nat) (map_to_list c)).*1.
(** How often a key occurs among the keys fed to a counter. *)
Definition key_count (k : K) (keys : list K) : nat :=
  length (filter (fun k' => k' = k) keys).
End Counter.

(** ** TimedEventsDispatcher *)

Record TimedEventsDispatcher := mkTimedEventsDispatcher {
  te_event_signal : string;
  te_events_table : list (date * kwargs);
  te_days_with_events : gmap Z nat;
  te_name : string;
  te_comment : string
}.

(** The keyword arguments of [TimedEventsDispatcher(kiosk, **ev_def)]. *)
Record te_def := mkTeDef {
  te_def_event_signal : string;
  te_def_name : string;
  te_def_comment : string;
  te_def_events_table : list (date * kwargs)
}.

(** [TimedEventsDispatcher.__init__] *)
Definition TimedEventsDispatcher_init (d : te_def) : Res TimedEventsDispatcher :=
  match signals_getattr (te_def_event_signal d) with
  | None => Raise (PCSEError (MsgSignalNotDefined (te_def_event_signal d)))
  | Some sig =>
      let days_with_events := Counter_of_events (te_def_events_table d) in
      let multi_days := Counter_multi days_with_events in
      match multi_days with
      | [] => Ok (mkTimedEventsDispatcher sig (te_def_events_table d) days_with_events
                    (te_def_name d) (te_def_comment d))
      | _ :: _ => Raise (PCSEError (MsgMultiDays (te_def_name d) multi_days))
      end
  end.

(** [TimedEventsDispatcher.validate] *)
Fixpoint TimedEvents_validate_loop (events : list (date * kwargs))
    (campaign_start_date : date) (next_campaign_start_date : option date) : Res unit :=
  match events with
  | [] => Ok tt
  | event :: events =>
      let day := event.1 in
      if check_date_range day campaign_start_date next_campaign_start_date
      then TimedEvents_validate_loop events campaign_start_date next_campaign_start_date
      else Raise (PCSEError (MsgTimedEventOutsideCampaign day campaign_start_date
                               next_campaign_start_date))
  end.

Definition TimedEventsDispatcher_validate (self : TimedEventsDispatcher)
    (campaign_start_date : date) (next_campaign_start_date : option date) : Res unit :=
  TimedEvents_validate_loop (te_events_table self) campaign_start_date next_campaign_start_date.

(** [TimedEventsDispatcher.__call__(day)] *)
Definition TimedEventsDispatcher_call (self : TimedEventsDispatcher) (day : date)
    : list effect :=
  match te_days_with_events self !! day with
  | None => []
  | Some _ =>
      flat_map (fun event : date * kwargs =>
                  if day =? event.1
                  then [Log INFO (LogTimeEvent (te_name self) day);
                        Send (te_event_signal self) event.2]
                  else [])
               (te_events_table self)
  end.

(** [max(d)] over the keys of a dictionary: [ValueError] when it is empty. *)
Definition py_max_keys (c : gmap Z nat) : Res Z :=
  match (map_to_list c).*1 with
  | [] => Raise ValueError
  | k :: ks => Ok (foldl Z.max k ks)
  end.

(** [TimedEventsDispatcher.get_end_date] *)
Definition TimedEventsDispatcher_get_end_date (self : TimedEventsDispatcher) : Res date :=
  py_max_keys (te_days_with_events self).

(** ** StateEventsDispatcher *)

Inductive zero_condition := rising | falling | either.

Record StateEventsDispatcher := mkStateEventsDispatcher {
  se_event_signal : string;
  se_event_state : string;
  se_zero_condition : zero_condition;
  se_events_table : list (pynum * kwargs);
  se_name : string;
  se_comment : string;
  previous_signs : list (option Z);
  states_with_events : gmap Qc nat
}.

Definition set_previous_signs (self : StateEventsDispatcher) (signs : list (option Z))
    : StateEventsDispatcher :=
  mkStateEventsDispatcher (se_event_signal self) (se_event_state self)
    (se_zero_condition self) (se_events_table self) (se_name self) (se_comment self)
    signs (states_with_events self).

(** The keyword arguments of [StateEventsDispatcher(kiosk, **ev_def)]. *)
Record se_def := mkSeDef {
  se_def_event_signal : string;
  se_def_event_state : string;
  se_def_zero_condition : zero_condition;
  se_def_name : string;
  se_def_comment : string;
  se_def_events_table : list (pynum * kwargs)
}.

(** [StateEventsDispatcher.__init__].  The keys of [states_with_events] are
    the thresholds, compared by value as the keys of a dictionary are. *)
Definition StateEventsDispatcher_init (d : se_def) : Res StateEventsDispatcher :=
  let previous_signs := replicate (length (se_def_events_table d)) (@None Z) in
  match signals_getattr (se_def_event_signal d) with
  | None => Raise (PCSEError (MsgSignalNotDefined (se_def_event_signal d)))
  | Some sig =>
      let states_with_events :=
        Counter_of_events
          (map (fun ev : pynum * kwargs => (py_value ev.1, ev.2)) (se_def_events_table d)) in
      let multi_states := Counter_multi states_with_events in
      match multi_states with
      | [] => Ok (mkStateEventsDispatcher sig (se_def_event_state d)
                    (se_def_zero_condition d) (se_def_events_table d) (se_def_name d)
                    (se_def_comment d) previous_signs states_with_events)
      | _ :: _ => Raise (PCSEError (MsgMultiStates (se_def_name d) multi_states))
      end
  end.

(** [StateEventsDispatcher._zero_condition_falling] *)
Definition _zero_condition_falling (self : StateEventsDispatcher)
    (current_state state : pynum) (keywords : kwargs) (zero_condition_sign : option Z)
    : Z * list effect :=
  let sign := cmp0 (py_sub current_state state) in
  match zero_condition_sign with
  | None => (sign, [])
  | Some zcs =>
      if (zcs =? 1) && ((sign =? -1) || (sign =? 0)) then
        (sign, [Log INFO (LogStateEventAtEventState (se_name self) state);
                Send (se_event_signal self) keywords])
      else (sign, [])
  end.

(** [StateEventsDispatcher._zero_condition_rising] *)
Definition _zero_condition_rising (self : StateEventsDispatcher)
    (current_state state : pynum) (kwargs : kwargs) (zero_condition_sign : option Z)
    : Z * list effect :=
  let sign := cmp0 (py_sub current_state state) in
  match zero_condition_sign with
  | None => (sign, [])
  | Some zcs =>
      if (zcs =? -1) && ((sign =? 0) || (sign =? 1)) then
        (sign, [Log INFO (LogStateEventAtModelState (se_name self) current_state);
                Send (se_event_signal self) kwargs])
      else (sign, [])
  end.

(** [StateEventsDispatcher._zero_condition_either] *)
Definition _zero_condition_either (self : StateEventsDispatcher)
    (current_state state : pynum) (keywords : kwargs) (zero_condition_sign : option Z)
    : Z * list effect :=
  let sign := cmp0 (py_sub current_state state) in
  match zero_condition_sign with
  | None => (sign, [])
  | Some zcs =>
      if ((zcs =? 1) && ((sign =? -1) || (sign =? 0)))
         || ((zcs =? -1) && ((sign =? 0) || (sign =? 1))) then
        (sign, [Log INFO (LogStateEventAtEventState (se_name self) state);
                Send (se_event_signal self) keywords])
      else (sign, [])
  end.

(** [self._evaluate_state], assigned in the constructor from [zero_condition]. *)
Definition _evaluate_state (self : StateEventsDispatcher) :=
  match se_zero_condition self with
  | falling => _zero_condition_falling self
  | rising => _zero_condition_rising self
  | either => _zero_condition_either self
  end.

(** The loop of [StateEventsDispatcher.__call__] over
    [zip(self.events_table, self.previous_signs)]: the list of new signs and
    what was sent on the way. *)
Fixpoint StateEvents_loop (self : StateEventsDispatcher) (current_state : pynum)
    (pairs : list ((pynum * kwargs) * option Z)) : list (option Z) * list effect :=
  match pairs with
  | [] => ([], [])
  | (event, zero_condition_sign) :: pairs =>
      let '(state, keywords) := event in
      let '(zcs, out) := _evaluate_state self current_state state keywords zero_condition_sign in
      let '(signs, outs) := StateEvents_loop self current_state pairs in
      (Some zcs :: signs, out ++ outs)
  end.

(** [StateEventsDispatcher.__call__(day)]; [kiosk] is the variable kiosk as it
    is when the call is made. *)
Definition StateEventsDispatcher_call (kiosk : gmap string pynum)
    (self : StateEventsDispatcher) (day : date) : StateEventsDispatcher * list effect :=
  match kiosk !! se_event_state self with
  | None => (self, [Log WARNING (LogStateNotAvailable (se_event_state self))])
  | Some current_state =>
      let '(zero_condition_signs, out) :=
        StateEvents_loop self current_state
          (zip (se_events_table self) (previous_signs self)) in
      (set_previous_signs self zero_condition_signs, out)
  end.

(** ** AgroManager *)

(** The body of a campaign in the agromanagement definition; each of the three
    entries may be [None]. *)
Record campaign_def := mkCampaignDef {
  def_CropCalendar : option cc_def;
  def_TimedEvents : option (list te_def);
  def_StateEvents : option (list se_def)
}.

(** A campaign is a dictionary with one key, its start date, mapped to the
    body or to [None]. *)
Abbreviation campaign := (date * option campaign_def)%type (only parsing).

Record AgroManager := mkAgroManager {
  campaign_start_dates : list (option date);
  _start_date : option date;
  _end_date : option date;
  crop_calendars : list (option CropCalendar);
  timed_event_dispatchers : list (option (list TimedEventsDispatcher));
  state_event_dispatchers : list (option (list StateEventsDispatcher));
  _tmp_date : option date;
  _icampaign : nat
}.

(** The class attributes of a new instance. *)
Definition AgroManager_new : AgroManager :=
  mkAgroManager [] None None [] [] [] None 0.

Definition set_campaign_start_dates (self : AgroManager) v : AgroManager :=
  mkAgroManager v (_start_date self) (_end_date self) (crop_calendars self)
    (timed_event_dispatchers self) (state_event_dispatchers self) (_tmp_date self)
    (_icampaign self).
Definition set_start_date (self : AgroManager) v : AgroManager :=
  mkAgroManager (campaign_start_dates self) v (_end_date self) (crop_calendars self)
    (timed_event_dispatchers self) (state_event_dispatchers self) (_tmp_date self)
    (_icampaign self).
Definition set_end_date (self : AgroManager) v : AgroManager :=
  mkAgroManager (campaign_start_dates self) (_start_date self) v (crop_calendars self)
    (timed_event_dispatchers self) (state_event_dispatchers self) (_tmp_date self)
    (_icampaign self).
Definition set_crop_calendars (self : AgroManager) v : AgroManager :=
  mkAgroManager (campaign_start_dates self) (_start_date self) (_end_date self) v
    (timed_event_dispatchers self) (state_event_dispatchers self) (_tmp_date self)
    (_icampaign self).
Definition set_timed_event_dispatchers (self : AgroManager) v : AgroManager :=
  mkAgroManager (campaign_start_dates self) (_start_date self) (_end_date self)
    (crop_calendars self) v (state_event_dispatchers self) (_tmp_date self)
    (_icampaign self).
Definition set_state_event_dispatchers (self : AgroManager) v : AgroManager :=
  mkAgroManager (campaign_start_dates self) (_start_date self) (_end_date self)
    (crop_calendars self) (timed_event_dispatchers self) v (_tmp_date self)
    (_icampaign self).
Definition set_tmp_date (self : AgroManager) v : AgroManager :=
  mkAgroManager (campaign_start_dates self) (_start_date self) (_end_date self)
    (crop_calendars self) (timed_event_dispatchers self) (state_event_dispatchers self) v
    (_icampaign self).
Definition set_icampaign (self : AgroManager) v : AgroManager :=
  mkAgroManager (campaign_start_dates self) (_start_date self) (_end_date self)
    (crop_calendars self) (timed_event_dispatchers self) (state_event_dispatchers self)
    (_tmp_date self) v.

(** [AgroManager._check_campaign_date]; the start date is a date by its type,
    so the [isinstance] test passes. *)
Definition _check_campaign_date (self : AgroManager) (campaign_start_date : date)
    : Res AgroManager :=
  match _tmp_date self with
  | None => Ok (set_tmp_date self (Some campaign_start_date))
  | Some tmp_date =>
      if campaign_start_date <=? tmp_date
      then Raise (PCSEError MsgCampaignsNotSequential)
      else Ok self
  end.

(** The first loop of [initialize] (source lines 387-391). *)
Fixpoint initialize_dates (self : AgroManager) (agromanagement : list campaign)
    : Res AgroManager :=
  match agromanagement with
  | [] => Ok self
  | campaign :: agromanagement =>
      let campaign_start_date := campaign.1 in
      self ← _check_campaign_date self campaign_start_date;
      initialize_dates
        (set_campaign_start_dates self
           (campaign_start_dates self ++ [Some campaign_start_date]))
        agromanagement
  end.

(** [AgroManager._build_TimedEventDispatchers] *)
Fixpoint _build_TimedEventDispatchers (event_definitions : list te_def)
    : Res (list TimedEventsDispatcher) :=
  match event_definitions with
  | [] => Ok []
  | ev_def :: event_definitions =>
      ev_dispatcher ← TimedEventsDispatcher_init ev_def;
      r ← _build_TimedEventDispatchers event_definitions;
      Ok (ev_dispatcher :: r)
  end.

(** [AgroManager._build_StateEventDispatchers] *)
Fixpoint _build_StateEventDispatchers (event_definitions : list se_def)
    : Res (list StateEventsDispatcher) :=
  match event_definitions with
  | [] => Ok []
  | ev_def :: event_definitions =>
      ev_dispatcher ← StateEventsDispatcher_init ev_def;
      r ← _build_StateEventDispatchers event_definitions;
      Ok (ev_dispatcher :: r)
  end.

(** [for te in te_dsp: te.validate(campaign_start, next_campaign)] *)
Fixpoint validate_TimedEventDispatchers (te_dsp : list TimedEventsDispatcher)
    (campaign_start : date) (next_campaign : option date) : Res unit :=
  match te_dsp with
  | [] => Ok tt
  | te :: te_dsp =>
      _ ← TimedEventsDispatcher_validate te campaign_start next_campaign;
      validate_TimedEventDispatchers te_dsp campaign_start next_campaign
  end.

(** One pass of the second loop of [initialize] (source lines 402-436). *)
Definition initialize_campaign (self : AgroManager) (campaign : campaign)
    (campaign_start : date) (next_campaign : option date) : Res AgroManager :=
  match campaign.2 with
  | None =>
      Ok (mkAgroManager (campaign_start_dates self) (_start_date self) (_end_date self)
            (crop_calendars self ++ [None]) (timed_event_dispatchers self ++ [None])
            (state_event_dispatchers self ++ [None]) (_tmp_date self) (_icampaign self))
  | Some campaign_def =>
      self ←
        (match def_CropCalendar campaign_def with
         | Some cc_def =>
             let cc := CropCalendar_init cc_def in
             _ ← CropCalendar_validate cc campaign_start next_campaign;
             Ok (set_crop_calendars self (crop_calendars self ++ [Some cc]))
         | None => Ok (set_crop_calendars self (crop_calendars self ++ [None]))
         end);
      self ←
        (match def_TimedEvents campaign_def with
         | Some te_def =>
             te_dsp ← _build_TimedEventDispatchers te_def;
             _ ← validate_TimedEventDispatchers te_dsp campaign_start next_campaign;
             Ok (set_timed_event_dispatchers self
                   (timed_event_dispatchers self ++ [Some te_dsp]))
         | None =>
             Ok (set_timed_event_dispatchers self (timed_event_dispatchers self ++ [None]))
         end);
      match def_StateEvents campaign_def with
      | Some se_def =>
          se_dsp ← _build_StateEventDispatchers se_def;
          Ok (set_state_event_dispatchers self
                (state_event_dispatchers self ++ [Some se_dsp]))
      | None =>
          Ok (set_state_event_dispatchers self (state_event_dispatchers self ++ [None]))
      end
  end.

(** The second loop of [initialize], over
    [zip(agromanagement, campaign_start_dates[:-1], campaign_start_dates[1:])].
    [campaign[campaign_start]] is the body of the campaign when
    [campaign_start] is its key, a date; for [None] the lookup raises
    [KeyError]. *)
Fixpoint initialize_campaigns (self : AgroManager)
    (triples : list (campaign * option date * option date)) : Res AgroManager :=
  match triples with
  | [] => Ok self
  | (campaign, campaign_start, next_campaign) :: triples =>
      match campaign_start with
      | Some campaign_start =>
          self ← initialize_campaign self campaign campaign_start next_campaign;
          initialize_campaigns self triples
      | None => Raise KeyError
      end
  end.

(** [AgroManager.initialize(kiosk, agromanagement)] *)
Definition initialize (self : AgroManager) (agromanagement : list campaign)
    : Res AgroManager :=
  let self := mkAgroManager [] (_start_date self) (_end_date self) [] [] []
                (_tmp_date self) (_icampaign self) in
  self ← initialize_dates self agromanagement;
  let self := set_campaign_start_dates self (campaign_start_dates self ++ [None]) in
  initialize_campaigns self
    (zip (zip agromanagement (removelast (campaign_start_dates self)))
         (tail (campaign_start_dates self))).

(** [AgroManager(kiosk, agromanagement)]: the constructor of the base class
    calls [initialize] on the new instance. *)
Definition AgroManager_init (agromanagement : list campaign) : Res AgroManager :=
  initialize AgroManager_new agromanagement.

(** [AgroManager.start_date] *)
Definition AgroManager_start_date (self : AgroManager) : Res (AgroManager * option date) :=
  match _start_date self with
  | Some d => Ok (self, Some d)
  | None =>
      match campaign_start_dates self !! 0%nat with
      | Some d => Ok (set_start_date self d, d)
      | None => Raise IndexError
      end
  end.

(** [a > b] on values that are dates or [None] (Python 2). *)
Definition py_gt (a b : option date) : Res bool :=
  match a, b with
  | Some x, Some y => Ok (y <? x)
  | None, None => Ok false
  | _, _ => Raise TypeError
  end.

Fixpoint py_max_from (m : option date) (l : list (option date)) : Res (option date) :=
  match l with
  | [] => Ok m
  | x :: l => gt ← py_gt x m; py_max_from (if gt : bool then x else m) l
  end.

(** [max(l)] *)
Definition py_max (l : list (option date)) : Res (option date) :=
  match l with
  | [] => Raise ValueError
  | x :: l => py_max_from x l
  end.

(** [[t.get_end_date() for t in teds]] *)
Fixpoint te_end_dates (teds : list TimedEventsDispatcher) : Res (list (option date)) :=
  match teds with
  | [] => Ok []
  | t :: teds =>
      d ← TimedEventsDispatcher_get_end_date t;
      ds ← te_end_dates teds;
      Ok (Some d :: ds)
  end.

(** The loop of [end_date] over [zip(self.crop_calendars,
    self.timed_event_dispatchers)], accumulating [cc_dates] and [te_dates]. *)
Fixpoint end_date_loop
    (pairs : list (option CropCalendar * option (list TimedEventsDispatcher)))
    (cc_dates te_dates : list (option date))
    : Res (list (option date) * list (option date)) :=
  match pairs with
  | [] => Ok (cc_dates, te_dates)
  | (cc, teds) :: pairs =>
      cc_dates ←
        (match cc with
         | Some cc => d ← CropCalendar_get_end_date cc; Ok (cc_dates ++ [d])
         | None => Ok cc_dates
         end);
      te_dates ←
        (match teds with
         | Some teds => ds ← te_end_dates teds; Ok (te_dates ++ ds)
         | None => Ok te_dates
         end);
      end_date_loop pairs cc_dates te_dates
  end.

(** [AgroManager.end_date]; the value is memoized in [_end_date], a trait
    that holds a date. *)
Definition AgroManager_end_date (self : AgroManager) : Res (AgroManager * date) :=
  match _end_date self with
  | Some d => Ok (self, d)
  | None =>
      '(cc_dates, te_dates) ←
        end_date_loop (zip (crop_calendars self) (timed_event_dispatchers self)) [] [];
      match cc_dates, te_dates with
      | [], [] => Raise (PCSEError MsgEmptyAgromanagement)
      | _, _ =>
          let end_date := Some date_min in
          end_date ←
            (match cc_dates with
             | [] => Ok end_date
             | _ :: _ => m ← py_max cc_dates; py_max [m; end_date]
             end);
          end_date ←
            (match te_dates with
             | [] => Ok end_date
             | _ :: _ => m ← py_max te_dates; py_max [m; end_date]
             end);
          match end_date with
          | Some d => Ok (set_end_date self (Some d), d)
          | None => Raise TypeError
          end
      end
  end.

(** [l[i]] and [l.pop(0)], with the [IndexError] of a list that is too short. *)
Definition py_index {A} (l : list A) (i : nat) : Res A :=
  match l !! i with
  | Some x => Ok x
  | None => Raise IndexError
  end.

Definition py_pop0 {A} (l : list A) : Res (list A) :=
  match l with
  | [] => Raise IndexError
  | _ :: l => Ok l
  end.

(** [for ev_dsp in dispatchers: ev_dsp(day)] for state event dispatchers. *)
Fixpoint StateEventsDispatchers_call (kiosk : gmap string pynum)
    (dispatchers : list StateEventsDispatcher) (day : date)
    : list StateEventsDispatcher * list effect :=
  match dispatchers with
  | [] => ([], [])
  | ev_dsp :: dispatchers =>
      let '(ev_dsp, out) := StateEventsDispatcher_call kiosk ev_dsp day in
      let '(dispatchers, outs) := StateEventsDispatchers_call kiosk dispatchers day in
      (ev_dsp :: dispatchers, out ++ outs)
  end.

(** The switch to a new campaign at the head of [AgroManager.__call__]
    (source lines 528-533). *)
Definition AgroManager_switch (self : AgroManager) (day : date) : Res AgroManager :=
  next_start ← py_index (campaign_start_dates self) (_icampaign self + 1);
  if date_eq day next_start then
    ccs ← py_pop0 (crop_calendars self);
    teds ← py_pop0 (timed_event_dispatchers self);
    seds ← py_pop0 (state_event_dispatchers self);
    Ok (mkAgroManager (campaign_start_dates self) (_start_date self) (_end_date self)
          ccs teds seds (_tmp_date self) (_icampaign self + 1))
  else Ok self.

(** The handlers of the bundle at the head of the three lists
    (source lines 536-545).  The objects are updated in place, so the updated
    calendar and dispatchers take the place of the old ones at index 0. *)
Definition AgroManager_handlers (kiosk : gmap string pynum) (self : AgroManager) (day : date)
    : Res (AgroManager * list effect) :=
  cc0 ← py_index (crop_calendars self) 0;
  '(self, out1) ←
    (match cc0 with
     | Some cc =>
         '(cc, out) ← CropCalendar_call cc day;
         Ok (set_crop_calendars self (<[0%nat := Some cc]> (crop_calendars self)), out)
     | None => Ok (self, [])
     end);
  te0 ← py_index (timed_event_dispatchers self) 0;
  let out2 :=
    match te0 with
    | Some teds => flat_map (fun ev_dsp => TimedEventsDispatcher_call ev_dsp day) teds
    | None => []
    end in
  se0 ← py_index (state_event_dispatchers self) 0;
  let '(self, out3) :=
    match se0 with
    | Some seds =>
        let '(seds, out) := StateEventsDispatchers_call kiosk seds day in
        (set_state_event_dispatchers self
           (<[0%nat := Some seds]> (state_event_dispatchers self)), out)
    | None => (self, [])
    end in
  Ok (self, out1 ++ out2 ++ out3).

(** [AgroManager.__call__(day, drv)] *)
Definition AgroManager_call (kiosk : gmap string pynum) (self : AgroManager) (day : date)
    : Res (AgroManager * list effect) :=
  self ← AgroManager_switch self day;
  AgroManager_handlers kiosk self day.

(** [AgroManager._on_CROP_FINISH]: [signals.terminate] is looked up only when
    the list of crop calendars is empty. *)
Definition AgroManager_on_CROP_FINISH (self : AgroManager) : Res (list effect) :=
  match crop_calendars self with
  | [] =>
      match signals_getattr "terminate" with
      | Some sig => Ok [Send sig []]
      | None => Raise AttributeError
      end
  | _ :: _ => Ok []
  end.

(** ** Runs

    What happens to a crop calendar: it is called for a day, or the bus
    delivers a crop-finish signal to its handler (its own signal comes back
    to it, and so does one sent by any other object on the bus). *)
Inductive cc_event :=
| CcTick (day : date)
| CcFinishDelivered.

Definition CropCalendar_step (self : CropCalendar) (ev : cc_event)
    : Res (CropCalendar * list effect) :=
  match ev with
  | CcTick day => CropCalendar_call self day
  | CcFinishDelivered => Ok (CropCalendar_on_CROP_FINISH self, [])
  end.

(** A run of a calendar; the effects are kept per event. *)
Fixpoint CropCalendar_run (self : CropCalendar) (evs : list cc_event)
    : Res (CropCalendar * list (list effect)) :=
  match evs with
  | [] => Ok (self, [])
  | ev :: evs =>
      '(self, out) ← CropCalendar_step self ev;
      '(self, outs) ← CropCalendar_run self evs;
      Ok (self, out :: outs)
  end.

Definition cc_tick_days (evs : list cc_event) : list date :=
  flat_map (fun ev => match ev with CcTick d => [d] | CcFinishDelivered => [] end) evs.

(** What happens to the scheduler: the driver calls it for a day, with the
    kiosk as it is then, or a crop-finish signal is delivered: to the handler
    of every calendar in the queue and to the scheduler's own
    [_on_CROP_FINISH]. *)
Inductive am_event :=
| Tick (kiosk : gmap string pynum) (day : date)
| CropFinishDelivered.

Definition AgroManager_step (self : AgroManager) (ev : am_event)
    : Res (AgroManager * list effect) :=
  match ev with
  | Tick kiosk day => AgroManager_call kiosk self day
  | CropFinishDelivered =>
      out ← AgroManager_on_CROP_FINISH self;
      Ok (set_crop_calendars self
            (map (option_map CropCalendar_on_CROP_FINISH) (crop_calendars self)), out)
  end.

Fixpoint AgroManager_run (self : AgroManager) (evs : list am_event)
    : Res (AgroManager * list effect) :=
  match evs with
  | [] => Ok (self, [])
  | ev :: evs =>
      '(self, out) ← AgroManager_step self ev;
      '(self, outs) ← AgroManager_run self evs;
      Ok (self, out ++ outs)
  end.

(** A run of a state events dispatcher: one call per tick, each with the
    kiosk as it is on that day. *)
Fixpoint StateEventsDispatcher_run (self : StateEventsDispatcher)
    (ticks : list (gmap string pynum * date)) : StateEventsDispatcher * list effect :=
  match ticks with
  | [] => (self, [])
  | (kiosk, day) :: ticks =>
      let '(self, out) := StateEventsDispatcher_call kiosk self day in
      let '(self, outs) := StateEventsDispatcher_run self ticks in
      (self, out ++ outs)
  end.

(** The values of the watched variable that the calls of a run observe: the
    ticks on which the kiosk does not hold the variable observe nothing. *)
Definition observed_values (event_state : string)
    (ticks : list (gmap string pynum * date)) : list pynum :=
  omap (fun tick : gmap string pynum * date => tick.1 !! event_state) ticks.

(** The calls of [_zero_condition_rising] for one entry of the table over the
    observed values, each call given the sign that the call before returned
    (the sign that [__call__] stored in [previous_signs]). *)
Fixpoint rising_series (self : StateEventsDispatcher) (state : pynum) (kwargs : kwargs)
    (zero_condition_sign : option Z) (series : list pynum) : option Z * list effect :=
  match series with
  | [] => (zero_condition_sign, [])
  | current_state :: series =>
      let '(sign, out) :=
        _zero_condition_rising self current_state state kwargs zero_condition_sign in
      let '(last_sign, outs) := rising_series self state kwargs (Some sign) series in
      (last_sign, out ++ outs)
  end.

(** ** Vocabulary of the properties and example inputs *)

(** The comparison against [crop_end_date] can be made. *)
Definition has_end_date (self : CropCalendar) : Prop :=
  harvest_or_earliest (crop_end_type self) = true → is_Some (crop_end_date self).

(** A calendar for a harvest on day 20 that is started on day 10 with
    [max_duration = 0]. *)
Definition calendar_max0 : CropCalendar :=
  CropCalendar_init (mkCcDef "wheat" 10 sowing (Some 20) harvest 0).

(** A crop sown on day 10 that matures after at most two days. *)
Definition calendar_two_days : CropCalendar :=
  CropCalendar_init (mkCcDef "wheat" 10 sowing None maturity 2).

(** An events table with two entries for day 5 and two for day 7. *)
Definition te_def_duplicates : te_def :=
  mkTeDef "apply_npk" "fertilizer" "" [(5, []); (7, []); (5, []); (7, []); (8, [])].

(** A rising dispatcher on the development stage with thresholds 1 and 2. *)
Definition dvs_dispatcher : StateEventsDispatcher :=
  mkStateEventsDispatcher "APPLY_NPK" "DVS" rising
    [(PyInt 1 eq_refl, [("N_amount", VNum (PyInt 10 eq_refl))]);
     (PyInt 2 eq_refl, [("N_amount", VNum (PyInt 20 eq_refl))])]
    "fertilizer" "" [None; None] ∅.

(** What [initialize] has checked of a crop calendar it queued: the end date
    of the cycle can be computed and is not before [lo], a day that is not
    after the start of any campaign. *)
Definition cc_validated (lo : Z) (cc : CropCalendar) : Prop :=
  has_end_date cc
  ∧ ∃ e, CropCalendar_get_end_date cc = Ok (Some e) ∧ lo <= e.

(** What [initialize] has built and checked of a timed events dispatcher. *)
Definition te_built (lo : Z) (t : TimedEventsDispatcher) : Prop :=
  te_days_with_events t = Counter_of_events (te_events_table t)
  ∧ Forall (fun ev : Z * list (string * pyval) => lo <= ev.1) (te_events_table t).

(** A campaign in the queue whose calendar is validated and whose timed
    events dispatchers are built. *)
Definition pair_ok (lo : Z)
    (p : option CropCalendar * option (list TimedEventsDispatcher)) : Prop :=
  (∀ cc, p.1 = Some cc → cc_validated lo cc)
  ∧ (∀ teds, p.2 = Some teds → Forall (te_built lo) teds).

(** The crop calendars and the timed events dispatchers that are in the
    queue, campaign after campaign. *)
Definition present_calendars (self : AgroManager) : list CropCalendar :=
  omap id (crop_calendars self).

Definition present_dispatchers (self : AgroManager) : list TimedEventsDispatcher :=
  concat (omap id (timed_event_dispatchers self)).

(** The days of the entries of a timed events table. *)
Definition table_days (t : TimedEventsDispatcher) : list date :=
  (te_events_table t).*1.

(** The invariant of a scheduler that was initialized with [n] campaigns:
    the start dates are [n] dates followed by [None], the cursor is below
    [n], and the three queues hold one bundle for every campaign that is not
    retired. *)
Definition scheduler_inv (n : nat) (self : AgroManager) : Prop :=
  (∃ dates : list Z, campaign_start_dates self = map Some dates ++ [None]
                     ∧ length dates = n)
  ∧ (_icampaign self < n)%nat
  ∧ length (crop_calendars self) = (n - _icampaign self)%nat
  ∧ length (timed_event_dispatchers self) = (n - _icampaign self)%nat
  ∧ length (state_event_dispatchers self) = (n - _icampaign self)%nat
  ∧ Forall (fun occ => ∀ cc, occ = Some cc → has_end_date cc) (crop_calendars self).

(** A bundle receives the tick for a day: its crop calendar is called, then
    its timed events dispatchers, then its state events dispatchers. *)
Definition bundle_tick (kiosk : gmap string pynum) (day : date)
    (occ : option CropCalendar) (oteds : option (list TimedEventsDispatcher))
    (oseds : option (list StateEventsDispatcher))
    : Res (option CropCalendar * option (list StateEventsDispatcher) * list effect) :=
  '(occ, out1) ←
    (match occ with
     | Some cc => '(cc, out) ← CropCalendar_call cc day; Ok (Some cc, out)
     | None => Ok (None, [])
     end);
  let out2 :=
    match oteds with
    | Some teds => flat_map (fun ev_dsp => TimedEventsDispatcher_call ev_dsp day) teds
    | None => []
    end in
  let '(oseds, out3) :=
    match oseds with
    | Some seds =>
        let '(seds, out) := StateEventsDispatchers_call kiosk seds day in (Some seds, out)
    | None => (None, [])
    end in
  Ok (occ, oseds, out1 ++ out2 ++ out3).

(** The example of the specification: a crop from 2001-03-01 that ends at
    maturity after at most 150 days, then a fallow campaign from 2002-01-01. *)
Definition agro_example : list (Z * option campaign_def) :=
  [(date_ymd 2001 3 1,
    Some (mkCampaignDef
            (Some (mkCcDef "wheat" (date_ymd 2001 3 1) sowing None maturity 150))
            None None));
   (date_ymd 2002 1 1, None)].

(** A campaign with a crop calendar and a timed events table without entries. *)
Definition agro_empty_table : list (Z * option campaign_def) :=
  [(date_ymd 2001 3 1,
    Some (mkCampaignDef
            (Some (mkCcDef "wheat" (date_ymd 2001 3 1) sowing None maturity 150))
            (Some [mkTeDef "apply_npk" "fertilizer" "" []])
            None))].

(** Three fallow campaigns whose start dates are not in order: the third
    starts before the second. *)
Definition agro_not_sequential : list (Z * option campaign_def) :=
  [(date_ymd 2001 1 1, None); (date_ymd 2003 1 1, None); (date_ymd 2002 1 1, None)].

(** ** Further runs and example inputs *)

(** One call a day for [n] days, from [start] on. *)
Definition daily_ticks (start : date) (n : nat) : list cc_event :=
  map CcTick (seqZ start (Z.of_nat n)).

(** The calls of one evaluation function ([_zero_condition_falling],
    [_zero_condition_rising] or [_zero_condition_either] of a dispatcher) for
    one entry of the table over the observed values, each call given the
    sign that the call before returned. *)
Fixpoint evaluate_series
    (evaluate : pynum → pynum → list (string * pyval) → option Z → Z * list effect)
    (state : pynum) (keywords : kwargs) (zero_condition_sign : option Z)
    (series : list pynum) : option Z * list effect :=
  match series with
  | [] => (zero_condition_sign, [])
  | current_state :: series =>
      let '(sign, out) := evaluate current_state state keywords zero_condition_sign in
      let '(last_sign, outs) :=
        evaluate_series evaluate state keywords (Some sign) series in
      (last_sign, out ++ outs)
  end.

(** A crop sown on 2001-03-01 that matures after at most 150 days. *)
Definition calendar_150 : CropCalendar :=
  CropCalendar_init (mkCcDef "wheat" (date_ymd 2001 3 1) sowing None maturity 150).

(** A crop sown on day 10, to be harvested on day 14 at the latest after 30
    days. *)
Definition calendar_harvest : CropCalendar :=
  CropCalendar_init (mkCcDef "maize" 10 sowing (Some 14) harvest 30).

(** A timed events table with three entries on different days. *)
Definition te_def_three_days : te_def :=
  mkTeDef "irrigate" "irrigation" ""
    [(5, [("amount", VNum (PyInt 2 eq_refl))]); (9, [("amount", VNum (PyInt 3 eq_refl))]);
     (7, [("amount", VNum (PyInt 4 eq_refl))])].

(** A state events table on the soil moisture with a repeated threshold. *)
Definition se_def_duplicates : se_def :=
  mkSeDef "irrigate" "SM" falling "irrigation" ""
    [(PyInt 1 eq_refl, []); (PyInt 2 eq_refl, []); (PyFloat (float_of_int 1) eq_refl, [])].

(** A falling dispatcher on the soil moisture with threshold 1, as the
    constructor builds it. *)
Definition sm_falling : StateEventsDispatcher :=
  mkStateEventsDispatcher "IRRIGATE" "SM" falling [(PyInt 1 eq_refl, [])]
    "irrigation" "" [None]
    (Counter_of_events [(py_value (PyInt 1 eq_refl), @nil (string * pyval))]).

(** Two campaigns, each with a crop and a timed events table. *)
Definition agro_two_crops : list (Z * option campaign_def) :=
  [(100, Some (mkCampaignDef
                 (Some (mkCcDef "wheat" 110 sowing (Some 150) harvest 60))
                 (Some [mkTeDef "apply_npk" "fertilizer" "" [(120, []); (130, [])]])
                 None));
   (200, Some (mkCampaignDef
                 (Some (mkCcDef "maize" 200 emergence None maturity 90))
                 (Some [mkTeDef "irrigate" "irrigation" "" [(250, [])]])
                 None))].

(** What one pass of the second loop of [initialize] appends to the three
    queues for a campaign, when it returns: the calendar built from the
    definition, validated against the campaign's start date and the start
    date of the next campaign, and the dispatchers built from the
    definitions, the timed ones validated in the same way. *)
Definition campaign_built (c : Z * option campaign_def)
    (campaign_start : date) (next_campaign : option date)
    (b : option CropCalendar * option (list TimedEventsDispatcher)
         * option (list StateEventsDispatcher)) : Prop :=
  b.1.1 = option_map CropCalendar_init (c.2 ≫= def_CropCalendar)
  ∧ (∀ cc, b.1.1 = Some cc →
           CropCalendar_validate cc campaign_start next_campaign = Ok tt)
  ∧ match c.2 ≫= def_TimedEvents with
    | None => b.1.2 = None
    | Some defs =>
        ∃ teds, b.1.2 = Some teds
                ∧ _build_TimedEventDispatchers defs = Ok teds
                ∧ validate_TimedEventDispatchers teds campaign_start next_campaign = Ok tt
    end
  ∧ match c.2 ≫= def_StateEvents with
    | None => b.2 = None
    | Some defs => ∃ seds, b.2 = Some seds ∧ _build_StateEventDispatchers defs = Ok seds
    end.

(** A calendar and a state events dispatcher as their definitions give
    them: the counters of the calendar at their class defaults, the stored
    signs of the dispatcher dropped. *)
Definition calendar_definition (cc : CropCalendar) : CropCalendar :=
  set_in_crop_cycle (set_duration cc 0) false.

Definition dispatcher_definition (d : StateEventsDispatcher) : StateEventsDispatcher :=
  set_previous_signs d [].

(** * Properties *)

Example date_2001_03_01 : date_ymd 2001 3 1 = 730545.
Proof. reflexivity. Qed.

(** Inversion of a bind in the result monad. *)
Lemma bind_Ok {A B} (m : Res A) (k : A → Res B) (b : B) :
  m ≫= k = Ok b → ∃ a, m = Ok a ∧ k a = Ok b.
Proof. destruct m as [a|e]; simpl; [eauto | discriminate]. Qed.

Ltac inv_bind H :=
  let a := fresh "a" in
  let Ha := fresh "Ha" in
  apply bind_Ok in H; destruct H as (a & Ha & H).

Ltac inv_bind_as H a Ha :=
  apply bind_Ok in H; destruct H as (a & Ha & H).

Lemma count_sends_app sig (o1 o2 : list effect) :
  count_sends sig (o1 ++ o2) = (count_sends sig o1 + count_sends sig o2)%nat.
Proof. induction o1 as [|e o1 IH]; simpl; [done | rewrite IH; lia]. Qed.

(** ** The crop calendar *)
Section CropCalendarFacts.

Lemma CropCalendar_start_static self day :
  let self' := (CropCalendar_start self day).1 in
  crop_start_date self' = crop_start_date self
  ∧ crop_end_date self' = crop_end_date self
  ∧ crop_end_type self' = crop_end_type self
  ∧ max_duration self' = max_duration self.
Proof.
  unfold CropCalendar_start.
  destruct (in_crop_cycle self); simpl;
    destruct (day =? crop_start_date self); simpl; auto.
Qed.

Lemma CropCalendar_start_sends self day :
  let out := (CropCalendar_start self day).2 in
  count_sends signals_crop_start out
    = (if day =? crop_start_date self then 1%nat else 0%nat)
  ∧ count_sends signals_crop_finish out = 0%nat.
Proof.
  unfold CropCalendar_start.
  destruct (in_crop_cycle self); simpl;
    destruct (day =? crop_start_date self); simpl; auto.
Qed.

Lemma CropCalendar_call_inv self day self' out :
  CropCalendar_call self day = Ok (self', out) →
  let s1 := (CropCalendar_start self day).1 in
  let o1 := (CropCalendar_start self day).2 in
  ∃ ft, CropCalendar_finish_type s1 day = Ok ft
        ∧ match ft with
          | Some r => self' = set_in_crop_cycle s1 false
                      ∧ out = o1 ++ [crop_finish_signal day r]
          | None => self' = s1 ∧ out = o1
          end.
Proof.
  unfold CropCalendar_call.
  destruct (CropCalendar_start self day) as [s1 o1]; simpl.
  intros Hc. inv_bind Hc. exists a. split; [done|].
  destruct a; inversion Hc; auto.
Qed.

Lemma CropCalendar_call_static self day self' out :
  CropCalendar_call self day = Ok (self', out) →
  crop_start_date self' = crop_start_date self
  ∧ crop_end_date self' = crop_end_date self
  ∧ crop_end_type self' = crop_end_type self
  ∧ max_duration self' = max_duration self.
Proof.
  intros Hc. apply CropCalendar_call_inv in Hc as (ft & _ & Hft).
  pose proof (CropCalendar_start_static self day) as Hs. simpl in Hs.
  destruct ft; destruct Hft as [-> _]; simpl; auto.
Qed.

(** One call sends crop-start exactly when the day is the start date, and
    sends crop-finish at most once. *)
Lemma CropCalendar_call_sends self day self' out :
  CropCalendar_call self day = Ok (self', out) →
  count_sends signals_crop_start out
    = (if day =? crop_start_date self then 1%nat else 0%nat)
  ∧ (count_sends signals_crop_finish out ≤ 1)%nat.
Proof.
  intros Hc. apply CropCalendar_call_inv in Hc as (ft & _ & Hft).
  pose proof (CropCalendar_start_sends self day) as [Hs Hf]. simpl in Hs, Hf.
  destruct ft; destruct Hft as [_ ->].
  - rewrite !count_sends_app, Hs, Hf. simpl. split; lia.
  - rewrite Hs, Hf. split; lia.
Qed.

Lemma CropCalendar_step_static self ev self' out :
  CropCalendar_step self ev = Ok (self', out) →
  crop_start_date self' = crop_start_date self.
Proof.
  destruct ev; simpl.
  - intros Hc. by apply CropCalendar_call_static in Hc as (? & _).
  - intros [= <- _]. done.
Qed.

End CropCalendarFacts.

(** C3.  [CropCalendar.__call__(day)], with [d] the duration after the
    counter and the start of the cycle have been handled (0 on the start
    date, one more than before inside the cycle, unchanged outside it).
    When the end type is harvest or earliest and the day has reached the end
    date, and [d] is below [max_duration], the call leaves the cycle and
    sends crop-finish with finish "harvest".  Whenever [d] has reached
    [max_duration] the call leaves the cycle and sends crop-finish with
    finish "max_duration", also when the harvest condition holds on the same
    call.  When neither holds (end type maturity, or the day before the end
    date, and [d] below [max_duration]) no crop-finish is sent.  With
    [max_duration = 0] the call for the start date sends crop-start and then
    crop-finish with finish "max_duration". *)
Theorem C3_max_duration_overrides_harvest (self : CropCalendar) (day : date) :
  (crop_end_type self = harvest ∨ crop_end_type self = earliest →
   ∃ e, crop_end_date self = Some e) →
  let d :=
    if day =? crop_start_date self then 0
    else if in_crop_cycle self then duration self + 1 else duration self in
  let crop_start :=
    [Log INFO (LogStartingCrop (crop_id self) day);
     Send "CROP_START"
       [("day", VDate day); ("crop_id", VStr (crop_id self));
        ("crop_start_type", VStr (start_type_str (crop_start_type self)));
        ("crop_end_type", VStr (end_type_str (crop_end_type self)))]] in
  let started := if day =? crop_start_date self then crop_start else [] in
  let crop_finish (reason : string) :=
    Send "CROP_FINISH"
      [("day", VDate day); ("finish", VStr reason); ("crop_delete", VBool true)] in
  let after (in_cycle : bool) :=
    mkCropCalendar (crop_id self) (crop_start_date self) (crop_start_type self)
      (crop_end_date self) (crop_end_type self) (max_duration self) d in_cycle in
  (∀ e, crop_end_type self = harvest ∨ crop_end_type self = earliest →
        crop_end_date self = Some e → e <= day →
        d < max_duration self →
        CropCalendar_call self day = Ok (after false, started ++ [crop_finish "harvest"]))
  ∧ (max_duration self <= d →
     CropCalendar_call self day
     = Ok (after false, started ++ [crop_finish "max_duration"]))
  ∧ (d < max_duration self →
     crop_end_type self = maturity ∨ (∃ e, crop_end_date self = Some e ∧ day < e) →
     CropCalendar_call self day
     = Ok (after (if day =? crop_start_date self then true else in_crop_cycle self),
           started))
  ∧ (max_duration self = 0 → day = crop_start_date self →
     CropCalendar_call self day
     = Ok (after false, crop_start ++ [crop_finish "max_duration"])).
Proof.
  intros Hwf. destruct self as [cid sd st ed et md du icc]. cbn in Hwf |- *.
  assert (Hcall : ∀ d' icc' out,
            CropCalendar_start (mkCropCalendar cid sd st ed et md du icc) day
            = (mkCropCalendar cid sd st ed et md d' icc', out) →
            CropCalendar_call (mkCropCalendar cid sd st ed et md du icc) day
            = ft ← CropCalendar_finish_type (mkCropCalendar cid sd st ed et md d' icc') day;
              match ft with
              | Some r =>
                  Ok (mkCropCalendar cid sd st ed et md d' false,
                      out ++ [Send "CROP_FINISH"
                                [("day", VDate day); ("finish", VStr r);
                                 ("crop_delete", VBool true)]])
              | None => Ok (mkCropCalendar cid sd st ed et md d' icc', out)
              end).
  { intros d' icc' out Hs. unfold CropCalendar_call. by rewrite Hs. }
  assert (Hstart :
    CropCalendar_start (mkCropCalendar cid sd st ed et md du icc) day
    = (mkCropCalendar cid sd st ed et md
         (if day =? sd then 0 else if icc then du + 1 else du)
         (if day =? sd then true else icc),
       if day =? sd
       then [Log INFO (LogStartingCrop cid day);
             Send "CROP_START"
               [("day", VDate day); ("crop_id", VStr cid);
                ("crop_start_type", VStr (start_type_str st));
                ("crop_end_type", VStr (end_type_str et))]]
       else [])).
  { unfold CropCalendar_start. destruct icc; cbn; by destruct (day =? sd). }
  rewrite (Hcall _ _ _ Hstart). clear Hcall Hstart.
  unfold CropCalendar_finish_type, date_ge. cbn.
  set (d := if day =? sd then 0 else if icc then du + 1 else du).
  split; [|split; [|split]].
  - intros e Het He Hle Hlt. subst ed.
    destruct (Z.leb_spec md d); [lia|].
    destruct (Z.leb_spec e day); [|lia].
    by destruct Het as [-> | ->].
  - intros Hle. destruct (Z.leb_spec md d); [|lia].
    destruct et; cbn; [done| |];
      (destruct Hwf as [e ->]; [by auto|]; cbn; by destruct (e <=? day)).
  - intros Hlt Hno. destruct (Z.leb_spec md d); [lia|].
    destruct Hno as [-> | (e & -> & Hday)]; [done|].
    destruct et; cbn; [done| |]; by destruct (Z.leb_spec e day); [lia|].
  - intros -> Hday. subst day. unfold d. rewrite Z.eqb_refl. cbn.
    destruct et; cbn; [done| |];
      (destruct Hwf as [e ->]; [by auto|]; cbn; by destruct (e <=? sd)).
Qed.

(** A harvest on the end date, the same for the end type earliest, the
    override when both conditions hold on the same call, and the finish on
    the start date when [max_duration] is 0. *)
Lemma C3_witness :
  CropCalendar_call (mkCropCalendar "maize" 10 sowing (Some 14) harvest 30 3 true) 14
  = Ok (mkCropCalendar "maize" 10 sowing (Some 14) harvest 30 4 false,
        [Send "CROP_FINISH"
           [("day", VDate 14); ("finish", VStr "harvest"); ("crop_delete", VBool true)]])
  ∧ CropCalendar_call (mkCropCalendar "maize" 10 sowing (Some 14) earliest 30 3 true) 14
    = Ok (mkCropCalendar "maize" 10 sowing (Some 14) earliest 30 4 false,
          [Send "CROP_FINISH"
             [("day", VDate 14); ("finish", VStr "harvest"); ("crop_delete", VBool true)]])
  ∧ CropCalendar_call (mkCropCalendar "maize" 10 sowing (Some 14) harvest 4 3 true) 14
    = Ok (mkCropCalendar "maize" 10 sowing (Some 14) harvest 4 4 false,
          [Send "CROP_FINISH"
             [("day", VDate 14); ("finish", VStr "max_duration");
              ("crop_delete", VBool true)]])
  ∧ CropCalendar_call calendar_max0 10
    = Ok (mkCropCalendar "wheat" 10 sowing (Some 20) harvest 0 0 false,
          [Log INFO (LogStartingCrop "wheat" 10);
           Send "CROP_START"
             [("day", VDate 10); ("crop_id", VStr "wheat");
              ("crop_start_type", VStr "sowing"); ("crop_end_type", VStr "harvest")];
           Send "CROP_FINISH"
             [("day", VDate 10); ("finish", VStr "max_duration");
              ("crop_delete", VBool true)]]).
Proof.
  split; [|split; [|split]].
  - apply (proj1 (C3_max_duration_overrides_harvest
                    (mkCropCalendar "maize" 10 sowing (Some 14) harvest 30 3 true) 14
                    ltac:(intros _; by eexists)) 14);
      [by left | reflexivity | cbn; lia | cbn; lia].
  - apply (proj1 (C3_max_duration_overrides_harvest
                    (mkCropCalendar "maize" 10 sowing (Some 14) earliest 30 3 true) 14
                    ltac:(intros _; by eexists)) 14);
      [by right | reflexivity | cbn; lia | cbn; lia].
  - apply (proj1 (proj2 (C3_max_duration_overrides_harvest
                           (mkCropCalendar "maize" 10 sowing (Some 14) harvest 4 3 true) 14
                           ltac:(intros _; by eexists)))).
    cbn. lia.
  - apply (proj2 (proj2 (proj2 (C3_max_duration_overrides_harvest calendar_max0 10
                                  ltac:(intros _; by eexists))))); reflexivity.
Defined.

Section CropCalendarRuns.

Lemma CropCalendar_run_static self evs self' outs :
  CropCalendar_run self evs = Ok (self', outs) →
  crop_start_date self' = crop_start_date self.
Proof.
  revert self self' outs. induction evs as [|ev evs IH]; simpl; intros self self' outs Hr.
  - by inversion Hr.
  - inv_bind Hr. destruct a as [s1 o1]. inv_bind Hr. destruct a as [s2 o2].
    apply CropCalendar_step_static in Ha. apply IH in Ha0. congruence.
Qed.

(** The crop-starts of a run are its calls for the start date. *)
Lemma CropCalendar_run_starts self evs self' outs :
  CropCalendar_run self evs = Ok (self', outs) →
  count_sends signals_crop_start (concat outs)
  = count_occ Z.eq_dec (cc_tick_days evs) (crop_start_date self).
Proof.
  revert self self' outs. induction evs as [|ev evs IH]; simpl; intros self self' outs Hr.
  - by inversion Hr.
  - inv_bind Hr. destruct a as [s1 o1]. inv_bind Hr. destruct a as [s2 o2].
    inversion Hr; subst; clear Hr. simpl. rewrite count_sends_app.
    pose proof (CropCalendar_step_static _ _ _ _ Ha) as Hst.
    rewrite (IH _ _ _ Ha0), Hst. destruct ev as [day|]; simpl in *.
    + apply CropCalendar_call_sends in Ha as [-> _].
      destruct (Z.eqb_spec day (crop_start_date self)) as [->|Hne];
        destruct (Z.eq_dec _ _); try congruence; lia.
    + by inversion Ha.
Qed.

Lemma CropCalendar_run_finishes self evs self' outs :
  CropCalendar_run self evs = Ok (self', outs) →
  Forall (fun o => (count_sends signals_crop_finish o ≤ 1)%nat) outs.
Proof.
  revert self self' outs. induction evs as [|ev evs IH]; simpl; intros self self' outs Hr.
  - inversion Hr. constructor.
  - inv_bind Hr. destruct a as [s1 o1]. inv_bind Hr. destruct a as [s2 o2].
    inversion Hr; subst; clear Hr. constructor; [|by eapply IH].
    destruct ev as [day|]; simpl in *.
    + by apply CropCalendar_call_sends in Ha as [_ ?].
    + inversion Ha. simpl. lia.
Qed.

Lemma sorted_count_occ (l : list Z) (d : Z) :
  StronglySorted Z.lt l → (count_occ Z.eq_dec l d ≤ 1)%nat.
Proof.
  induction 1 as [|x l Hs IH Hall]; simpl; [lia|].
  destruct (Z.eq_dec x d) as [->|Hne]; [|done].
  assert (count_occ Z.eq_dec l d = 0%nat) as ->; [|lia].
  apply count_occ_not_In. intros Hin.
  rewrite List.Forall_forall in Hall. specialize (Hall _ Hin). lia.
Qed.

Lemma starts_separated_few (pending : bool) (out : list effect) :
  (count_sends signals_crop_start out + (if pending then 1 else 0) ≤ 1)%nat →
  starts_separated pending out = true.
Proof.
  revert pending. induction out as [|e out IH]; simpl; intros pending Hle; [done|].
  destruct (is_send signals_crop_start e) eqn:Hs.
  - destruct pending; simpl in *; [lia|]. apply IH. lia.
  - destruct (is_send signals_crop_finish e).
    + apply IH. destruct pending; simpl in *; lia.
    + apply IH. simpl in *. lia.
Qed.

Lemma count_sends_concat_zero sig (outs : list (list effect)) :
  Forall (fun o => count_sends sig o = 0%nat) outs →
  count_sends sig (concat outs) = 0%nat.
Proof.
  induction 1 as [|o outs Ho _ IH]; simpl; [done|].
  rewrite count_sends_app. lia.
Qed.

End CropCalendarRuns.

(** C1.  The driver calls a calendar once per simulated day, for strictly
    increasing days (the bus may deliver crop-finish signals to its handler
    at any point in between).  For every such run: the whole run sends at
    most one crop-start, so there are never two crop-starts without a
    crop-finish in between; and an activation, a run that begins with the
    call for the start date and ends with the first call that sets a finish
    reason (the first whose effects hold a crop-finish), sends exactly one
    crop-start and exactly one crop-finish. *)
Theorem C1_activation_increasing_days
    (self : CropCalendar) (evs : list cc_event)
    (self' : CropCalendar) (outs : list (list effect)) :
  StronglySorted Z.lt (cc_tick_days evs) →
  CropCalendar_run self evs = Ok (self', outs) →
  (count_sends signals_crop_start (concat outs) ≤ 1)%nat
  ∧ starts_separated false (concat outs) = true
  ∧ (∀ rest init last,
       evs = CcTick (crop_start_date self) :: rest →
       outs = init ++ [last] →
       Forall (fun o => count_sends signals_crop_finish o = 0%nat) init →
       count_sends signals_crop_finish last ≠ 0%nat →
       count_sends signals_crop_start (concat outs) = 1%nat
       ∧ count_sends signals_crop_finish (concat outs) = 1%nat).
Proof.
  intros Hsorted Hrun.
  pose proof (CropCalendar_run_starts _ _ _ _ Hrun) as Hstarts.
  pose proof (sorted_count_occ _ (crop_start_date self) Hsorted) as Hle.
  assert (Hone : (count_sends signals_crop_start (concat outs) ≤ 1)%nat) by lia.
  split; [exact Hone|]. split.
  - apply starts_separated_few. simpl. lia.
  - intros rest init last Hevs Houts Hinit Hlast. split.
    + rewrite Hevs in Hstarts. simpl in Hstarts.
      destruct (Z.eq_dec _ _); [lia | congruence].
    + pose proof (CropCalendar_run_finishes _ _ _ _ Hrun) as Hfin.
      rewrite Houts in Hfin |- *. apply Forall_app in Hfin as [_ Hfin].
      apply Forall_cons_1 in Hfin as [Hfin _].
      rewrite concat_app, count_sends_app, (count_sends_concat_zero _ _ Hinit).
      simpl. rewrite app_nil_r. lia.
Qed.

Lemma C1_witness :
  StronglySorted Z.lt (cc_tick_days [CcTick 10; CcTick 11; CcTick 12])
  ∧ ∃ self' outs,
      CropCalendar_run calendar_two_days [CcTick 10; CcTick 11; CcTick 12]
      = Ok (self', outs)
      ∧ starts_separated false (concat outs) = true
      ∧ count_sends signals_crop_start (concat outs) = 1%nat
      ∧ count_sends signals_crop_finish (concat outs) = 1%nat.
Proof.
  assert (Hs : StronglySorted Z.lt
                 (cc_tick_days [CcTick 10; CcTick 11; CcTick 12])).
  { simpl. repeat constructor; lia. }
  split; [exact Hs|].
  destruct (CropCalendar_run calendar_two_days
              [CcTick 10; CcTick 11; CcTick 12])
    as [[self' outs]|e] eqn:Hrun; [|discriminate Hrun].
  exists self', outs. split; [reflexivity|].
  destruct (C1_activation_increasing_days _ _ _ _ Hs Hrun) as (_ & H2 & H3).
  split; [exact H2|].
  injection Hrun as _ Houts.
  apply (H3 [CcTick 11; CcTick 12]
            [[Log INFO (LogStartingCrop "wheat" 10); crop_start_signal calendar_two_days 10];
             []]
            [crop_finish_signal 12 "max_duration"]).
  - reflexivity.
  - symmetry. exact Houts.
  - repeat constructor.
  - simpl. lia.
Defined.

(** After its cycle has ended the calendar keeps sending crop-finish: the
    duration stays at [max_duration], so every later call sets the finish
    type again.  These calls are outside every activation. *)
Example crop_finish_after_the_cycle :
  ∃ self',
    CropCalendar_run calendar_two_days [CcTick 10; CcTick 11; CcTick 12; CcTick 13]
    = Ok (self',
          [[Log INFO (LogStartingCrop "wheat" 10); crop_start_signal calendar_two_days 10];
           [];
           [crop_finish_signal 12 "max_duration"];
           [crop_finish_signal 13 "max_duration"]]).
Proof. eexists. reflexivity. Qed.

(** The crop-finish signal of a call comes back to the calendar's own handler
    and changes nothing: the call has already left the cycle. *)
Lemma own_crop_finish_changes_nothing self day self' out :
  CropCalendar_call self day = Ok (self', out) →
  count_sends signals_crop_finish out ≠ 0%nat →
  CropCalendar_on_CROP_FINISH self' = self'.
Proof.
  intros Hc Hfin. apply CropCalendar_call_inv in Hc as (ft & _ & Hft).
  pose proof (CropCalendar_start_sends self day) as [_ Hf]. simpl in Hf.
  destruct ft as [r|]; destruct Hft as [-> ->]; [done|]. by rewrite Hf in Hfin.
Qed.

(** ** Counters *)
Section CounterFacts.
Context `{Countable K}.

Lemma key_count_cons (k k0 : K) (keys : list K) :
  key_count k (k0 :: keys)
  = ((if decide (k0 = k) then 1 else 0) + key_count k keys)%nat.
Proof.
  unfold key_count. rewrite filter_cons. by destruct (decide (k0 = k)).
Qed.

Lemma Counter_update_lookup (keys : list K) (c : gmap K nat) (k : K) :
  Counter_update c keys !! k
  = if decide (key_count k keys = 0%nat) then c !! k
    else Some (default 0%nat (c !! k) + key_count k keys)%nat.
Proof.
  unfold Counter_update. revert c.
  induction keys as [|k0 keys IH]; intros c; [done|].
  simpl. rewrite IH, key_count_cons. clear IH.
  destruct (decide (k0 = k)) as [->|Hne].
  - rewrite lookup_insert_eq. simpl.
    destruct (decide (key_count k keys = 0%nat)) as [->|_]; f_equal; lia.
  - rewrite lookup_insert_ne by done. done.
Qed.

Lemma Counter_of_events_update {V} (events_table : list (K * V)) :
  Counter_of_events events_table = Counter_update ∅ (events_table.*1).
Proof.
  unfold Counter_of_events, Counter_update. generalize (∅ : gmap K nat).
  induction events_table as [|ev tbl IH]; intros c; [done|]. simpl. apply IH.
Qed.

(** The counter of an events table counts the entries of every key. *)
Lemma Counter_of_events_lookup {V} (events_table : list (K * V)) (k : K) :
  Counter_of_events events_table !! k
  = let n := key_count k (events_table.*1) in
    if decide (n = 0%nat) then None else Some n.
Proof.
  rewrite Counter_of_events_update, Counter_update_lookup, lookup_empty. done.
Qed.

Lemma elem_of_Counter_multi (c : gmap K nat) (k : K) :
  k ∈ Counter_multi c ↔ ∃ n, c !! k = Some n ∧ (1 < n)%nat.
Proof.
  unfold Counter_multi. rewrite list_elem_of_fmap. split.
  - intros ([k' n] & -> & Hin). apply list_elem_of_filter in Hin as [Hn Hin].
    apply elem_of_map_to_list in Hin. eauto.
  - intros (n & Hk & Hn). exists (k, n). split; [done|].
    apply list_elem_of_filter. split; [done|]. by apply elem_of_map_to_list.
Qed.

Lemma NoDup_Counter_multi (c : gmap K nat) : NoDup (Counter_multi c).
Proof.
  unfold Counter_multi.
  eapply sublist_NoDup; [apply (NoDup_fst_map_to_list c)|].
  apply fmap_sublist, sublist_filter.
Qed.

Lemma elem_of_Counter_multi_events {V} (events_table : list (K * V)) (k : K) :
  k ∈ Counter_multi (Counter_of_events events_table)
  ↔ (2 ≤ key_count k (events_table.*1))%nat.
Proof.
  rewrite elem_of_Counter_multi, Counter_of_events_lookup. simpl.
  destruct (decide (key_count k (events_table.*1) = 0%nat)) as [Hz|Hnz].
  - split; [intros (n & [=] & _) | lia].
  - split; [intros (n & [= <-] & Hn); lia | intros Hn; eexists; split; [done|lia]].
Qed.

End CounterFacts.

(** C7. When the configured signal name is an attribute of [signals],
    [TimedEventsDispatcher.__init__] raises a [PCSEError] if and only if some
    day is the key of two or more entries of the events table; nothing else
    is raised, and the days listed in the error are exactly those days, each
    listed once. *)
Theorem C7_duplicate_days_rejected (d : te_def) :
  is_Some (signals_getattr (te_def_event_signal d)) →
  let days := (te_def_events_table d).*1 in
  ((∃ msg, TimedEventsDispatcher_init d = Raise (PCSEError msg))
   ↔ ∃ day, (2 ≤ key_count day days)%nat)
  ∧ (∀ e, TimedEventsDispatcher_init d = Raise e →
          ∃ multi_days,
            e = PCSEError (MsgMultiDays (te_def_name d) multi_days)
            ∧ NoDup multi_days
            ∧ ∀ day, day ∈ multi_days ↔ (2 ≤ key_count day days)%nat).
Proof.
  intros [sig Hsig] days. unfold TimedEventsDispatcher_init. rewrite Hsig.
  pose proof (elem_of_Counter_multi_events (te_def_events_table d)) as Hmulti.
  pose proof (NoDup_Counter_multi (Counter_of_events (te_def_events_table d))) as Hnd.
  fold days in Hmulti.
  destruct (Counter_multi (Counter_of_events (te_def_events_table d)))
    as [|day0 rest] eqn:Hm.
  - split.
    + split; [intros (msg & [=]) | intros (day & Hday)].
      apply Hmulti in Hday. by apply elem_of_nil in Hday.
    + intros e [=].
  - split.
    + split; [intros _ | by eauto].
      exists day0. apply Hmulti. by left.
    + intros e [= <-]. eauto.
Qed.

Lemma C7_witness :
  is_Some (signals_getattr (te_def_event_signal te_def_duplicates))
  ∧ ((∃ msg, TimedEventsDispatcher_init te_def_duplicates = Raise (PCSEError msg))
     ↔ ∃ day, (2 ≤ key_count day ((te_def_events_table te_def_duplicates).*1))%nat).
Proof.
  assert (Hsig : is_Some (signals_getattr (te_def_event_signal te_def_duplicates)))
    by (by eexists).
  split; [exact Hsig|].
  exact (proj1 (C7_duplicate_days_rejected te_def_duplicates Hsig)).
Defined.

(** ** Numbers: the sign of a difference

    The subtraction of doubles rounds, but it keeps the sign of the exact
    difference of two finite doubles; what loses it is the conversion of an
    int of more than 53 bits to a double. *)


Lemma shr_1_digits r :
  0 <= shr_m r →
  0 <= shr_m (shr_1 r)
  ∧ Zdigits2 (shr_m (shr_1 r)) = Z.max 0 (Zdigits2 (shr_m r) - 1).
Proof.
  destruct r as [m b s]; simpl. destruct m as [|p|p]; simpl; [lia| |lia].
  intros _. destruct p; simpl; lia.
Qed.

Lemma iter_pos_shr_1 p : ∀ r,
  0 <= shr_m r →
  0 <= shr_m (SpecFloat.iter_pos shr_1 p r)
  ∧ Zdigits2 (shr_m (SpecFloat.iter_pos shr_1 p r)) = Z.max 0 (Zdigits2 (shr_m r) - Zpos p).
Proof.
  induction p as [p IH|p IH|]; intros r Hr; simpl.
  - destruct (shr_1_digits r Hr) as [H1 E1].
    destruct (IH _ H1) as [H2 E2]. destruct (IH _ H2) as [H3 E3].
    split; [done|]. rewrite E3, E2, E1. lia.
  - destruct (IH _ Hr) as [H2 E2]. destruct (IH _ H2) as [H3 E3].
    split; [done|]. rewrite E3, E2. lia.
  - apply shr_1_digits, Hr.
Qed.

Lemma Zdigits2_pos m : 0 <= m → (0 < Zdigits2 m ↔ 0 < m).
Proof. destruct m; simpl; lia. Qed.

Lemma shr_fexp_pos m e l :
  0 <= m →
  0 <= shr_m (shr_fexp 53 1024 m e l).1
  ∧ e <= (shr_fexp 53 1024 m e l).2
  ∧ (0 < m → -1074 <= e → 0 < shr_m (shr_fexp 53 1024 m e l).1).
Proof.
  intros Hm. unfold shr_fexp, shr.
  assert (Hrec : shr_m (shr_record_of_loc m l) = m) by (by destruct l as [|[]]).
  destruct (fexp 53 1024 (Zdigits2 m + e) - e) as [|n|n] eqn:Hn; simpl;
    rewrite ?Hrec; try (split; [done|]; split; [lia|done]).
  destruct (iter_pos_shr_1 n (shr_record_of_loc m l)) as [H1 E1]; [by rewrite Hrec|].
  split; [done|]. split; [lia|]. intros Hpos He.
  rewrite Hrec in E1. apply Zdigits2_pos; [done|]. rewrite E1.
  apply (Zdigits2_pos m Hm) in Hpos. unfold fexp, emin in Hn. lia.
Qed.

Lemma round_nearest_even_ge m l : m <= round_nearest_even m l.
Proof. destruct l as [|[]]; simpl; try lia. destruct (Z.even m); lia. Qed.

(** Rounding a positive mantissa gives no NaN, and no zero either when the
    exponent is not below the least exponent of a double; the exponent does
    not decrease. *)
Lemma binary_round_aux_sign sx mx ex lx :
  0 < mx →
  match binary_round_aux 53 1024 sx mx ex lx with
  | S754_nan => False
  | S754_zero s => s = sx ∧ ex < -1074
  | S754_infinity s => s = sx
  | S754_finite s _ e => s = sx ∧ ex <= e
  end.
Proof.
  intros Hmx. unfold binary_round_aux.
  destruct (shr_fexp_pos mx ex lx) as (H1 & He1 & Hp1); [lia|].
  destruct (shr_fexp 53 1024 mx ex lx) as [r1 e1]. simpl in H1, He1, Hp1.
  pose proof (round_nearest_even_ge (shr_m r1) (loc_of_shr_record r1)) as Hr.
  set (m2 := round_nearest_even (shr_m r1) (loc_of_shr_record r1)) in *.
  destruct (shr_fexp_pos m2 e1 loc_Exact) as (H2 & He2 & Hp2); [lia|].
  destruct (shr_fexp 53 1024 m2 e1 loc_Exact) as [r2 e2]. simpl in H2, He2, Hp2.
  destruct (shr_m r2) as [|m|m] eqn:Hm; [| |lia].
  - split; [done|]. destruct (Z_lt_le_dec ex (-1074)) as [?|Hex]; [done|].
    specialize (Hp1 Hmx Hex). lia.
  - destruct (_ <=? _); [|done]. split; [done|lia].
Qed.

Lemma binary_round_sign sx mx ex :
  match binary_round 53 1024 sx mx ex with
  | S754_nan => False
  | S754_zero s => s = sx ∧ ex < -1074
  | S754_infinity s => s = sx
  | S754_finite s _ e => s = sx ∧ (-1074 <= ex → -1074 <= e)
  end.
Proof.
  unfold binary_round, shl_align.
  set (ex' := fexp 53 1024 (Z.pos (digits2_pos mx) + ex)).
  assert (Hex' : -1074 <= ex') by (unfold ex', fexp, emin; lia).
  destruct (ex' - ex) as [|d|d] eqn:Hd.
  - pose proof (binary_round_aux_sign sx (Zpos mx) ex loc_Exact ltac:(lia)) as Hs.
    destruct (binary_round_aux _ _ _ _ _ _); try done. split; [apply Hs|lia].
  - pose proof (binary_round_aux_sign sx (Zpos mx) ex loc_Exact ltac:(lia)) as Hs.
    destruct (binary_round_aux _ _ _ _ _ _); try done. split; [apply Hs|lia].
  - pose proof (binary_round_aux_sign sx (Zpos (Pos.iter xO mx d)) ex' loc_Exact
                  ltac:(lia)) as Hs.
    destruct (binary_round_aux _ _ _ _ _ _); try done; [lia|]. split; [apply Hs|lia].
Qed.

(** The double nearest to [m · 2^e] has the sign of [m]. *)
Lemma binary_normalize_sign m e :
  binary_normalize 53 1024 m e false ≠ S754_nan
  ∧ (-1074 <= e → cmp0 (DFloat (binary_normalize 53 1024 m e false)) = Z.sgn m).
Proof.
  destruct m as [|p|p]; simpl.
  - done.
  - pose proof (binary_round_sign false p e) as Hs.
    destruct (binary_round 53 1024 false p e) as [s|s| |s m' e']; [| | done |].
    + split; [done|]. lia.
    + by subst s.
    + destruct Hs as [-> _]. done.
  - pose proof (binary_round_sign true p e) as Hs.
    destruct (binary_round 53 1024 true p e) as [s|s| |s m' e']; [| | done |].
    + split; [done|]. lia.
    + by subst s.
    + destruct Hs as [-> _]. done.
Qed.

(** The double of an int that [float()] converts is finite, with an
    exponent of a double. *)
Lemma float_of_int_exp_ok z : has_float z = true → exp_ok (float_of_int z).
Proof.
  unfold has_float, float_of_int. destruct z as [|p|p]; cbn [binary_normalize].
  - done.
  - pose proof (binary_round_sign false p 0) as Hs.
    destruct (binary_round 53 1024 false p 0); try done. intros _. apply Hs. lia.
  - pose proof (binary_round_sign true p 0) as Hs.
    destruct (binary_round 53 1024 true p 0); try done. intros _. apply Hs. lia.
Qed.

Lemma is_double_exp_ok x : is_double x = true → exp_ok x.
Proof.
  unfold is_double. intros [Hv Hf]%andb_prop.
  destruct x as [s|s| |s m e]; try done. simpl in Hv |- *.
  unfold bounded, canonical_mantissa in Hv.
  apply andb_prop in Hv as [Hc _]. apply Z.eqb_eq in Hc.
  unfold fexp, emin in Hc. lia.
Qed.

Lemma float_value_scaled x :
  exp_ok x → (float_value x == float_scaled x # 2 ^ 1074)%Q.
Proof.
  destruct x as [s|s| |s m e]; try done.
  intros He. cbn [exp_ok] in He. unfold float_value, float_scaled.
  set (sm := cond_Zopp s (Z.pos m)).
  assert (Hpow : Z.pos (2 ^ 1074) = 2 ^ 1074) by apply Pos2Z.inj_pow.
  destruct e as [|p|p]; unfold Qeq; cbn [Qnum Qden inject_Z]; rewrite Hpow.
  - rewrite Z.add_0_l. rewrite Z.pow_0_r. ring.
  - rewrite Z.pow_add_r by lia. ring.
  - rewrite Pos2Z.inj_pow.
    replace (2 ^ 1074) with (2 ^ (Z.neg p + 1074) * 2 ^ Z.pos p) at 1; [ring|].
    rewrite <- Z.pow_add_r by lia. f_equal. lia.
Qed.

Lemma Qcompare_same_den (a b : Z) (d : positive) :
  (a # d ?= b # d)%Q = (a ?= b).
Proof.
  unfold Qcompare. cbn [Qnum Qden]. symmetry. apply Zmult_compare_compat_r. lia.
Qed.

Lemma float_value_compare x y :
  exp_ok x → exp_ok y →
  (float_value x ?= float_value y)%Q = (float_scaled x ?= float_scaled y).
Proof.
  intros Hx Hy.
  rewrite (Qcompare_comp _ _ (float_value_scaled x Hx) _ _ (float_value_scaled y Hy)).
  apply Qcompare_same_den.
Qed.

Lemma Pos_iter_xO (m d : positive) :
  Z.pos (Pos.iter xO m d) = Z.pos m * 2 ^ Z.pos d
  ∧ digits2_pos (Pos.iter xO m d) = (digits2_pos m + d)%positive.
Proof.
  induction d as [|d [IH1 IH2]] using Pos.peano_ind.
  - simpl. split; lia.
  - rewrite Pos.iter_succ. cbn [digits2_pos]. rewrite IH2.
    rewrite Pos2Z.inj_xO, IH1, Pos2Z.inj_succ, Z.pow_succ_r by lia. split; lia.
Qed.

Lemma shl_align_fst mx ex ez :
  ez <= ex → Z.pos (shl_align mx ex ez).1 = Z.pos mx * 2 ^ (ex - ez).
Proof.
  intros Hle. unfold shl_align. destruct (ez - ex) as [|d|d] eqn:Hd; simpl.
  - replace (ex - ez) with 0 by lia. lia.
  - lia.
  - rewrite (proj1 (Pos_iter_xO mx d)). f_equal. f_equal. lia.
Qed.

Lemma sgn_compare (a b : Z) :
  Z.sgn (a - b) = match a ?= b with Lt => -1 | Eq => 0 | Gt => 1 end.
Proof. destruct (Z.compare_spec a b); lia. Qed.

(** The sign of the difference of two finite doubles, as the subtraction of
    doubles computes it, is the sign of the exact difference. *)
Lemma SFsub_sign x y :
  exp_ok x → exp_ok y →
  SFsub 53 1024 x y ≠ S754_nan
  ∧ cmp0 (DFloat (SFsub 53 1024 x y)) = Z.sgn (float_scaled x - float_scaled y).
Proof.
  destruct x as [sx|sx| |sx mx ex]; try done;
    destruct y as [sy|sy| |sy my ey]; try done; intros Hx Hy; cbn [exp_ok] in *.
  - by destruct sx, sy.
  - cbn [SFsub float_scaled].
    assert (0 < 2 ^ (ey + 1074)) by (apply Z.pow_pos_nonneg; lia).
    split; [done|]. destruct sy; simpl; nia.
  - cbn [SFsub float_scaled].
    assert (0 < 2 ^ (ex + 1074)) by (apply Z.pow_pos_nonneg; lia).
    split; [done|]. destruct sx; simpl; nia.
  - cbn [SFsub float_scaled].
    set (ez := Z.min ex ey).
    destruct (binary_normalize_sign
                (cond_Zopp sx (Z.pos (shl_align mx ex ez).1)
                 - cond_Zopp sy (Z.pos (shl_align my ey ez).1)) ez) as [Hnan Hsgn].
    split; [exact Hnan|]. rewrite Hsgn by lia.
    rewrite !shl_align_fst by lia.
    assert (HP : 0 < 2 ^ (ez + 1074)) by (apply Z.pow_pos_nonneg; lia).
    assert (Hx' : cond_Zopp sx (Z.pos mx) * 2 ^ (ex + 1074)
                  = cond_Zopp sx (Z.pos mx * 2 ^ (ex - ez)) * 2 ^ (ez + 1074)).
    { replace (ex + 1074) with ((ex - ez) + (ez + 1074)) by lia.
      rewrite Z.pow_add_r by lia. destruct sx; simpl; ring. }
    assert (Hy' : cond_Zopp sy (Z.pos my) * 2 ^ (ey + 1074)
                  = cond_Zopp sy (Z.pos my * 2 ^ (ey - ez)) * 2 ^ (ez + 1074)).
    { replace (ey + 1074) with ((ey - ez) + (ez + 1074)) by lia.
      rewrite Z.pow_add_r by lia. destruct sy; simpl; ring. }
    rewrite Hx', Hy', <- Z.mul_sub_distr_r, Z.sgn_mul, (Z.sgn_pos _ HP). lia.
Qed.

Lemma digits2_pos_le (p : positive) : 2 ^ (Z.pos (digits2_pos p) - 1) <= Z.pos p.
Proof.
  induction p as [p IH|p IH|]; cbn [digits2_pos].
  - rewrite Pos2Z.inj_succ. replace (Z.succ (Z.pos (digits2_pos p)) - 1)
      with (Z.succ (Z.pos (digits2_pos p) - 1)) by lia.
    rewrite Z.pow_succ_r by lia. lia.
  - rewrite Pos2Z.inj_succ. replace (Z.succ (Z.pos (digits2_pos p)) - 1)
      with (Z.succ (Z.pos (digits2_pos p) - 1)) by lia.
    rewrite Z.pow_succ_r by lia. lia.
  - simpl. lia.
Qed.

(** An int below 2^53 in absolute value converts to a double exactly. *)
Lemma binary_round_exact sx (p : positive) :
  Z.pos p < 2 ^ 53 →
  ∃ m e, binary_round 53 1024 sx p 0 = S754_finite sx m e
         ∧ -52 <= e <= 0 ∧ Z.pos m = Z.pos p * 2 ^ (- e).
Proof.
  intros Hp. pose proof (digits2_pos_le p) as Hd.
  assert (Hd53 : Z.pos (digits2_pos p) <= 53).
  { destruct (Z_le_gt_dec (Z.pos (digits2_pos p)) 53) as [?|Hgt]; [done|].
    assert (2 ^ 53 <= 2 ^ (Z.pos (digits2_pos p) - 1))
      by (apply Z.pow_le_mono_r; lia). lia. }
  unfold binary_round.
  assert (Hfexp : fexp 53 1024 (Z.pos (digits2_pos p) + 0) = Z.pos (digits2_pos p) - 53)
    by (unfold fexp, emin; lia).
  rewrite Hfexp.
  set (e := Z.pos (digits2_pos p) - 53).
  assert (Hedef : e = Z.pos (digits2_pos p) - 53) by done. clearbody e.
  assert (Halign : ∃ mz, shl_align p 0 e = (mz, e)
                         ∧ Z.pos mz = Z.pos p * 2 ^ (- e)
                         ∧ Z.pos (digits2_pos mz) = 53).
  { unfold shl_align. destruct (e - 0) as [|d|d] eqn:He.
    - exists p. replace e with 0 by lia. simpl. split; [done|]. split; lia.
    - lia.
    - exists (Pos.iter xO p d). destruct (Pos_iter_xO p d) as [H1 H2].
      split; [done|]. rewrite H1, H2. split; [do 2 f_equal; lia|lia]. }
  destruct Halign as (mz & -> & Hmz & Hdz).
  exists mz, e. split; [|split; [lia|done]].
  unfold binary_round_aux, shr_fexp. cbn [Zdigits2 shr_record_of_loc].
  assert (Hn : fexp 53 1024 (Z.pos (digits2_pos mz) + e) - e = 0)
    by (unfold fexp, emin; lia).
  rewrite Hn. cbn [shr loc_of_shr_record shr_m round_nearest_even Zdigits2].
  rewrite Hn. cbn [shr shr_m].
  destruct (Z.leb_spec e (1024 - 53)); [done|lia].
Qed.

Lemma float_of_int_small z :
  Z.abs z <= 2 ^ 53 →
  exp_ok (float_of_int z) ∧ float_scaled (float_of_int z) = z * 2 ^ 1074.
Proof.
  intros Hz. destruct (Z.eq_dec (Z.abs z) (2 ^ 53)) as [Heq|Hne].
  { assert (Hcases : z = 2 ^ 53 ∨ z = - 2 ^ 53) by lia.
    destruct Hcases as [-> | ->]; split; vm_compute; done. }
  unfold float_of_int. destruct z as [|p|p]; cbn [binary_normalize].
  - done.
  - destruct (binary_round_exact false p) as (m & e & -> & He & Hm); [lia|].
    cbn [exp_ok float_scaled cond_Zopp]. split; [lia|]. rewrite Hm.
    rewrite <- Z.mul_assoc, <- Z.pow_add_r by lia. do 2 f_equal. lia.
  - destruct (binary_round_exact true p) as (m & e & -> & He & Hm); [lia|].
    cbn [exp_ok float_scaled cond_Zopp]. split; [lia|].
    change (- Z.pos m) with (- (Z.pos m)). change (Z.neg p) with (- Z.pos p).
    rewrite Hm, !Z.mul_opp_l. f_equal.
    rewrite <- Z.mul_assoc, <- Z.pow_add_r by lia. do 2 f_equal. lia.
Qed.

Lemma SFsub_not_nan x y :
  float_is_finite x = true → float_is_finite y = true →
  SFsub 53 1024 x y ≠ S754_nan.
Proof.
  destruct x as [sx|sx| |sx mx ex]; try done;
    destruct y as [sy|sy| |sy my ey]; try done; intros _ _; cbn [SFsub].
  - by destruct sx, sy.
  - apply binary_normalize_sign.
Qed.

Lemma to_float_finite a : float_is_finite (to_float a) = true.
Proof.
  destruct a as [z Hz|x Hx]; cbn [to_float]; [exact Hz|].
  unfold is_double in Hx. by apply andb_prop in Hx as [_ ?].
Qed.

(** No subtraction yields a NaN. *)
Lemma py_sub_not_nan a b : py_sub a b ≠ DFloat S754_nan.
Proof.
  assert (Hnan : SFsub 53 1024 (to_float a) (to_float b) ≠ S754_nan)
    by (apply SFsub_not_nan; apply to_float_finite).
  destruct a, b; cbn [py_sub]; congruence.
Qed.

Lemma cmp0_range d : cmp0 d = -1 ∨ cmp0 d = 0 ∨ cmp0 d = 1.
Proof.
  destruct d as [z|x]; simpl.
  - destruct z; auto.
  - destruct (SFcompare _ _) as [[]|]; auto.
Qed.

Lemma inject_Z_scaled z : (inject_Z z == z * 2 ^ 1074 # 2 ^ 1074)%Q.
Proof.
  unfold Qeq, inject_Z. cbn [Qnum Qden]. rewrite Pos2Z.inj_pow. ring.
Qed.

Lemma Qeq_same_den (a b : Z) (d : positive) : (a # d == b # d)%Q ↔ a = b.
Proof. unfold Qeq. cbn [Qnum Qden]. split; [|by intros ->]. nia. Qed.

(** An int that is converted exactly has the value of its double. *)
Lemma int_exact_scaled z :
  exp_ok (float_of_int z) →
  int_exact z ↔ float_scaled (float_of_int z) = z * 2 ^ 1074.
Proof.
  intros Hok. unfold int_exact.
  rewrite (float_value_scaled _ Hok), (inject_Z_scaled z). apply Qeq_same_den.
Qed.

(** Every int of at most 2^53 in absolute value is converted exactly. *)
Lemma int_exact_small z : Z.abs z <= 2 ^ 53 → int_exact z.
Proof.
  intros Hz. destruct (float_of_int_small z Hz) as [Hok Hsc].
  by apply int_exact_scaled.
Qed.

(** Numbers compare as their values in units of 2^-1074 do. *)
Lemma py_value_compare a b :
  (py_value a ?= py_value b)%Qc = (py_scaled a ?= py_scaled b).
Proof.
  assert (Hq : ∀ c, (match c with
                     | PyInt z _ => inject_Z z
                     | PyFloat x _ => float_value x
                     end == py_scaled c # 2 ^ 1074)%Q).
  { intros [z Hz|x Hx]; cbn [py_scaled].
    - apply inject_Z_scaled.
    - apply float_value_scaled, is_double_exp_ok, Hx. }
  unfold Qccompare, py_value. cbn [this Q2Qc]. rewrite <- Qred_compare.
  rewrite (Qcompare_comp _ _ (Hq a) _ _ (Hq b)). apply Qcompare_same_den.
Qed.

Lemma py_lt_scaled a b : (py_value a < py_value b)%Qc ↔ py_scaled a < py_scaled b.
Proof. rewrite Qclt_alt, py_value_compare. reflexivity. Qed.

Lemma py_le_scaled a b : (py_value a ≤ py_value b)%Qc ↔ py_scaled a <= py_scaled b.
Proof. rewrite Qcle_alt, py_value_compare. reflexivity. Qed.

Lemma cmp_exact_scaled a b : cmp_exact a b = Z.sgn (py_scaled a - py_scaled b).
Proof. unfold cmp_exact. rewrite py_value_compare. symmetry. apply sgn_compare. Qed.

(** The computed sign is the sign of the exact difference when no int is
    rounded. *)
Lemma cmp0_exact a b : sub_exact a b → cmp0 (py_sub a b) = cmp_exact a b.
Proof.
  rewrite cmp_exact_scaled.
  destruct a as [x Hx|x Hx], b as [y Hy|y Hy];
    cbn [py_sub py_scaled to_float sub_exact]; intros Hex.
  - cbn [cmp0]. rewrite <- Z.mul_sub_distr_r, Z.sgn_mul.
    rewrite (Z.sgn_pos (2 ^ 1074)) by (by apply Z.pow_pos_nonneg). lia.
  - pose proof (float_of_int_exp_ok x Hx) as Hok.
    apply (int_exact_scaled x Hok) in Hex.
    destruct (SFsub_sign _ _ Hok (is_double_exp_ok y Hy)) as [_ ->]. by rewrite Hex.
  - pose proof (float_of_int_exp_ok y Hy) as Hok.
    apply (int_exact_scaled y Hok) in Hex.
    destruct (SFsub_sign _ _ (is_double_exp_ok x Hx) Hok) as [_ ->]. by rewrite Hex.
  - by destruct (SFsub_sign _ _ (is_double_exp_ok x Hx) (is_double_exp_ok y Hy)) as [_ ->].
Qed.

Lemma cmp0_exact_scaled a b :
  sub_exact a b → cmp0 (py_sub a b) = Z.sgn (py_scaled a - py_scaled b).
Proof. intros Hex. by rewrite cmp0_exact, cmp_exact_scaled. Qed.

(** A series of which no subtraction from the threshold rounds an int has
    the signs of its exact order. *)
Lemma exact_signs_sorted state (l : list pynum) :
  Forall (fun v => sub_exact v state) l →
  StronglySorted (fun a b => (py_value a ≤ py_value b)%Qc) l →
  StronglySorted (fun a b => cmp0 (py_sub a state) <= cmp0 (py_sub b state)) l.
Proof.
  intros Hex Hs. induction Hs as [|a l Hs IH Hall]; [constructor|].
  apply Forall_cons_1 in Hex as [Ha Hex]. constructor; [by apply IH|].
  rewrite List.Forall_forall in Hall, Hex. apply List.Forall_forall. intros b Hb.
  rewrite !cmp0_exact_scaled by auto. specialize (Hall b Hb).
  apply py_le_scaled in Hall. lia.
Qed.

(** ** The state events dispatcher *)

(** C9. When the kiosk does not hold the watched variable, the call returns
    (the model function is total: nothing is raised), its only effect is one
    warning in the log, so no signal is sent, and the dispatcher it returns is
    the dispatcher it was given, previous signs included. *)
Theorem C9_absent_variable_skips_tick
    (kiosk : gmap string pynum) (self : StateEventsDispatcher) (day : date) :
  kiosk !! se_event_state self = None →
  StateEventsDispatcher_call kiosk self day
  = (self, [Log WARNING (LogStateNotAvailable (se_event_state self))])
  ∧ previous_signs (StateEventsDispatcher_call kiosk self day).1 = previous_signs self
  ∧ ∀ sig, count_sends sig (StateEventsDispatcher_call kiosk self day).2 = 0%nat.
Proof.
  intros Habsent. unfold StateEventsDispatcher_call. rewrite Habsent. simpl. done.
Qed.

Lemma C9_witness :
  ({[ "SM" := PyFloat (float_of_int 1) eq_refl ]} : gmap string pynum)
    !! se_event_state dvs_dispatcher = None
  ∧ StateEventsDispatcher_call {[ "SM" := PyFloat (float_of_int 1) eq_refl ]}
      dvs_dispatcher 730545
    = (dvs_dispatcher, [Log WARNING (LogStateNotAvailable "DVS")]).
Proof.
  assert (Habsent : ({[ "SM" := PyFloat (float_of_int 1) eq_refl ]} : gmap string pynum)
                      !! se_event_state dvs_dispatcher = None) by reflexivity.
  split; [exact Habsent|].
  exact (proj1 (C9_absent_variable_skips_tick _ dvs_dispatcher 730545 Habsent)).
Defined.

Section StateEventsFacts.

Lemma evaluate_state_rising (self : StateEventsDispatcher) :
  se_zero_condition self = rising → _evaluate_state self = _zero_condition_rising self.
Proof. unfold _evaluate_state. by intros ->. Qed.

Lemma rising_series_cons self state kw zcs cur series :
  rising_series self state kw zcs (cur :: series)
  = let r := _zero_condition_rising self cur state kw zcs in
    let rs := rising_series self state kw (Some r.1) series in
    (rs.1, r.2 ++ rs.2).
Proof.
  simpl. destruct (_zero_condition_rising self cur state kw zcs) as [sign out].
  simpl. by destruct (rising_series self state kw (Some sign) series).
Qed.

(** While the sign is -1 nothing is sent, whatever the previous sign. *)
Lemma rising_series_below self state kw series :
  Forall (fun v => cmp0 (py_sub v state) = -1) series →
  ∀ zcs, (rising_series self state kw zcs series).2 = [].
Proof.
  induction 1 as [|v series Hv _ IH]; intros zcs; [done|].
  rewrite rising_series_cons. simpl. rewrite IH, app_nil_r.
  unfold _zero_condition_rising. rewrite Hv.
  destruct zcs as [z|]; [|done]. simpl. by rewrite andb_false_r.
Qed.

(** While the sign is 0 or 1 nothing is sent once the previous sign is not -1. *)
Lemma rising_series_not_below self state kw series :
  Forall (fun v => cmp0 (py_sub v state) ≠ -1) series →
  ∀ zcs, zcs ≠ Some (-1) → (rising_series self state kw zcs series).2 = [].
Proof.
  induction 1 as [|v series Hv _ IH]; intros zcs Hz; [done|].
  rewrite rising_series_cons. simpl.
  rewrite IH.
  - rewrite app_nil_r. unfold _zero_condition_rising.
    destruct zcs as [z|]; [|done].
    destruct (Z.eqb_spec z (-1)) as [->|_]; [done|]. done.
  - unfold _zero_condition_rising. destruct zcs as [z|]; simpl.
    + destruct (_ && _); simpl; congruence.
    + congruence.
Qed.

(** From a previous sign of -1, a series whose signs never decrease and
    leave -1 sends once, on the first value whose sign is not -1. *)
Lemma rising_series_crossing self state kw rest :
  StronglySorted (fun a b => cmp0 (py_sub a state) <= cmp0 (py_sub b state)) rest →
  Exists (fun v => cmp0 (py_sub v state) ≠ -1) rest →
  ∃ v, v ∈ rest ∧ cmp0 (py_sub v state) ≠ -1
       ∧ (rising_series self state kw (Some (-1)) rest).2
         = [Log INFO (LogStateEventAtModelState (se_name self) v);
            Send (se_event_signal self) kw].
Proof.
  induction 1 as [|v rest Hsorted IH Hall]; intros Hex; [by apply Exists_nil in Hex|].
  rewrite rising_series_cons. simpl.
  destruct (decide (cmp0 (py_sub v state) = -1)) as [Hv|Hv].
  - apply Exists_cons in Hex as [Hex|Hex]; [done|].
    destruct (IH Hex) as (w & Hw & Hsw & Heff).
    exists w. split; [by right|]. split; [done|].
    unfold _zero_condition_rising. rewrite Hv. simpl. exact Heff.
  - exists v. split; [by left|]. split; [done|].
    assert (Hsign : cmp0 (py_sub v state) = 0 ∨ cmp0 (py_sub v state) = 1)
      by (destruct (cmp0_range (py_sub v state)) as [?|[?|?]]; auto; done).
    rewrite rising_series_not_below.
    + unfold _zero_condition_rising. destruct Hsign as [-> | ->]; done.
    + rewrite List.Forall_forall in Hall. apply List.Forall_forall.
      intros x Hx. specialize (Hall x Hx). lia.
    + unfold _zero_condition_rising. destruct Hsign as [-> | ->]; simpl; congruence.
Qed.

(** The same in terms of the exact order of the values, when no subtraction
    from the threshold rounds an int. *)
Lemma rising_series_crossing_exact self state kw v1 rest :
  Forall (fun v => sub_exact v state) (v1 :: rest) →
  (py_value v1 < py_value state)%Qc →
  StronglySorted (fun a b => (py_value a ≤ py_value b)%Qc) (v1 :: rest) →
  Exists (fun v => (py_value state ≤ py_value v)%Qc) rest →
  ∃ v, v ∈ rest ∧ (py_value state ≤ py_value v)%Qc
       ∧ (rising_series self state kw None (v1 :: rest)).2
         = [Log INFO (LogStateEventAtModelState (se_name self) v);
            Send (se_event_signal self) kw].
Proof.
  intros Hexact Hv1 Hsorted Hex.
  pose proof (exact_signs_sorted state _ Hexact Hsorted) as Hsigns.
  apply Forall_cons_1 in Hexact as [Hx1 Hexact].
  apply StronglySorted_inv in Hsigns as [Hsigns _].
  rewrite List.Forall_forall in Hexact.
  destruct (rising_series_crossing self state kw rest Hsigns) as (v & Hv & Hsv & Heff).
  { apply List.Exists_exists in Hex as (x & Hx & Hle). apply List.Exists_exists.
    exists x. split; [done|]. rewrite cmp0_exact_scaled by auto.
    apply py_le_scaled in Hle. lia. }
  exists v. split; [done|]. split.
  - apply py_le_scaled. rewrite cmp0_exact_scaled in Hsv;
      [lia | apply Hexact; by apply list_elem_of_In].
  - rewrite rising_series_cons. simpl.
    rewrite cmp0_exact_scaled by done. apply py_lt_scaled in Hv1.
    rewrite (Z.sgn_neg (py_scaled v1 - py_scaled state)) by lia. exact Heff.
Qed.

Lemma rising_series_same_side_exact self state kw series :
  Forall (fun v => sub_exact v state) series →
  Forall (fun v => (py_value state ≤ py_value v)%Qc) series
  ∨ Forall (fun v => (py_value v < py_value state)%Qc) series →
  (rising_series self state kw None series).2 = [].
Proof.
  intros Hexact Hside. rewrite List.Forall_forall in Hexact.
  destruct Hside as [Hall|Hall]; rewrite List.Forall_forall in Hall.
  - apply rising_series_not_below; [|done]. apply List.Forall_forall.
    intros v Hv. rewrite cmp0_exact_scaled by auto.
    specialize (Hall v Hv). apply py_le_scaled in Hall. lia.
  - apply rising_series_below. apply List.Forall_forall.
    intros v Hv. rewrite cmp0_exact_scaled by auto.
    specialize (Hall v Hv). apply py_lt_scaled in Hall. lia.
Qed.

Lemma StateEvents_loop_spec self cur pairs :
  StateEvents_loop self cur pairs
  = (map (fun p => Some (_evaluate_state self cur p.1.1 p.1.2 p.2).1) pairs,
     flat_map (fun p => (_evaluate_state self cur p.1.1 p.1.2 p.2).2) pairs).
Proof.
  induction pairs as [|[[state kw] zcs] pairs IH]; [done|].
  simpl. destruct (_evaluate_state self cur state kw zcs) as [sign out].
  rewrite IH. done.
Qed.

Lemma zip_map_zip {A B C} (g : A * B → C) (l : list A) (k : list B) :
  zip l (map g (zip l k)) = map (fun p => (p.1, g p)) (zip l k).
Proof.
  revert k. induction l as [|a l IH]; intros [|b k]; simpl; [done..|].
  by rewrite IH.
Qed.

Lemma count_sends_flat_map {A} sig (f : A → list effect) (l : list A) :
  count_sends sig (flat_map f l) = sum_list (map (fun a => count_sends sig (f a)) l).
Proof.
  induction l as [|a l IH]; simpl; [done|]. by rewrite count_sends_app, IH.
Qed.

Lemma sum_list_map_plus {A} (f g : A → nat) (l : list A) :
  sum_list (map (fun a => f a + g a)%nat l)
  = (sum_list (map f l) + sum_list (map g l))%nat.
Proof. induction l as [|a l IH]; simpl; [done|]. rewrite IH. lia. Qed.

Lemma sum_list_map_zero {A} (f : A → nat) (l : list A) :
  (∀ a, f a = 0%nat) → sum_list (map f l) = 0%nat.
Proof. intros Hf. induction l as [|a l IH]; simpl; [done|]. rewrite Hf, IH. done. Qed.

(** Over a run of a rising dispatcher the sends add up entry by entry: each
    entry sends what [_zero_condition_rising] sends for it over the observed
    values, starting from the entry's previous sign. *)
Lemma StateEventsDispatcher_run_sends (self : StateEventsDispatcher) sig :
  se_zero_condition self = rising →
  ∀ ticks signs,
    count_sends sig (StateEventsDispatcher_run (set_previous_signs self signs) ticks).2
    = sum_list
        (map (fun p => count_sends sig
                 (rising_series self p.1.1 p.1.2 p.2
                    (observed_values (se_event_state self) ticks)).2)
             (zip (se_events_table self) signs)).
Proof.
  intros Hrising. induction ticks as [|[kiosk day] ticks IH]; intros signs.
  - simpl. symmetry. by apply sum_list_map_zero.
  - cbn [StateEventsDispatcher_run]. unfold StateEventsDispatcher_call.
    cbn [se_event_state set_previous_signs se_events_table previous_signs].
    unfold observed_values. cbn [omap list_omap fst].
    destruct (kiosk !! se_event_state self) as [cur|] eqn:Hk.
    + rewrite StateEvents_loop_spec.
      change (set_previous_signs (set_previous_signs self signs) ?s)
        with (set_previous_signs self s).
      specialize (IH (map (fun p => Some (_evaluate_state (set_previous_signs self signs)
                                            cur p.1.1 p.1.2 p.2).1)
                          (zip (se_events_table self) signs))).
      destruct (StateEventsDispatcher_run _ ticks) as [self' outs].
      simpl in IH |- *. rewrite count_sends_app, IH, zip_map_zip, map_map.
      rewrite count_sends_flat_map, <- sum_list_map_plus.
      f_equal. apply map_ext. intros [[state kw] zcs].
      cbn [fst snd].
      change (_evaluate_state (set_previous_signs self signs))
        with (_evaluate_state self).
      rewrite (evaluate_state_rising self Hrising).
      fold (observed_values (se_event_state self) ticks).
      destruct (_zero_condition_rising self cur state kw zcs) as [sign out].
      cbn [fst snd].
      destruct (rising_series self state kw (Some sign) _) as [last_sign outs'].
      cbn [fst snd]. by rewrite count_sends_app.
    + specialize (IH signs).
      destruct (StateEventsDispatcher_run _ ticks) as [self' outs].
      simpl in IH |- *. exact IH.
Qed.

End StateEventsFacts.

(** C5.  For a dispatcher whose zero condition is rising and for every
    entry of its table, with the sign of an observation the value of
    [cmp(current - threshold, 0)] as Python computes it: the first
    observation (no previous sign) returns the sign and sends nothing; a
    later observation sends the configured signal with the entry's keywords
    exactly when the previous sign is -1 and the new sign is 0 or 1;
    [__call__] stores the new sign of every entry as its previous sign,
    fired or not, and over a run the sends of the dispatcher are the sends
    of its entries.  Hence, for an entry, a series whose signs never
    decrease, start at -1 and leave it sends exactly once, on the first
    value whose sign is not -1, and a series whose signs are all -1, or all
    0 or 1, sends nothing.  The sign is the sign of the exact difference
    when the subtraction rounds no int: on two ints, on two floats, and on
    a float with an int that [float()] converts exactly, as it does every
    int of at most 2^53 in absolute value.  For such values, a series that
    never decreases, starts below the threshold and reaches it sends exactly
    once, on a value at or above the threshold, and a series that stays at
    or above the threshold, or stays below it, sends nothing. *)
Theorem C5_rising_fires_on_crossing (self : StateEventsDispatcher) :
  se_zero_condition self = rising →
  (∀ cur state kw,
     _evaluate_state self cur state kw None = (cmp0 (py_sub cur state), []))
  ∧ (∀ cur state kw p,
       _evaluate_state self cur state kw (Some p)
       = (cmp0 (py_sub cur state),
          if (p =? -1)
             && ((cmp0 (py_sub cur state) =? 0) || (cmp0 (py_sub cur state) =? 1))
          then [Log INFO (LogStateEventAtModelState (se_name self) cur);
                Send (se_event_signal self) kw]
          else []))
  ∧ (∀ kiosk day cur,
       kiosk !! se_event_state self = Some cur →
       let pairs := zip (se_events_table self) (previous_signs self) in
       StateEventsDispatcher_call kiosk self day
       = (set_previous_signs self
            (map (fun p => Some (cmp0 (py_sub cur p.1.1))) pairs),
          flat_map (fun p => (_evaluate_state self cur p.1.1 p.1.2 p.2).2) pairs))
  ∧ (∀ sig ticks,
       count_sends sig (StateEventsDispatcher_run self ticks).2
       = sum_list
           (map (fun p => count_sends sig
                    (rising_series self p.1.1 p.1.2 p.2
                       (observed_values (se_event_state self) ticks)).2)
                (zip (se_events_table self) (previous_signs self))))
  ∧ (∀ state kw v1 rest,
       cmp0 (py_sub v1 state) = -1 →
       StronglySorted (fun a b => cmp0 (py_sub a state) <= cmp0 (py_sub b state))
         (v1 :: rest) →
       Exists (fun v => cmp0 (py_sub v state) ≠ -1) rest →
       ∃ v, v ∈ rest ∧ cmp0 (py_sub v state) ≠ -1
            ∧ (rising_series self state kw None (v1 :: rest)).2
              = [Log INFO (LogStateEventAtModelState (se_name self) v);
                 Send (se_event_signal self) kw])
  ∧ (∀ state kw series,
       Forall (fun v => cmp0 (py_sub v state) ≠ -1) series
       ∨ Forall (fun v => cmp0 (py_sub v state) = -1) series →
       (rising_series self state kw None series).2 = [])
  ∧ (∀ cur state, sub_exact cur state → cmp0 (py_sub cur state) = cmp_exact cur state)
  ∧ (∀ z, Z.abs z <= 2 ^ 53 → int_exact z)
  ∧ (∀ state kw v1 rest,
       Forall (fun v => sub_exact v state) (v1 :: rest) →
       (py_value v1 < py_value state)%Qc →
       StronglySorted (fun a b => (py_value a ≤ py_value b)%Qc) (v1 :: rest) →
       Exists (fun v => (py_value state ≤ py_value v)%Qc) rest →
       ∃ v, v ∈ rest ∧ (py_value state ≤ py_value v)%Qc
            ∧ (rising_series self state kw None (v1 :: rest)).2
              = [Log INFO (LogStateEventAtModelState (se_name self) v);
                 Send (se_event_signal self) kw])
  ∧ (∀ state kw series,
       Forall (fun v => sub_exact v state) series →
       Forall (fun v => (py_value state ≤ py_value v)%Qc) series
       ∨ Forall (fun v => (py_value v < py_value state)%Qc) series →
       (rising_series self state kw None series).2 = []).
Proof.
  intros Hrising. rewrite (evaluate_state_rising self Hrising).
  split; [done|]. split.
  { intros cur state kw p. unfold _zero_condition_rising. by destruct (_ && _). }
  split.
  { intros kiosk day cur Hk pairs. unfold StateEventsDispatcher_call.
    rewrite Hk, StateEvents_loop_spec, (evaluate_state_rising self Hrising).
    f_equal. f_equal. apply map_ext. intros [[state kw] [z|]]; simpl; [|done].
    unfold _zero_condition_rising. by destruct (_ && _). }
  split.
  { intros sig ticks.
    rewrite <- (StateEventsDispatcher_run_sends self sig Hrising ticks (previous_signs self)).
    by destruct self. }
  split.
  { intros state kw v1 rest Hv1 Hsorted Hex.
    apply StronglySorted_inv in Hsorted as [Hsorted _].
    destruct (rising_series_crossing self state kw rest Hsorted Hex)
      as (v & Hv & Hsv & Heff).
    exists v. split; [done|]. split; [done|].
    rewrite rising_series_cons. simpl. rewrite Hv1. exact Heff. }
  split.
  { intros state kw series [Hall|Hall].
    - by apply rising_series_not_below.
    - by apply rising_series_below. }
  split; [exact cmp0_exact|]. split; [exact int_exact_small|]. split.
  - intros state kw v1 rest. apply rising_series_crossing_exact.
  - intros state kw series. apply rising_series_same_side_exact.
Qed.

(** The development stage, a float, rises through 0.5, 1.0 and 2.0 past the
    threshold 1, an int: the event is sent at 1.0. *)
Lemma C5_witness :
  let half := PyFloat (S754_finite false 4503599627370496 (-53)) eq_refl in
  let one := PyFloat (float_of_int 1) eq_refl in
  let two := PyFloat (float_of_int 2) eq_refl in
  let state := PyInt 1 eq_refl in
  let kw := [("N_amount", VNum (PyInt 10 eq_refl))] in
  se_zero_condition dvs_dispatcher = rising
  ∧ py_value half = Q2Qc (1 # 2)
  ∧ Forall (fun v => sub_exact v state) [half; one; two]
  ∧ (∃ v, v ∈ [one; two] ∧ (py_value state ≤ py_value v)%Qc
          ∧ (rising_series dvs_dispatcher state kw None [half; one; two]).2
            = [Log INFO (LogStateEventAtModelState "fertilizer" v);
               Send "APPLY_NPK" kw])
  ∧ (rising_series dvs_dispatcher state kw None [half; one; two]).2
    = [Log INFO (LogStateEventAtModelState "fertilizer" one); Send "APPLY_NPK" kw].
Proof.
  intros half one two state kw.
  assert (Hrising : se_zero_condition dvs_dispatcher = rising) by reflexivity.
  assert (Hexact : Forall (fun v => sub_exact v state) [half; one; two])
    by (repeat constructor; by vm_compute).
  split; [exact Hrising|]. split; [by apply Q2Qc_eq_iff|]. split; [exact Hexact|].
  split; [|reflexivity].
  destruct (C5_rising_fires_on_crossing dvs_dispatcher Hrising)
    as (_ & _ & _ & _ & _ & _ & _ & _ & Hcross & _).
  apply (Hcross state kw half [one; two] Hexact).
  - reflexivity.
  - repeat constructor; discriminate.
  - left. discriminate.
Defined.

(** C5 as stated fails when the threshold is an int that no double
    represents.  The threshold is the int 2^53 + 1 and the watched variable
    takes the float values 2^53 and 2^53 + 2: the series increases and
    crosses the threshold.  [current - threshold] converts the threshold to
    the double 2^53, so the first observation records the sign 0, not the
    sign -1 of the difference, the second records 1, and nothing is sent:
    neither by [_zero_condition_rising] over the series nor by a dispatcher
    that the constructor built from this table and that is called with these
    values in the kiosk. *)
Lemma C5_counterexample_rounded_threshold :
  let state := PyInt (2 ^ 53 + 1) eq_refl in
  let v1 := PyFloat (float_of_int (2 ^ 53)) eq_refl in
  let v2 := PyFloat (float_of_int (2 ^ 53 + 2)) eq_refl in
  let d := mkSeDef "apply_npk" "DVS" rising "fertilizer" "" [(state, [])] in
  py_value v1 = Q2Qc (inject_Z (2 ^ 53))
  ∧ py_value state = Q2Qc (inject_Z (2 ^ 53 + 1))
  ∧ py_value v2 = Q2Qc (inject_Z (2 ^ 53 + 2))
  ∧ (py_value v1 < py_value state)%Qc
  ∧ (py_value state ≤ py_value v2)%Qc
  ∧ StronglySorted (fun a b => (py_value a ≤ py_value b)%Qc) [v1; v2]
  ∧ ¬ int_exact (2 ^ 53 + 1)
  ∧ cmp0 (py_sub v1 state) = 0
  ∧ cmp_exact v1 state = -1
  ∧ rising_series dvs_dispatcher state [] None [v1; v2] = (Some 1, [])
  ∧ ∃ self,
      StateEventsDispatcher_init d = Ok self
      ∧ se_zero_condition self = rising
      ∧ StateEventsDispatcher_run self [({["DVS" := v1]}, 1); ({["DVS" := v2]}, 2)]
        = (set_previous_signs self [Some 1], []).
Proof.
  intros state v1 v2 d.
  split; [reflexivity|]. split; [reflexivity|]. split; [reflexivity|].
  split; [reflexivity|]. split; [discriminate|]. split.
  { repeat constructor. discriminate. }
  split; [by vm_compute|].
  split; [reflexivity|]. split; [reflexivity|]. split; [reflexivity|].
  eexists. split; [reflexivity|]. split; reflexivity.
Qed.

(** ** The scheduler: initialization *)

Lemma check_campaign_date_fields self d self' :
  _check_campaign_date self d = Ok self' →
  campaign_start_dates self' = campaign_start_dates self
  ∧ _end_date self' = _end_date self
  ∧ _icampaign self' = _icampaign self
  ∧ crop_calendars self' = crop_calendars self
  ∧ timed_event_dispatchers self' = timed_event_dispatchers self
  ∧ state_event_dispatchers self' = state_event_dispatchers self
  ∧ _tmp_date self' = Some (default d (_tmp_date self)).
Proof.
  unfold _check_campaign_date. destruct (_tmp_date self) as [t|] eqn:Ht.
  - destruct (d <=? t); [discriminate|]. intros [= <-]. by rewrite Ht.
  - intros [= <-]. done.
Qed.

(** The first loop of [initialize] compares every start date with the first
    one only: [_tmp_date] is set by the first campaign and never again. *)
Lemma initialize_dates_compares_with_first self first agromanagement :
  _tmp_date self = Some first →
  (∃ e, initialize_dates self agromanagement = Raise e)
  ↔ Exists (fun c : Z * option campaign_def => c.1 <= first) agromanagement.
Proof.
  revert self. induction agromanagement as [|c agro IH]; intros self Htmp; simpl.
  - split; [intros [e [=]] | intros Hex; by apply Exists_nil in Hex].
  - unfold _check_campaign_date at 1. rewrite Htmp.
    destruct (Z.leb_spec c.1 first) as [Hle|Hgt]; simpl.
    + split; [intros _; by left | intros _; eauto].
    + rewrite IH by done. rewrite Exists_cons. split; [by right | intros [?|?]; [lia|done]].
Qed.

Lemma initialize_dates_spec agromanagement : ∀ self self',
  initialize_dates self agromanagement = Ok self' →
  campaign_start_dates self'
  = campaign_start_dates self ++ map (fun c => Some c.1) agromanagement
  ∧ _end_date self' = _end_date self
  ∧ _icampaign self' = _icampaign self
  ∧ crop_calendars self' = crop_calendars self
  ∧ timed_event_dispatchers self' = timed_event_dispatchers self
  ∧ state_event_dispatchers self' = state_event_dispatchers self.
Proof.
  induction agromanagement as [|c agro IH]; intros self self'; simpl.
  - intros [= <-]. by rewrite app_nil_r.
  - intros Hi. inv_bind Hi.
    apply check_campaign_date_fields in Ha as (Hd & He & Hi' & Hc & Ht & Hs & _).
    apply IH in Hi as (Hd2 & He2 & Hi2 & Hc2 & Ht2 & Hs2). simpl in *.
    rewrite Hd2, Hd, <- app_assoc. simpl.
    repeat split; congruence.
Qed.

(** C6, at the input where the code departs from it: three fallow campaigns
    starting 2001-01-01, 2003-01-01 and 2002-01-01.  The start dates are not
    strictly increasing, and [initialize] accepts them. *)
Theorem C6_not_sequential_accepted :
  ¬ StronglySorted Z.lt (agro_not_sequential.*1)
  ∧ AgroManager_init agro_not_sequential
    = Ok (mkAgroManager
            [Some (date_ymd 2001 1 1); Some (date_ymd 2003 1 1);
             Some (date_ymd 2002 1 1); None]
            None None [None; None; None] [None; None; None] [None; None; None]
            (Some (date_ymd 2001 1 1)) 0).
Proof.
  split; [|reflexivity].
  intros Hs. simpl in Hs.
  apply StronglySorted_inv in Hs as [Hs _].
  apply StronglySorted_inv in Hs as [_ Hlt].
  apply Forall_cons_1 in Hlt as [Hlt _]. vm_compute in Hlt. discriminate.
Qed.

Lemma check_date_range_lower day start nxt :
  check_date_range day start nxt = true → start <= day.
Proof. unfold check_date_range. destruct nxt; lia. Qed.

Lemma CropCalendar_validate_Ok cc campaign_start next_campaign :
  CropCalendar_validate cc campaign_start next_campaign = Ok tt →
  has_end_date cc
  ∧ ∃ e, CropCalendar_get_end_date cc = Ok (Some e)
         ∧ crop_start_date cc < e ∧ campaign_start <= crop_start_date cc.
Proof.
  unfold CropCalendar_validate, CropCalendar_get_end_date, has_end_date.
  intros Hv. inv_bind Hv. inv_bind Hv.
  assert (Hrange : a0 = false ∧ campaign_start <= crop_start_date cc).
  { destruct a0; [discriminate|]. split; [done|].
    destruct (check_date_range _ _ _) eqn:Hr; [|discriminate].
    by apply check_date_range_lower in Hr. }
  destruct Hrange as [-> Hcs]. clear Hv.
  destruct (crop_end_type cc); simpl in *.
  - split; [done|]. inv_bind Ha. injection Ha as <-. rewrite Ha1.
    injection Ha0 as Hge. eexists. split; [done|]. lia.
  - injection Ha as <-. destruct (crop_end_date cc) as [e|]; [|discriminate].
    injection Ha0 as Hge. split; [eauto|]. eexists. split; [done|]. lia.
  - injection Ha as <-. destruct (crop_end_date cc) as [e|]; [|discriminate].
    injection Ha0 as Hge. split; [eauto|]. eexists. split; [done|]. lia.
Qed.

Lemma TimedEventsDispatcher_init_Ok d t :
  TimedEventsDispatcher_init d = Ok t →
  te_events_table t = te_def_events_table d
  ∧ te_days_with_events t = Counter_of_events (te_events_table t).
Proof.
  unfold TimedEventsDispatcher_init.
  destruct (signals_getattr _); [|discriminate].
  destruct (Counter_multi _); [|discriminate]. by intros [= <-].
Qed.

Lemma TimedEvents_validate_loop_Ok events campaign_start next_campaign :
  TimedEvents_validate_loop events campaign_start next_campaign = Ok tt →
  Forall (fun ev : Z * list (string * pyval) => campaign_start <= ev.1) events.
Proof.
  induction events as [|ev events IH]; simpl; [constructor|].
  destruct (check_date_range _ _ _) eqn:Hr; [|discriminate].
  intros Hl. constructor; [by apply check_date_range_lower in Hr | by apply IH].
Qed.

Lemma build_TimedEventDispatchers_Ok defs : ∀ teds,
  _build_TimedEventDispatchers defs = Ok teds →
  Forall (fun t => te_days_with_events t = Counter_of_events (te_events_table t)) teds.
Proof.
  induction defs as [|d defs IH]; simpl; intros teds Hb.
  - injection Hb as <-. constructor.
  - inv_bind Hb. inv_bind Hb. injection Hb as <-.
    constructor; [by apply TimedEventsDispatcher_init_Ok in Ha as [_ ?] | by apply IH].
Qed.

Lemma validate_TimedEventDispatchers_Ok teds campaign_start next_campaign :
  validate_TimedEventDispatchers teds campaign_start next_campaign = Ok tt →
  Forall (fun t => Forall (fun ev : Z * list (string * pyval) => campaign_start <= ev.1)
                     (te_events_table t)) teds.
Proof.
  induction teds as [|t teds IH]; simpl; [constructor|].
  intros Hv. inv_bind Hv. destruct a. constructor; [|by apply IH].
  by apply TimedEvents_validate_loop_Ok in Ha.
Qed.

(** One pass of the second loop appends one entry to each of the three
    queues; a calendar it appends is validated and the dispatchers are built. *)
Lemma initialize_campaign_spec lo self c campaign_start next_campaign st :
  initialize_campaign self c campaign_start next_campaign = Ok st →
  lo <= campaign_start →
  campaign_start_dates st = campaign_start_dates self
  ∧ _end_date st = _end_date self
  ∧ _icampaign st = _icampaign self
  ∧ ∃ occ oteds oseds,
      crop_calendars st = crop_calendars self ++ [occ]
      ∧ timed_event_dispatchers st = timed_event_dispatchers self ++ [oteds]
      ∧ state_event_dispatchers st = state_event_dispatchers self ++ [oseds]
      ∧ (∀ cc, occ = Some cc → cc_validated lo cc)
      ∧ (∀ teds, oteds = Some teds → Forall (te_built lo) teds).
Proof.
  unfold initialize_campaign. intros Hi Hmin.
  destruct c.2 as [def|].
  2:{ injection Hi as <-. simpl. repeat split; try done.
      exists None, None, None. repeat split; try done. }
  inv_bind_as Hi s1 Hs1. inv_bind_as Hi s2 Hs2.
  assert (Hcc : ∃ occ, s1 = set_crop_calendars self (crop_calendars self ++ [occ])
                       ∧ ∀ cc, occ = Some cc → cc_validated lo cc).
  { destruct (def_CropCalendar def) as [ccd|].
    - inv_bind_as Hs1 u Hu. injection Hs1 as <-. destruct u.
      exists (Some (CropCalendar_init ccd)). split; [done|].
      intros cc [= <-]. apply CropCalendar_validate_Ok in Hu as (Hh & e & He & Hlt & Hcs).
      split; [done|]. exists e. split; [done|]. lia.
    - injection Hs1 as <-. exists None. split; [done|]. by intros cc [=]. }
  destruct Hcc as (occ & -> & Hocc).
  assert (Hte : ∃ oteds, s2 = set_timed_event_dispatchers
                                (set_crop_calendars self (crop_calendars self ++ [occ]))
                                (timed_event_dispatchers self ++ [oteds])
                         ∧ ∀ teds, oteds = Some teds → Forall (te_built lo) teds).
  { destruct (def_TimedEvents def) as [ted|].
    - inv_bind_as Hs2 tds Htds. inv_bind_as Hs2 u Hu. injection Hs2 as <-. destruct u.
      exists (Some tds). split; [done|]. intros teds [= <-].
      apply build_TimedEventDispatchers_Ok in Htds.
      apply validate_TimedEventDispatchers_Ok in Hu.
      apply List.Forall_forall. intros t Ht.
      rewrite List.Forall_forall in Htds, Hu. split; [by apply Htds|].
      eapply List.Forall_impl; [|exact (Hu t Ht)]. simpl. intros ev Hev. lia.
    - injection Hs2 as <-. exists None. split; [done|]. by intros teds [=]. }
  destruct Hte as (oteds & -> & Hoteds).
  assert (Hse : ∃ oseds, st = set_state_event_dispatchers
                                (set_timed_event_dispatchers
                                   (set_crop_calendars self (crop_calendars self ++ [occ]))
                                   (timed_event_dispatchers self ++ [oteds]))
                                (state_event_dispatchers self ++ [oseds])).
  { destruct (def_StateEvents def) as [sed|].
    - inv_bind_as Hi sds Hsds. injection Hi as <-. by eexists.
    - injection Hi as <-. by eexists. }
  destruct Hse as (oseds & ->). simpl. repeat split; try done.
  exists occ, oteds, oseds. done.
Qed.

Lemma initialize_campaigns_spec lo triples : ∀ self st,
  initialize_campaigns self triples = Ok st →
  Forall (fun t : (Z * option campaign_def) * option Z * option Z =>
            ∃ d, t.1.2 = Some d ∧ lo <= d) triples →
  campaign_start_dates st = campaign_start_dates self
  ∧ _end_date st = _end_date self
  ∧ _icampaign st = _icampaign self
  ∧ ∃ occs otes oses,
      crop_calendars st = crop_calendars self ++ occs
      ∧ timed_event_dispatchers st = timed_event_dispatchers self ++ otes
      ∧ state_event_dispatchers st = state_event_dispatchers self ++ oses
      ∧ length occs = length triples
      ∧ length otes = length triples
      ∧ length oses = length triples
      ∧ Forall (fun occ => ∀ cc, occ = Some cc → cc_validated lo cc) occs
      ∧ Forall (fun oteds => ∀ teds, oteds = Some teds → Forall (te_built lo) teds) otes.
Proof.
  induction triples as [|[[c cs] nxt] triples IH]; intros self st; simpl.
  - intros [= <-] _. repeat split; try done.
    exists [], [], []. rewrite !app_nil_r. repeat split; try done; constructor.
  - intros Hi Hall. apply Forall_cons_1 in Hall as [(d & Hd & Hlo) Hall].
    simpl in Hd. subst cs. inv_bind_as Hi s1 Hs1.
    apply (initialize_campaign_spec lo) in Hs1
      as (Hd1 & He1 & Hi1 & occ & ote & ose & Hc1 & Ht1 & Hse1 & Hocc & Hote); [|done].
    apply IH in Hi as (Hd2 & He2 & Hi2 & occs & otes & oses & Hc2 & Ht2 & Hse2
                       & Hl1 & Hl2 & Hl3 & Hoccs & Hotes); [|done].
    repeat split; try congruence.
    exists (occ :: occs), (ote :: otes), (ose :: oses).
    rewrite Hc2, Ht2, Hse2, Hc1, Ht1, Hse1, <- !app_assoc. simpl.
    repeat split; try done; try lia; by constructor.
Qed.

Lemma zip_self_map {A B C} (f : A → B) (l : list A) (k : list C) :
  Forall (fun t : A * B * C => t.1.2 = f t.1.1) (zip (zip l (map f l)) k)
  ∧ length (zip (zip l (map f l)) k) = Nat.min (length l) (length k).
Proof.
  revert k. induction l as [|a l IH]; intros [|c k]; simpl;
    try (split; [constructor|done]).
  destruct (IH k) as [IH1 IH2]. split; [by constructor | by rewrite IH2].
Qed.

Lemma triples_start lo (agromanagement : list (Z * option campaign_def)) :
  Forall (fun c : Z * option campaign_def => lo <= c.1) agromanagement →
  ∀ k : list (option Z),
    Forall (fun t : (Z * option campaign_def) * option Z * option Z =>
              ∃ d, t.1.2 = Some d ∧ lo <= d)
      (zip (zip agromanagement
              (map (fun c : Z * option campaign_def => Some c.1) agromanagement)) k).
Proof.
  induction 1 as [|c agro Hc _ IH]; intros [|x k]; simpl; try constructor.
  - simpl. eauto.
  - apply IH.
Qed.

(** What [AgroManager(kiosk, agromanagement)] returns when it returns: the
    start dates followed by [None], the cursor at 0, no memoized end date,
    and one entry for every campaign in each of the three queues. *)
Lemma AgroManager_init_spec lo agromanagement st :
  AgroManager_init agromanagement = Ok st →
  Forall (fun c : Z * option campaign_def => lo <= c.1) agromanagement →
  campaign_start_dates st = map Some (agromanagement.*1) ++ [None]
  ∧ _end_date st = None
  ∧ _icampaign st = 0%nat
  ∧ length (crop_calendars st) = length agromanagement
  ∧ length (timed_event_dispatchers st) = length agromanagement
  ∧ length (state_event_dispatchers st) = length agromanagement
  ∧ Forall (fun occ => ∀ cc, occ = Some cc → cc_validated lo cc) (crop_calendars st)
  ∧ Forall (fun oteds => ∀ teds, oteds = Some teds → Forall (te_built lo) teds)
      (timed_event_dispatchers st).
Proof.
  unfold AgroManager_init, initialize. intros Hi Hlo.
  inv_bind_as Hi s1 Hs1.
  apply initialize_dates_spec in Hs1 as (Hd & He & Hic & Hc & Ht & Hs). simpl in *.
  set (dates := map (fun c : Z * option campaign_def => Some c.1) agromanagement) in *.
  rewrite Hd in Hi. rewrite removelast_last in Hi.
  destruct (zip_self_map (fun c : Z * option campaign_def => Some c.1) agromanagement
              (tail (dates ++ [None]))) as [Htr Hlen].
  fold dates in Htr, Hlen.
  assert (Hlen' : length (zip (zip agromanagement dates) (tail (dates ++ [None])))
                  = length agromanagement).
  { rewrite Hlen.
    assert (Htl : length (tail (dates ++ [None])) = length agromanagement).
    { unfold dates. rewrite <- (length_map (fun c : Z * option campaign_def => Some c.1)).
      destruct (map _ agromanagement); simpl; [done|].
      rewrite length_app. simpl. lia. }
    rewrite Htl. lia. }
  apply (initialize_campaigns_spec lo) in Hi
    as (Hd2 & He2 & Hi2 & occs & otes & oses & Hc2 & Ht2 & Hse2
        & Hl1 & Hl2 & Hl3 & Hoccs & Hotes).
  - simpl in *. rewrite Hc in Hc2. rewrite Ht in Ht2. rewrite Hs in Hse2.
    simpl in *. rewrite Hd2, He2, Hi2, Hc2, Ht2, Hse2, Hl1, Hl2, Hl3, Hlen'.
    unfold dates. rewrite <- list_fmap_compose.
    repeat split; done.
  - by apply triples_start.
Qed.

(** ** The scheduler: ticks *)

Lemma has_end_date_static (a b : CropCalendar) :
  crop_end_type b = crop_end_type a → crop_end_date b = crop_end_date a →
  has_end_date a → has_end_date b.
Proof. unfold has_end_date. intros -> ->. done. Qed.

(** A calendar that passed validation can always be called. *)
Lemma CropCalendar_call_total self day :
  has_end_date self →
  ∃ self' out, CropCalendar_call self day = Ok (self', out) ∧ has_end_date self'.
Proof.
  intros Hwf. pose proof (CropCalendar_start_static self day) as (_ & Hed & Het & _).
  unfold CropCalendar_call. destruct (CropCalendar_start self day) as [s1 o1].
  simpl in Hed, Het.
  assert (Hwf1 : has_end_date s1) by (by apply (has_end_date_static self)).
  unfold CropCalendar_finish_type.
  destruct (harvest_or_earliest (crop_end_type s1)) eqn:Hhe.
  - destruct (Hwf1 Hhe) as [e He]. rewrite He. simpl.
    destruct (if max_duration s1 <=? duration s1 then _ else _);
      do 2 eexists; (split; [done|]);
      by apply (has_end_date_static s1).
  - simpl. destruct (if max_duration s1 <=? duration s1 then _ else _);
      do 2 eexists; (split; [done|]);
      by apply (has_end_date_static s1).
Qed.

(** The handlers of [__call__] give the tick to the bundle at the head of the
    three queues and to nothing else. *)
Lemma AgroManager_handlers_cons kiosk self day occ ccs ote tes ose ses :
  crop_calendars self = occ :: ccs →
  timed_event_dispatchers self = ote :: tes →
  state_event_dispatchers self = ose :: ses →
  AgroManager_handlers kiosk self day
  = '(occ', ose', out) ← bundle_tick kiosk day occ ote ose;
    Ok (mkAgroManager (campaign_start_dates self) (_start_date self) (_end_date self)
          (occ' :: ccs) (ote :: tes) (ose' :: ses) (_tmp_date self) (_icampaign self),
        out).
Proof.
  intros Hc Ht Hs. destruct self; simpl in *; subst.
  unfold AgroManager_handlers, bundle_tick. simpl.
  destruct occ as [cc|]; simpl.
  - destruct (CropCalendar_call cc day) as [[cc' o]|e]; simpl; [|done].
    destruct ose as [seds|]; simpl; [|done].
    by destruct (StateEventsDispatchers_call kiosk seds day).
  - destruct ose as [seds|]; simpl; [|done].
    by destruct (StateEventsDispatchers_call kiosk seds day).
Qed.

Lemma lookup_start_dates (dates : list Z) (i : nat) :
  (i ≤ length dates)%nat →
  ∃ x, (map Some dates ++ [None]) !! i = Some x
       ∧ (is_Some x → (i < length dates)%nat).
Proof.
  intros Hi. destruct (decide (i < length dates)%nat) as [Hlt|Hge].
  - destruct (lookup_lt_is_Some_2 dates i Hlt) as [d Hd].
    exists (Some d). split; [|done].
    rewrite lookup_app_l by (by rewrite length_map).
    by rewrite list_lookup_fmap, Hd.
  - exists None. split; [|by intros [? [=]]].
    rewrite lookup_app_r by (rewrite length_map; lia).
    rewrite length_map. by replace (i - length dates)%nat with 0%nat by lia.
Qed.

Lemma date_eq_is_Some day x : date_eq day x = true → x = Some day.
Proof. destruct x as [d|]; simpl; [|done]. intros ?%Z.eqb_eq. by subst. Qed.

(** The switch raises nothing and preserves the invariant; it pops only when
    the cursor can still advance. *)
Lemma AgroManager_switch_inv n self day :
  scheduler_inv n self →
  ∃ s1, AgroManager_switch self day = Ok s1 ∧ scheduler_inv n s1.
Proof.
  intros Hinv. pose proof Hinv as ((dates & Hd & Hn) & Hic & Hlc & Hlt & Hls & Hwf).
  unfold AgroManager_switch, py_index.
  destruct (lookup_start_dates dates (_icampaign self + 1)) as (nxt & Hnxt & Hsome);
    [lia|].
  rewrite <- Hd in Hnxt. rewrite Hnxt. simpl.
  destruct (date_eq day nxt) eqn:Heq; [|by exists self].
  apply date_eq_is_Some in Heq. subst nxt.
  assert (_icampaign self + 1 < n)%nat by (rewrite <- Hn; eauto).
  destruct (crop_calendars self) as [|occ ccs]; simpl in *; [lia|].
  destruct (timed_event_dispatchers self) as [|ote tes]; simpl in *; [lia|].
  destruct (state_event_dispatchers self) as [|ose ses]; simpl in *; [lia|].
  eexists. split; [done|]. unfold scheduler_inv. simpl.
  apply Forall_cons_1 in Hwf as [_ Hwf].
  repeat split; eauto; lia.
Qed.

(** The handlers raise nothing and preserve the invariant. *)
Lemma AgroManager_handlers_inv n kiosk s1 day :
  scheduler_inv n s1 →
  ∃ self' out, AgroManager_handlers kiosk s1 day = Ok (self', out)
               ∧ scheduler_inv n self'.
Proof.
  intros ((dates1 & Hd1 & Hn1) & Hic1 & Hlc1 & Hlt1 & Hls1 & Hwf1).
  destruct (crop_calendars s1) as [|occ ccs] eqn:Hc; simpl in *; [lia|].
  destruct (timed_event_dispatchers s1) as [|ote tes] eqn:Ht; simpl in *; [lia|].
  destruct (state_event_dispatchers s1) as [|ose ses] eqn:Hs; simpl in *; [lia|].
  rewrite (AgroManager_handlers_cons kiosk s1 day _ _ _ _ _ _ Hc Ht Hs).
  apply Forall_cons_1 in Hwf1 as [Hocc Hwf1].
  assert (Hb : ∃ occ' ose' out, bundle_tick kiosk day occ ote ose = Ok (occ', ose', out)
                                ∧ ∀ cc, occ' = Some cc → has_end_date cc).
  { unfold bundle_tick. destruct occ as [cc|]; simpl.
    - destruct (CropCalendar_call_total cc day (Hocc cc eq_refl)) as (cc' & o & -> & Hcc').
      simpl. destruct ose as [seds|]; simpl.
      + destruct (StateEventsDispatchers_call kiosk seds day).
        do 3 eexists. split; [done|]. by intros ? [= <-].
      + do 3 eexists. split; [done|]. by intros ? [= <-].
    - destruct ose as [seds|]; simpl.
      + destruct (StateEventsDispatchers_call kiosk seds day).
        do 3 eexists. split; [done|]. by intros ? [=].
      + do 3 eexists. split; [done|]. by intros ? [=]. }
  destruct Hb as (occ' & ose' & out & -> & Hocc'). simpl.
  do 2 eexists. split; [done|]. unfold scheduler_inv. simpl.
  repeat split; eauto.
Qed.

(** One call preserves the invariant and raises nothing. *)
Lemma AgroManager_call_inv n kiosk self day :
  scheduler_inv n self →
  ∃ self' out, AgroManager_call kiosk self day = Ok (self', out)
               ∧ scheduler_inv n self'.
Proof.
  intros Hinv. unfold AgroManager_call.
  destruct (AgroManager_switch_inv n self day Hinv) as (s1 & -> & Hinv1). simpl.
  by apply AgroManager_handlers_inv.
Qed.

Lemma AgroManager_step_inv n self ev :
  scheduler_inv n self →
  ∃ self' out, AgroManager_step self ev = Ok (self', out) ∧ scheduler_inv n self'.
Proof.
  intros Hinv. destruct ev as [kiosk day|]; simpl.
  - by apply AgroManager_call_inv.
  - destruct Hinv as (Hd & Hic & Hlc & Hlt & Hls & Hwf).
    unfold AgroManager_on_CROP_FINISH.
    destruct (crop_calendars self) as [|occ ccs] eqn:Hc; simpl in *; [lia|].
    do 2 eexists. split; [done|]. unfold scheduler_inv. simpl.
    rewrite length_map. repeat split; try done.
    apply Forall_cons_1 in Hwf as [Hocc Hwf]. constructor.
    + destruct occ as [cc|]; simpl; [|by intros ? [=]].
      intros ? [= <-]. by apply (has_end_date_static cc), Hocc.
    + apply Forall_fmap. eapply List.Forall_impl; [|exact Hwf].
      intros [cc|] Hcc; simpl; [|by intros ? [=]].
      intros ? [= <-]. by apply (has_end_date_static cc), Hcc.
Qed.

(** Every run of a scheduler that satisfies the invariant returns, and the
    invariant holds at its end. *)
Lemma AgroManager_run_inv n evs : ∀ self,
  scheduler_inv n self →
  ∃ self' out, AgroManager_run self evs = Ok (self', out) ∧ scheduler_inv n self'.
Proof.
  induction evs as [|ev evs IH]; intros self Hinv; simpl.
  - by do 2 eexists.
  - destruct (AgroManager_step_inv n self ev Hinv) as (s1 & o1 & -> & Hinv1). simpl.
    destruct (IH s1 Hinv1) as (s2 & o2 & -> & Hinv2). simpl.
    by do 2 eexists.
Qed.

Lemma exists_lower_bound {X} (l : list (Z * X)) :
  ∃ lo, Forall (fun c : Z * X => lo <= c.1) l.
Proof.
  induction l as [|c l [lo IH]]; [exists 0; constructor|].
  exists (Z.min c.1 lo). constructor; [lia|].
  eapply List.Forall_impl; [|exact IH]. simpl. intros; lia.
Qed.

(** A scheduler initialized with at least one campaign satisfies the
    invariant. *)
Lemma AgroManager_init_inv agromanagement st :
  AgroManager_init agromanagement = Ok st →
  agromanagement ≠ [] →
  scheduler_inv (length agromanagement) st.
Proof.
  intros Hi Hne. destruct (exists_lower_bound agromanagement) as [lo Hlo].
  apply (AgroManager_init_spec lo) in Hi as (Hd & _ & Hic & Hlc & Hlt & Hls & Hcc & _);
    [|done].
  unfold scheduler_inv. rewrite Hic, Nat.sub_0_r.
  repeat split; try done.
  - exists (agromanagement.*1). split; [done|]. by rewrite length_fmap.
  - destruct agromanagement; [done|]. simpl. lia.
  - eapply List.Forall_impl; [|exact Hcc]. intros occ Hocc cc Heq.
    by destruct (Hocc cc Heq).
Qed.

Lemma scheduler_inv_bounds n self :
  scheduler_inv n self →
  crop_calendars self ≠ []
  ∧ timed_event_dispatchers self ≠ []
  ∧ state_event_dispatchers self ≠ []
  ∧ (_icampaign self ≤ n - 1)%nat
  ∧ (_icampaign self + 1 < length (campaign_start_dates self))%nat
  ∧ list.last (campaign_start_dates self) = Some None
  ∧ length (crop_calendars self) = (n - _icampaign self)%nat.
Proof.
  intros ((dates & Hd & Hn) & Hic & Hlc & Hlt & Hls & _).
  rewrite Hd, last_snoc, length_app, length_map. simpl.
  repeat split; try lia; try done.
  - intros E. rewrite E in Hlc. simpl in Hlc. lia.
  - intros E. rewrite E in Hlt. simpl in Hlt. lia.
  - intros E. rewrite E in Hls. simpl in Hls. lia.
Qed.

(** C10. For a scheduler initialized with at least one campaign and every
    sequence of calls (with any days and any kiosk contents, and with
    crop-finish signals delivered at any point in between): [None], the last
    of the start dates, equals no day; every call returns, so no index is
    out of range; and in the state that is reached the three queues are not
    empty, the cursor has advanced (and the head bundle was popped) at most
    [N - 1] times, and [_icampaign + 1] is an index of
    [campaign_start_dates]. *)
Theorem C10_queues_never_empty
    (agromanagement : list (Z * option campaign_def)) (st : AgroManager)
    (evs : list am_event) :
  AgroManager_init agromanagement = Ok st →
  (1 ≤ length agromanagement)%nat →
  (∀ day, date_eq day None = false)
  ∧ ∃ st' out,
      AgroManager_run st evs = Ok (st', out)
      ∧ crop_calendars st' ≠ []
      ∧ timed_event_dispatchers st' ≠ []
      ∧ state_event_dispatchers st' ≠ []
      ∧ (_icampaign st' ≤ length agromanagement - 1)%nat
      ∧ (_icampaign st' + 1 < length (campaign_start_dates st'))%nat
      ∧ list.last (campaign_start_dates st') = Some None
      ∧ length (crop_calendars st') = (length agromanagement - _icampaign st')%nat.
Proof.
  intros Hinit Hlen. split; [done|].
  assert (Hne : agromanagement ≠ []) by (intros ->; simpl in Hlen; lia).
  pose proof (AgroManager_init_inv _ _ Hinit Hne) as Hinv.
  destruct (AgroManager_run_inv _ evs st Hinv) as (st' & out & Hrun & Hinv').
  exists st', out. split; [done|]. by apply scheduler_inv_bounds.
Qed.

(** The two campaigns of the example: ticks before, at and after the start
    of the second campaign, and a crop-finish signal on the bus. *)
Lemma C10_witness :
  (1 ≤ length agro_example)%nat
  ∧ ∃ st st' out,
      AgroManager_init agro_example = Ok st
      ∧ AgroManager_run st [Tick ∅ (date_ymd 2001 3 1); CropFinishDelivered;
                            Tick ∅ (date_ymd 2002 1 1); Tick ∅ (date_ymd 2002 1 2)]
        = Ok (st', out)
      ∧ crop_calendars st' ≠ [].
Proof.
  assert (Hlen : (1 ≤ length agro_example)%nat) by (simpl; lia).
  split; [exact Hlen|].
  destruct (AgroManager_init agro_example) as [st|e] eqn:Hinit; [|discriminate Hinit].
  destruct (C10_queues_never_empty agro_example st
              [Tick ∅ (date_ymd 2001 3 1); CropFinishDelivered;
               Tick ∅ (date_ymd 2002 1 1); Tick ∅ (date_ymd 2002 1 2)] Hinit Hlen)
    as (_ & st' & out & Hrun & Hcc & _).
  exists st, st', out. split; [reflexivity|]. split; assumption.
Defined.

(** C2, where the code departs from it.  In every state that a scheduler
    initialized with at least one campaign can reach, the queue of crop
    calendars is not empty, so [_on_CROP_FINISH], the only place where the
    terminate signal is sent, returns without sending anything. *)
Theorem C2_terminate_never_sent
    (agromanagement : list (Z * option campaign_def)) (st : AgroManager)
    (evs : list am_event) (st' : AgroManager) (out : list effect) :
  AgroManager_init agromanagement = Ok st →
  agromanagement ≠ [] →
  AgroManager_run st evs = Ok (st', out) →
  crop_calendars st' ≠ [] ∧ AgroManager_on_CROP_FINISH st' = Ok [].
Proof.
  intros Hinit Hne Hrun.
  pose proof (AgroManager_init_inv _ _ Hinit Hne) as Hinv.
  destruct (AgroManager_run_inv _ evs st Hinv) as (st2 & out2 & Hrun2 & Hinv2).
  rewrite Hrun in Hrun2. injection Hrun2 as <- <-.
  destruct (scheduler_inv_bounds _ _ Hinv2) as (Hcc & _).
  split; [done|]. unfold AgroManager_on_CROP_FINISH.
  by destruct (crop_calendars st').
Qed.

Lemma C2_witness :
  agro_example ≠ []
  ∧ ∃ st st' out,
      AgroManager_init agro_example = Ok st
      ∧ AgroManager_run st [Tick ∅ (date_ymd 2001 3 1); Tick ∅ (date_ymd 2002 1 1);
                            CropFinishDelivered] = Ok (st', out)
      ∧ _icampaign st' = 1%nat
      ∧ AgroManager_on_CROP_FINISH st' = Ok [].
Proof.
  assert (Hne : agro_example ≠ []) by discriminate.
  split; [exact Hne|].
  destruct (AgroManager_init agro_example) as [st|e] eqn:Hinit; [|discriminate Hinit].
  destruct (AgroManager_run st [Tick ∅ (date_ymd 2001 3 1); Tick ∅ (date_ymd 2002 1 1);
                                CropFinishDelivered])
    as [[st' out]|e] eqn:Hrun.
  - exists st, st', out. split; [reflexivity|]. split; [exact Hrun|].
    split.
    + injection Hinit as <-. injection Hrun as <- _. reflexivity.
    + exact (proj2 (C2_terminate_never_sent agro_example st _ st' out Hinit Hne Hrun)).
  - injection Hinit as <-. discriminate Hrun.
Defined.

(** C8. In every state that an initialized scheduler can reach, a call for
    the day that is the start date of the upcoming campaign drops the bundle
    at the head of the queues before any handler runs and gives the tick to
    the bundle of the new campaign alone: the result of the call is the
    result of that bundle receiving the tick, and neither the effects nor the
    state after the call depend on the retired calendar and dispatchers. *)
Theorem C8_retired_bundle_gets_no_tick
    (agromanagement : list (Z * option campaign_def)) (st : AgroManager)
    (evs : list am_event) (st1 : AgroManager) (out1 : list effect)
    (kiosk : gmap string pynum) (day : date) :
  AgroManager_init agromanagement = Ok st →
  agromanagement ≠ [] →
  AgroManager_run st evs = Ok (st1, out1) →
  campaign_start_dates st1 !! (_icampaign st1 + 1)%nat = Some (Some day) →
  ∃ occ0 ote0 ose0 occ1 ote1 ose1 ccs tes ses,
    crop_calendars st1 = occ0 :: occ1 :: ccs
    ∧ timed_event_dispatchers st1 = ote0 :: ote1 :: tes
    ∧ state_event_dispatchers st1 = ose0 :: ose1 :: ses
    ∧ AgroManager_call kiosk st1 day
      = '(occ1', ose1', out) ← bundle_tick kiosk day occ1 ote1 ose1;
        Ok (mkAgroManager (campaign_start_dates st1) (_start_date st1) (_end_date st1)
              (occ1' :: ccs) (ote1 :: tes) (ose1' :: ses) (_tmp_date st1)
              (_icampaign st1 + 1),
            out).
Proof.
  intros Hinit Hne Hrun Hnext.
  pose proof (AgroManager_init_inv _ _ Hinit Hne) as Hinv.
  destruct (AgroManager_run_inv _ evs st Hinv) as (st2 & out2 & Hrun2 & Hinv2).
  rewrite Hrun in Hrun2. injection Hrun2 as <- <-.
  destruct Hinv2 as ((dates & Hd & Hn) & Hic & Hlc & Hlt & Hls & _).
  destruct (lookup_start_dates dates (_icampaign st1 + 1)) as (nxt & Hnxt & Hsome);
    [lia|].
  rewrite <- Hd, Hnext in Hnxt. injection Hnxt as <-.
  assert (Hlt2 : (_icampaign st1 + 1 < length agromanagement)%nat)
    by (rewrite <- Hn; eauto).
  destruct (crop_calendars st1) as [|occ0 [|occ1 ccs]] eqn:Hc; simpl in *; try lia.
  destruct (timed_event_dispatchers st1) as [|ote0 [|ote1 tes]] eqn:Ht;
    simpl in *; try lia.
  destruct (state_event_dispatchers st1) as [|ose0 [|ose1 ses]] eqn:Hs;
    simpl in *; try lia.
  exists occ0, ote0, ose0, occ1, ote1, ose1, ccs, tes, ses.
  repeat split.
  unfold AgroManager_call, AgroManager_switch, py_index.
  rewrite Hnext. simpl. rewrite Z.eqb_refl, Hc, Ht, Hs. simpl.
  by rewrite (AgroManager_handlers_cons kiosk _ day occ1 ccs ote1 tes ose1 ses).
Qed.

Lemma C8_witness :
  agro_example ≠ []
  ∧ ∃ st st1 out1 st2,
      AgroManager_init agro_example = Ok st
      ∧ AgroManager_run st [Tick ∅ (date_ymd 2001 3 1); Tick ∅ (date_ymd 2001 3 2)]
        = Ok (st1, out1)
      ∧ campaign_start_dates st1 !! (_icampaign st1 + 1)%nat
        = Some (Some (date_ymd 2002 1 1))
      ∧ AgroManager_call ∅ st1 (date_ymd 2002 1 1) = Ok (st2, [])
      ∧ crop_calendars st2 = [None].
Proof.
  assert (Hne : agro_example ≠ []) by discriminate.
  split; [exact Hne|].
  destruct (AgroManager_init agro_example) as [st|e] eqn:Hinit; [|discriminate Hinit].
  destruct (AgroManager_run st [Tick ∅ (date_ymd 2001 3 1); Tick ∅ (date_ymd 2001 3 2)])
    as [[st1 out1]|e] eqn:Hrun.
  2:{ injection Hinit as <-. discriminate Hrun. }
  assert (Hnext : campaign_start_dates st1 !! (_icampaign st1 + 1)%nat
                  = Some (Some (date_ymd 2002 1 1))).
  { injection Hinit as <-. injection Hrun as <- _. reflexivity. }
  destruct (C8_retired_bundle_gets_no_tick agro_example st _ st1 out1 ∅
              (date_ymd 2002 1 1) Hinit Hne Hrun Hnext)
    as (occ0 & ote0 & ose0 & occ1 & ote1 & ose1 & ccs & tes & ses
        & Hc & Ht & Hs & Hcall).
  injection Hinit as <-. injection Hrun as <- <-.
  injection Hc as <- <- <-. injection Ht as <- <- <-. injection Hs as <- <- <-.
  eexists _, _, _, _. split; [reflexivity|]. split; [reflexivity|].
  split; [reflexivity|]. split; [exact Hcall|]. reflexivity.
Defined.

(** ** The scheduler: the end date *)

Lemma key_count_elem_of `{EqDecision K} (k : K) (keys : list K) :
  key_count k keys ≠ 0%nat ↔ k ∈ keys.
Proof.
  induction keys as [|k0 keys IH]; [by rewrite elem_of_nil|].
  rewrite key_count_cons, elem_of_cons.
  destruct (decide (k0 = k)) as [->|Hne]; simpl.
  - split; [by left | lia].
  - rewrite IH. split; [by right | intros [?|?]; [congruence|done]].
Qed.

Lemma elem_of_Counter_keys (tbl : list (Z * list (string * pyval))) (k : Z) :
  k ∈ (map_to_list (Counter_of_events tbl)).*1 ↔ k ∈ tbl.*1.
Proof.
  rewrite <- (key_count_elem_of k (tbl.*1)), list_elem_of_fmap. split.
  - intros ([k' n] & -> & Hin). apply elem_of_map_to_list in Hin.
    rewrite Counter_of_events_lookup in Hin. simpl in *.
    by destruct (decide (key_count k' (tbl.*1) = 0%nat)).
  - intros Hn. exists (k, key_count k (tbl.*1)). split; [done|].
    apply elem_of_map_to_list. rewrite Counter_of_events_lookup. simpl.
    by destruct (decide (key_count k (tbl.*1) = 0%nat)).
Qed.

Lemma foldl_max_spec (ks : list Z) : ∀ k,
  foldl Z.max k ks ∈ k :: ks ∧ ∀ x, x ∈ k :: ks → x <= foldl Z.max k ks.
Proof.
  induction ks as [|k1 ks IH]; intros k; simpl.
  - split; [by left|]. intros x Hx. apply (proj1 (list_elem_of_singleton _ _)) in Hx. lia.
  - destruct (IH (Z.max k k1)) as [Hin Hmax]. split.
    + apply (proj1 (elem_of_cons _ _ _)) in Hin as [Heq|Hin]; [|by do 2 right].
      rewrite Heq. destruct (Z.max_spec k k1) as [[_ ->]|[_ ->]]; [right|]; by left.
    + intros x Hx. apply (proj1 (elem_of_cons _ _ _)) in Hx as [->|Hx].
      * specialize (Hmax (Z.max k k1) ltac:(by left)). lia.
      * apply (proj1 (elem_of_cons _ _ _)) in Hx as [->|Hx].
        -- specialize (Hmax (Z.max k k1) ltac:(by left)). lia.
        -- apply Hmax. by right.
Qed.

(** [get_end_date] of a dispatcher returns the latest day of its table. *)
Lemma TimedEventsDispatcher_get_end_date_Ok lo t m :
  te_built lo t →
  TimedEventsDispatcher_get_end_date t = Ok m →
  m ∈ table_days t ∧ (∀ d, d ∈ table_days t → d <= m) ∧ lo <= m.
Proof.
  intros [Hc Hlo]. unfold TimedEventsDispatcher_get_end_date, py_max_keys, table_days.
  rewrite Hc. destruct ((map_to_list _).*1) as [|k ks] eqn:Hk; [discriminate|].
  intros [= <-]. destruct (foldl_max_spec ks k) as [Hin Hmax].
  rewrite <- Hk in Hin, Hmax.
  assert (Hm : foldl Z.max k ks ∈ (te_events_table t).*1)
    by (by apply elem_of_Counter_keys).
  split; [done|]. split.
  - intros d Hd. by apply Hmax, elem_of_Counter_keys.
  - apply list_elem_of_fmap in Hm as (ev & -> & Hev).
    rewrite List.Forall_forall in Hlo. apply Hlo. by apply list_elem_of_In.
Qed.

(** It raises, a [ValueError], exactly when the table has no entry. *)
Lemma TimedEventsDispatcher_get_end_date_total lo t :
  te_built lo t → te_events_table t ≠ [] →
  ∃ m, TimedEventsDispatcher_get_end_date t = Ok m.
Proof.
  intros [Hc _] Hne. unfold TimedEventsDispatcher_get_end_date, py_max_keys.
  rewrite Hc. destruct ((map_to_list _).*1) as [|k ks] eqn:Hk; [|by eexists].
  destruct (te_events_table t) as [|ev tbl]; [done|].
  assert (Hin : ev.1 ∈ (map_to_list (Counter_of_events (ev :: tbl))).*1)
    by (apply elem_of_Counter_keys; by left).
  rewrite Hk in Hin. by apply elem_of_nil in Hin.
Qed.

Lemma TimedEventsDispatcher_get_end_date_Raise t e :
  TimedEventsDispatcher_get_end_date t = Raise e → e = ValueError.
Proof.
  unfold TimedEventsDispatcher_get_end_date, py_max_keys.
  destruct ((map_to_list _).*1); [by intros [= <-] | discriminate].
Qed.

Lemma te_end_dates_Ok lo teds : ∀ ds,
  Forall (te_built lo) teds →
  te_end_dates teds = Ok ds →
  ∃ ms, ds = map Some ms
        ∧ Forall2 (fun t m => m ∈ table_days t ∧ ∀ d, d ∈ table_days t → d <= m) teds ms
        ∧ Forall (fun m => lo <= m) ms.
Proof.
  induction teds as [|t teds IH]; intros ds Hb; simpl.
  - intros [= <-]. exists []. repeat split; constructor.
  - apply Forall_cons_1 in Hb as [Hbt Hb]. intros He.
    inv_bind_as He m Hm. inv_bind_as He ds' Hds'. injection He as <-.
    destruct (IH ds' Hb Hds') as (ms & -> & Hrel & Hlo).
    destruct (TimedEventsDispatcher_get_end_date_Ok lo t m Hbt Hm) as (H1 & H2 & H3).
    exists (m :: ms). repeat split; by constructor.
Qed.

Lemma te_end_dates_total lo teds :
  Forall (te_built lo) teds →
  Forall (fun t => te_events_table t ≠ []) teds →
  ∃ ds, te_end_dates teds = Ok ds.
Proof.
  induction teds as [|t teds IH]; intros Hb Hne; simpl; [by eexists|].
  apply Forall_cons_1 in Hb as [Hbt Hb]. apply Forall_cons_1 in Hne as [Hnet Hne].
  destruct (TimedEventsDispatcher_get_end_date_total lo t Hbt Hnet) as [m ->].
  destruct (IH Hb Hne) as [ds ->]. simpl. by eexists.
Qed.

Lemma te_end_dates_Raise teds e :
  te_end_dates teds = Raise e → e = ValueError ∧ teds ≠ [].
Proof.
  induction teds as [|t teds IH]; simpl; [discriminate|].
  destruct (TimedEventsDispatcher_get_end_date t) as [m|e'] eqn:Hm; simpl.
  - destruct (te_end_dates teds) as [ds|e'']; simpl; [discriminate|].
    intros [= <-]. by destruct IH.
  - intros [= <-]. by apply TimedEventsDispatcher_get_end_date_Raise in Hm.
Qed.

Lemma end_date_loop_Ok lo pairs :
  Forall (pair_ok lo) pairs →
  ∀ ca ta r,
    end_date_loop pairs ca ta = Ok r →
    ∃ cds tds,
      r = (ca ++ map Some cds, ta ++ map Some tds)
      ∧ Forall2 (fun cc d => CropCalendar_get_end_date cc = Ok (Some d))
          (omap fst pairs) cds
      ∧ Forall2 (fun t m => m ∈ table_days t ∧ ∀ d, d ∈ table_days t → d <= m)
          (concat (omap snd pairs)) tds
      ∧ Forall (fun d => lo <= d) cds
      ∧ Forall (fun d => lo <= d) tds.
Proof.
  induction 1 as [|[occ oteds] pairs [Hcc Hte] _ IH]; intros ca ta r; simpl.
  - intros [= <-]. exists [], []. rewrite !app_nil_r. repeat split; constructor.
  - intros Hl. inv_bind_as Hl ca' Hca. inv_bind_as Hl ta' Hta.
    destruct (IH _ _ _ Hl) as (cds & tds & -> & Hc2 & Ht2 & Hlc & Hlt). clear IH Hl.
    assert (Hca' : ∃ cd, ca' = ca ++ map Some cd
                         ∧ Forall2 (fun cc d => CropCalendar_get_end_date cc = Ok (Some d))
                             (omap fst ((occ, oteds) :: pairs)) (cd ++ cds)
                         ∧ Forall (fun d => lo <= d) (cd ++ cds)).
    { destruct occ as [cc|]; simpl in *.
      - destruct (Hcc cc eq_refl) as (_ & e & He & Hlo). rewrite He in Hca.
        injection Hca as <-. exists [e]. repeat split; by constructor.
      - injection Hca as <-. exists []. rewrite app_nil_r. done. }
    destruct Hca' as (cd & -> & Hc3 & Hlc3).
    assert (Hta' : ∃ td, ta' = ta ++ map Some td
                         ∧ Forall2 (fun t m => m ∈ table_days t
                                               ∧ ∀ d, d ∈ table_days t → d <= m)
                             (concat (omap snd ((occ, oteds) :: pairs))) (td ++ tds)
                         ∧ Forall (fun d => lo <= d) (td ++ tds)).
    { destruct oteds as [teds|]; simpl in *.
      - inv_bind_as Hta ds Hds. injection Hta as <-.
        destruct (te_end_dates_Ok lo teds ds (Hte teds eq_refl) Hds) as (ms & -> & Hrel & Hlo).
        exists ms. split; [done|]. split; [by apply Forall2_app | by apply Forall_app].
      - injection Hta as <-. exists []. rewrite app_nil_r. done. }
    destruct Hta' as (td & -> & Ht3 & Hlt3).
    exists (cd ++ cds), (td ++ tds). rewrite !map_app, !app_assoc. done.
Qed.

Lemma end_date_loop_total lo pairs :
  Forall (pair_ok lo) pairs →
  Forall (fun t => te_events_table t ≠ []) (concat (omap snd pairs)) →
  ∀ ca ta, ∃ r, end_date_loop pairs ca ta = Ok r.
Proof.
  induction 1 as [|[occ oteds] pairs [Hcc Hte] _ IH]; intros Hne ca ta; simpl;
    [by eexists|].
  assert (Hc : ∃ ca', (match occ with
                       | Some cc => d ← CropCalendar_get_end_date cc; Ok (ca ++ [d])
                       | None => Ok ca
                       end) = Ok ca').
  { destruct occ as [cc|]; [|by eexists].
    destruct (Hcc cc eq_refl) as (_ & e & -> & _). by eexists. }
  destruct Hc as [ca' ->]. simpl.
  destruct oteds as [teds|]; simpl in *.
  - apply Forall_app in Hne as [Hne1 Hne2].
    destruct (te_end_dates_total lo teds (Hte teds eq_refl) Hne1) as [ds ->]. simpl.
    by apply IH.
  - by apply IH.
Qed.

Lemma end_date_loop_Raise lo pairs :
  Forall (pair_ok lo) pairs →
  ∀ ca ta e,
    end_date_loop pairs ca ta = Raise e →
    e = ValueError ∧ concat (omap snd pairs) ≠ [].
Proof.
  induction 1 as [|[occ oteds] pairs [Hcc Hte] _ IH]; intros ca ta e; simpl;
    [discriminate|].
  assert (Hc : ∃ ca', (match occ with
                       | Some cc => d ← CropCalendar_get_end_date cc; Ok (ca ++ [d])
                       | None => Ok ca
                       end) = Ok ca').
  { destruct occ as [cc|]; [|by eexists].
    destruct (Hcc cc eq_refl) as (_ & d & -> & _). by eexists. }
  destruct Hc as [ca' ->]. simpl.
  destruct oteds as [teds|]; simpl in *.
  - destruct (te_end_dates teds) as [ds|e'] eqn:Hds; simpl.
    + intros Hl. destruct (IH _ _ _ Hl) as [-> Hne]. split; [done|].
      intros Happ. apply app_eq_nil in Happ as [_ ?]. done.
    + intros [= <-]. apply te_end_dates_Raise in Hds as [-> Hne]. split; [done|].
      intros Happ. apply app_eq_nil in Happ as [? _]. done.
  - apply IH.
Qed.

Lemma py_max_from_Some (l : list Z) : ∀ m0,
  py_max_from (Some m0) (map Some l) = Ok (Some (foldl Z.max m0 l)).
Proof.
  induction l as [|x l IH]; intros m0; simpl; [done|].
  destruct (Z.ltb_spec m0 x).
  - rewrite IH. by rewrite Z.max_r by lia.
  - rewrite IH. by rewrite Z.max_l by lia.
Qed.

Lemma py_max_Some (l : list Z) :
  l ≠ [] →
  ∃ m, py_max (map Some l) = Ok (Some m) ∧ m ∈ l ∧ ∀ x, x ∈ l → x <= m.
Proof.
  destruct l as [|x l]; [done|]. intros _. simpl. rewrite py_max_from_Some.
  eexists. split; [done|]. apply foldl_max_spec.
Qed.

Lemma py_max_pair (a b : Z) : py_max [Some a; Some b] = Ok (Some (Z.max a b)).
Proof. apply (py_max_from_Some [b] a). Qed.

(** The end date computed from the collected dates is their maximum. *)
Lemma AgroManager_end_date_value self cds tds :
  _end_date self = None →
  end_date_loop (zip (crop_calendars self) (timed_event_dispatchers self)) [] []
  = Ok (map Some cds, map Some tds) →
  Forall (fun d => date_min <= d) (cds ++ tds) →
  cds ++ tds ≠ [] →
  ∃ m, AgroManager_end_date self = Ok (set_end_date self (Some m), m)
       ∧ m ∈ cds ++ tds ∧ ∀ x, x ∈ cds ++ tds → x <= m.
Proof.
  intros Hnone Hloop Hlo Hne. unfold AgroManager_end_date. rewrite Hnone, Hloop.
  apply Forall_app in Hlo as [Hloc Hlot].
  destruct cds as [|c cds]; destruct tds as [|t tds]; [done|..].
  - destruct (py_max_Some (t :: tds)) as (mt & Hmt & Hin & Hmax); [done|].
    simpl map. cbn [mbind Res_bind]. cbn [map] in Hmt. rewrite Hmt. cbn [mbind Res_bind].
    rewrite py_max_pair. cbn [mbind Res_bind].
    assert (date_min <= mt).
    { rewrite List.Forall_forall in Hlot. apply Hlot. by apply list_elem_of_In. }
    rewrite Z.max_l by done. eauto.
  - destruct (py_max_Some (c :: cds)) as (mc & Hmc & Hin & Hmax); [done|].
    simpl map. cbn [mbind Res_bind]. cbn [map] in Hmc. rewrite Hmc. cbn [mbind Res_bind].
    rewrite py_max_pair. cbn [mbind Res_bind].
    assert (date_min <= mc).
    { rewrite List.Forall_forall in Hloc. apply Hloc. by apply list_elem_of_In. }
    rewrite Z.max_l by done. rewrite app_nil_r. eauto.
  - destruct (py_max_Some (c :: cds)) as (mc & Hmc & Hinc & Hmaxc); [done|].
    destruct (py_max_Some (t :: tds)) as (mt & Hmt & Hint & Hmaxt); [done|].
    simpl map. cbn [mbind Res_bind]. cbn [map] in Hmc. rewrite Hmc. cbn [mbind Res_bind].
    rewrite py_max_pair. cbn [mbind Res_bind]. cbn [map] in Hmt. rewrite Hmt. cbn [mbind Res_bind].
    rewrite py_max_pair. cbn [mbind Res_bind].
    assert (date_min <= mc).
    { rewrite List.Forall_forall in Hloc. apply Hloc. by apply list_elem_of_In. }
    rewrite (Z.max_l mc date_min) by done.
    eexists. split; [done|]. split.
    + apply elem_of_app. destruct (Z.max_spec mt mc) as [[_ ->]|[_ ->]]; auto.
    + intros x Hx. apply elem_of_app in Hx as [Hx|Hx].
      * specialize (Hmaxc x Hx). lia.
      * specialize (Hmaxt x Hx). lia.
Qed.

Lemma Forall_zip_pair {A B} (P : A → Prop) (Q : B → Prop) (l : list A) (k : list B) :
  Forall P l → Forall Q k → Forall (fun p => P p.1 ∧ Q p.2) (zip l k).
Proof.
  intros Hl. revert k. induction Hl as [|a l Ha _ IH]; intros k Hk; [constructor|].
  destruct Hk as [|b k Hb Hk]; simpl; [constructor|]. constructor; [done|by apply IH].
Qed.

Lemma omap_zip_same_length {A B} (l : list (option A)) (k : list (option (list B))) :
  length l = length k →
  omap fst (zip l k) = omap id l ∧ concat (omap snd (zip l k)) = concat (omap id k).
Proof.
  revert k. induction l as [|a l IH]; intros [|b k] Hlen; simpl in *; try done.
  destruct (IH k ltac:(lia)) as [IH1 IH2].
  split.
  - destruct a; simpl; [f_equal|]; exact IH1.
  - destruct b; simpl; [f_equal|]; exact IH2.
Qed.

Lemma Forall2_elem_of_l {A B} (R : A → B → Prop) l k x :
  Forall2 R l k → x ∈ l → ∃ y, y ∈ k ∧ R x y.
Proof.
  induction 1 as [|a b l k Hab _ IH]; intros Hx; [by apply elem_of_nil in Hx|].
  apply (proj1 (elem_of_cons _ _ _)) in Hx as [->|Hx].
  - exists b. split; [by left|done].
  - destruct (IH Hx) as (y & Hy & HR). exists y. split; [by right|done].
Qed.

Lemma Forall2_elem_of_r {A B} (R : A → B → Prop) l k y :
  Forall2 R l k → y ∈ k → ∃ x, x ∈ l ∧ R x y.
Proof.
  induction 1 as [|a b l k Hab _ IH]; intros Hy; [by apply elem_of_nil in Hy|].
  apply (proj1 (elem_of_cons _ _ _)) in Hy as [->|Hy].
  - exists a. split; [by left|done].
  - destruct (IH Hy) as (x & Hx & HR). exists x. split; [by right|done].
Qed.

Lemma AgroManager_init_pairs agromanagement st :
  AgroManager_init agromanagement = Ok st →
  Forall (fun c : Z * option campaign_def => valid_date c.1) agromanagement →
  let pairs := zip (crop_calendars st) (timed_event_dispatchers st) in
  _end_date st = None
  ∧ Forall (pair_ok date_min) pairs
  ∧ omap fst pairs = present_calendars st
  ∧ concat (omap snd pairs) = present_dispatchers st.
Proof.
  intros Hinit Hvalid pairs.
  assert (Hlo : Forall (fun c : Z * option campaign_def => date_min <= c.1) agromanagement).
  { eapply List.Forall_impl; [|exact Hvalid]. by intros c [? _]. }
  apply (AgroManager_init_spec date_min) in Hinit
    as (_ & He & _ & Hlc & Hlt & _ & Hcc & Hte); [|done].
  split; [done|]. split.
  - exact (Forall_zip_pair _ _ _ _ Hcc Hte).
  - apply omap_zip_same_length. congruence.
Qed.

(** [end_date] read right after construction.  For a scheduler initialized
    from campaigns whose start dates are dates: [end_date] raises a
    [PCSEError] if and only if no campaign has a crop calendar or a timed
    events dispatcher, and that error is the only [PCSEError] it raises; and
    when every timed events table has at least one entry and some campaign
    has a calendar or a dispatcher, [end_date] returns a day [m] that it
    memoizes, that is not before the [get_end_date()] of any calendar nor
    before any day of any timed events table, and that is the
    [get_end_date()] of a calendar or a day of a table: the maximum of the
    calendars' end dates and the tables' latest days. *)
Theorem X21_end_date_at_construction
    (agromanagement : list (Z * option campaign_def)) (st : AgroManager) :
  AgroManager_init agromanagement = Ok st →
  Forall (fun c : Z * option campaign_def => valid_date c.1) agromanagement →
  (AgroManager_end_date st = Raise (PCSEError MsgEmptyAgromanagement)
   ↔ present_calendars st = [] ∧ present_dispatchers st = [])
  ∧ (∀ msg, AgroManager_end_date st = Raise (PCSEError msg) →
            msg = MsgEmptyAgromanagement)
  ∧ (Forall (fun t => te_events_table t ≠ []) (present_dispatchers st) →
     present_calendars st ≠ [] ∨ present_dispatchers st ≠ [] →
     ∃ m,
       AgroManager_end_date st = Ok (set_end_date st (Some m), m)
       ∧ AgroManager_end_date (set_end_date st (Some m))
         = Ok (set_end_date st (Some m), m)
       ∧ (∀ cc, cc ∈ present_calendars st →
                ∃ d, CropCalendar_get_end_date cc = Ok (Some d) ∧ d <= m)
       ∧ (∀ t day, t ∈ present_dispatchers st → day ∈ table_days t → day <= m)
       ∧ ((∃ cc, cc ∈ present_calendars st
                 ∧ CropCalendar_get_end_date cc = Ok (Some m))
          ∨ (∃ t, t ∈ present_dispatchers st ∧ m ∈ table_days t))).
Proof.
  intros Hinit Hvalid.
  destruct (AgroManager_init_pairs _ _ Hinit Hvalid) as (Hnone & Hok & Hpc & Hpd).
  set (pairs := zip (crop_calendars st) (timed_event_dispatchers st)) in *.
  (* what [end_date] does, by the outcome of its loop *)
  assert (Hcases :
    (∃ e, end_date_loop pairs [] [] = Raise e ∧ AgroManager_end_date st = Raise e
          ∧ e = ValueError ∧ present_dispatchers st ≠ [])
    ∨ (end_date_loop pairs [] [] = Ok ([], [])
       ∧ AgroManager_end_date st = Raise (PCSEError MsgEmptyAgromanagement)
       ∧ present_calendars st = [] ∧ present_dispatchers st = [])
    ∨ (∃ cds tds m,
         end_date_loop pairs [] [] = Ok (map Some cds, map Some tds)
         ∧ cds ++ tds ≠ []
         ∧ Forall2 (fun cc d => CropCalendar_get_end_date cc = Ok (Some d))
             (present_calendars st) cds
         ∧ Forall2 (fun t m => m ∈ table_days t ∧ ∀ d, d ∈ table_days t → d <= m)
             (present_dispatchers st) tds
         ∧ AgroManager_end_date st = Ok (set_end_date st (Some m), m)
         ∧ m ∈ cds ++ tds ∧ ∀ x, x ∈ cds ++ tds → x <= m)).
  { destruct (end_date_loop pairs [] []) as [r|e] eqn:Hloop.
    - right.
      destruct (end_date_loop_Ok _ _ Hok _ _ _ Hloop)
        as (cds & tds & -> & Hc & Ht & Hlc & Hlt).
      rewrite Hpc in Hc. rewrite Hpd in Ht. simpl in Hloop.
      destruct (decide (cds ++ tds = [])) as [Hnil|Hne].
      + left. apply app_eq_nil in Hnil as [-> ->].
        apply Forall2_nil_inv_r in Hc. apply Forall2_nil_inv_r in Ht.
        repeat split; try done.
        unfold AgroManager_end_date. fold pairs. by rewrite Hnone, Hloop.
      + right.
        destruct (AgroManager_end_date_value st cds tds Hnone Hloop) as (m & Hm & Hin & Hmax);
          [by apply Forall_app|done|].
        exists cds, tds, m. done.
    - left. exists e.
      destruct (end_date_loop_Raise _ _ Hok _ _ _ Hloop) as [-> Hne].
      rewrite Hpd in Hne. repeat split; try done.
      unfold AgroManager_end_date. fold pairs. by rewrite Hnone, Hloop. }
  split; [|split].
  - split.
    + intros Hraise.
      destruct Hcases as [(e & _ & He & -> & _)|[(_ & _ & ? & ?)|(? & ? & ? & _ & _ & _ & _ & He & _)]];
        [congruence|done|congruence].
    + intros [Hc Hd].
      destruct Hcases as [(e & _ & _ & _ & Hne)|[(_ & He & _)|(cds & tds & m & _ & Hne & Hfc & Hft & _)]];
        [done|done|].
      rewrite Hc in Hfc. rewrite Hd in Hft.
      apply Forall2_nil_inv_l in Hfc. apply Forall2_nil_inv_l in Hft. by subst.
  - intros msg Hraise.
    destruct Hcases as [(e & _ & He & -> & _)|[(_ & He & _)|(? & ? & ? & _ & _ & _ & _ & He & _)]];
      congruence.
  - intros Hne Hsome.
    destruct Hcases as [(e & Hloop & _)|[(_ & _ & Hc & Hd)|(cds & tds & m & _ & _ & Hfc & Hft & He & Hin & Hmax)]].
    + rewrite <- Hpd in Hne.
      destruct (end_date_loop_total _ _ Hok Hne [] []) as [r Hr]. congruence.
    + destruct Hsome; done.
    + exists m. split; [done|]. split; [done|]. split; [|split].
      * intros cc Hcc. destruct (Forall2_elem_of_l _ _ _ _ Hfc Hcc) as (d & Hd & Hget).
        exists d. split; [done|]. apply Hmax, elem_of_app. by left.
      * intros t day Ht Hday.
        destruct (Forall2_elem_of_l _ _ _ _ Hft Ht) as (mt & Hmt & _ & Hle).
        specialize (Hle day Hday). specialize (Hmax mt ltac:(apply elem_of_app; by right)).
        lia.
      * apply elem_of_app in Hin as [Hin|Hin].
        -- left. destruct (Forall2_elem_of_r _ _ _ _ Hfc Hin) as (cc & Hcc & Hget). eauto.
        -- right. destruct (Forall2_elem_of_r _ _ _ _ Hft Hin) as (t & Ht & Hmt & _). eauto.
Qed.

(** The example of the specification, by evaluation: the end date is
    2001-03-01 plus 150 days, which is 2001-07-29. *)
Example end_date_example :
  (st ← AgroManager_init agro_example; r ← AgroManager_end_date st; Ok r.2)
  = Ok (date_ymd 2001 7 29)
  ∧ date_ymd 2001 7 29 = date_ymd 2001 3 1 + 150.
Proof. split; reflexivity. Qed.

Lemma X21_witness :
  Forall (fun c : Z * option campaign_def => valid_date c.1) agro_example
  ∧ ∃ st st',
      AgroManager_init agro_example = Ok st
      ∧ AgroManager_end_date st = Ok (st', date_ymd 2001 3 1 + 150)
      ∧ date_ymd 2001 3 1 + 150 ≠ date_ymd 2002 1 1.
Proof.
  assert (Hvalid : Forall (fun c : Z * option campaign_def => valid_date c.1) agro_example).
  { repeat constructor; simpl; discriminate. }
  split; [exact Hvalid|].
  destruct (AgroManager_init agro_example) as [st|e] eqn:Hinit; [|discriminate Hinit].
  destruct (X21_end_date_at_construction agro_example st Hinit Hvalid) as (_ & _ & Hmax).
  injection Hinit as <-.
  destruct Hmax as (m & Hend & _ & _ & _ & Hatt).
  - constructor.
  - left. discriminate.
  - assert (Hm : m = date_ymd 2001 3 1 + 150).
    { destruct Hatt as [(cc & Hcc & Hget)|(t & Ht & _)].
      - apply (proj1 (list_elem_of_singleton _ _)) in Hcc. subst cc.
        vm_compute in Hget. injection Hget as <-. reflexivity.
      - by apply elem_of_nil in Ht. }
    subst m. eexists _, _. split; [reflexivity|]. split; [exact Hend|].
    discriminate.
Defined.

(** C4.  [end_date] does not keep the claim.  A scheduler that is
    initialized from campaigns whose start dates are dates and that holds a
    timed events dispatcher whose table has no entry contains a timed events
    table, and [end_date] raises [ValueError]: neither the maximum of the
    end dates nor the error about an empty definition.  The [max()] of
    [TimedEventsDispatcher.get_end_date] over the empty counter of days is
    not guarded. *)
Theorem C4_end_date_raises_ValueError
    (agromanagement : list (Z * option campaign_def)) (st : AgroManager) :
  AgroManager_init agromanagement = Ok st →
  Forall (fun c : Z * option campaign_def => valid_date c.1) agromanagement →
  (∃ t, t ∈ present_dispatchers st ∧ te_events_table t = []) →
  present_dispatchers st ≠ []
  ∧ AgroManager_end_date st = Raise ValueError.
Proof.
  intros Hinit Hvalid (t & Ht & Hempty).
  destruct (AgroManager_init_pairs _ _ Hinit Hvalid) as (Hnone & Hok & Hpc & Hpd).
  split; [intros Hnil; rewrite Hnil in Ht; by apply elem_of_nil in Ht|].
  unfold AgroManager_end_date. rewrite Hnone.
  destruct (end_date_loop _ [] []) as [r|e] eqn:Hloop.
  - destruct (end_date_loop_Ok _ _ Hok _ _ _ Hloop) as (cds & tds & _ & _ & Hft & _).
    rewrite Hpd in Hft.
    destruct (Forall2_elem_of_l _ _ _ _ Hft Ht) as (m & _ & Hm & _).
    unfold table_days in Hm. rewrite Hempty in Hm. by apply elem_of_nil in Hm.
  - by destruct (end_date_loop_Raise _ _ Hok _ _ _ Hloop) as [-> _].
Qed.

(** The scheduler of [agro_empty_table]: one campaign with a crop calendar
    and a timed events table without entries. *)
Lemma C4_witness :
  Forall (fun c : Z * option campaign_def => valid_date c.1) agro_empty_table
  ∧ ∃ st,
      AgroManager_init agro_empty_table = Ok st
      ∧ present_calendars st ≠ []
      ∧ present_dispatchers st ≠ []
      ∧ AgroManager_end_date st = Raise ValueError.
Proof.
  assert (Hvalid : Forall (fun c : Z * option campaign_def => valid_date c.1)
                     agro_empty_table).
  { repeat constructor; simpl; discriminate. }
  split; [exact Hvalid|].
  destruct (AgroManager_init agro_empty_table) as [st|e] eqn:Hinit; [|discriminate Hinit].
  exists st. split; [reflexivity|].
  pose proof (C4_end_date_raises_ValueError agro_empty_table st Hinit Hvalid) as Hbug.
  injection Hinit as <-.
  split; [discriminate|].
  apply Hbug. eexists. split; [by apply list_elem_of_singleton|reflexivity].
Defined.

(** [end_date] is computed from the queues as they are when it is first
    read.  The scheduler of the example returns 2001-03-01 plus 150 days
    when it is read right after construction; read for the first time after
    the call for 2002-01-01, which retires the first campaign, it raises the
    error about an empty definition. *)
Example end_date_after_retirement :
  ∃ st st1 st2 out,
    AgroManager_init agro_example = Ok st
    ∧ AgroManager_end_date st = Ok (st1, date_ymd 2001 3 1 + 150)
    ∧ AgroManager_run st [Tick ∅ (date_ymd 2001 3 1); Tick ∅ (date_ymd 2002 1 1)]
      = Ok (st2, out)
    ∧ AgroManager_end_date st2 = Raise (PCSEError MsgEmptyAgromanagement).
Proof.
  destruct (AgroManager_init agro_example) as [st|e] eqn:Hinit; [|discriminate Hinit].
  injection Hinit as <-.
  eexists _, _, _, _. split; [reflexivity|]. split; [reflexivity|].
  split; [vm_compute; reflexivity|]. reflexivity.
Qed.

(** * Further properties of the code *)

(** ** Crop calendar: validation, duration and the finish day *)

(** [validate] passes exactly when [get_end_date] returns a date after the
    start date and the start date lies in the campaign window.  It raises
    [TypeError] exactly when the end date is missing (end types harvest and
    earliest without [crop_end_date]) or is not after the start date: in the
    first case the comparison with [None] fails, in the second the formatting
    of the error message does, so the error about an end date before the
    start date is never raised.  The only [PCSEError] of [validate] is the
    one about a start date outside the campaign window, raised exactly when
    the end date is after the start date and the start date is not in the
    window. *)
Theorem X1_validate_agrees_with_get_end_date
    (cc : CropCalendar) (campaign_start : date) (next_campaign : option date) :
  (CropCalendar_validate cc campaign_start next_campaign = Ok tt
   ↔ ∃ e, CropCalendar_get_end_date cc = Ok (Some e)
          ∧ crop_start_date cc < e
          ∧ check_date_range (crop_start_date cc) campaign_start next_campaign = true)
  ∧ (CropCalendar_validate cc campaign_start next_campaign = Raise TypeError
     ↔ CropCalendar_get_end_date cc = Ok None
       ∨ ∃ e, CropCalendar_get_end_date cc = Ok (Some e) ∧ e <= crop_start_date cc)
  ∧ (∀ msg, CropCalendar_validate cc campaign_start next_campaign = Raise (PCSEError msg)
            ↔ msg = MsgCropStartOutsideCampaign (crop_start_date cc) (crop_id cc)
                      campaign_start next_campaign
              ∧ ∃ e, CropCalendar_get_end_date cc = Ok (Some e)
                     ∧ crop_start_date cc < e
                     ∧ check_date_range (crop_start_date cc) campaign_start next_campaign
                       = false).
Proof.
  set (range := check_date_range (crop_start_date cc) campaign_start next_campaign).
  assert (Heq : CropCalendar_validate cc campaign_start next_campaign
                = match CropCalendar_get_end_date cc with
                  | Ok (Some e) =>
                      if e <=? crop_start_date cc then Raise TypeError
                      else if range then Ok tt
                      else Raise (PCSEError (MsgCropStartOutsideCampaign
                                               (crop_start_date cc) (crop_id cc)
                                               campaign_start next_campaign))
                  | Ok None => Raise TypeError
                  | Raise err => Raise err
                  end).
  { unfold CropCalendar_validate, CropCalendar_get_end_date. fold range.
    destruct (crop_end_type cc); simpl.
    - by destruct (date_add _ _).
    - by destruct (crop_end_date cc).
    - by destruct (crop_end_date cc). }
  rewrite Heq. clear Heq.
  destruct (CropCalendar_get_end_date cc) as [[e|]|err] eqn:Hget.
  - destruct (Z.leb_spec e (crop_start_date cc)) as [Hle|Hlt].
    + split; [split|split; [split|intros msg; split]].
      * discriminate.
      * intros (e' & [= <-] & Hlt & _). lia.
      * intros _. right. by exists e.
      * done.
      * discriminate.
      * intros [_ (e' & [= <-] & Hlt & _)]. lia.
    + destruct range.
      * split; [split|split; [split|intros msg; split]].
        -- intros _. by exists e.
        -- done.
        -- discriminate.
        -- intros [[=]|(e' & [= <-] & Hle)]. lia.
        -- discriminate.
        -- intros [_ (e' & _ & _ & [=])].
      * split; [split|split; [split|intros msg; split]].
        -- discriminate.
        -- intros (e' & _ & _ & [=]).
        -- discriminate.
        -- intros [[=]|(e' & [= <-] & Hle)]. lia.
        -- intros [= <-]. split; [done|]. by exists e.
        -- by intros [-> _].
  - split; [split|split; [split|intros msg; split]].
    + discriminate.
    + intros (e' & [=] & _).
    + intros _. by left.
    + done.
    + discriminate.
    + intros [_ (e' & [=] & _)].
  - assert (err = OverflowError) as ->.
    { unfold CropCalendar_get_end_date, date_add in Hget.
      destruct (harvest_or_earliest _); [discriminate|].
      destruct (_ && _); simpl in Hget; [discriminate|]. by injection Hget. }
    split; [split|split; [split|intros msg; split]].
    + discriminate.
    + intros (e' & [=] & _).
    + discriminate.
    + intros [[=]|(e' & [=] & _)].
    + discriminate.
    + intros [_ (e' & [=] & _)].
Qed.

Lemma CropCalendar_run_app (a b : list cc_event) : ∀ self,
  CropCalendar_run self (a ++ b)
  = '(s1, o1) ← CropCalendar_run self a;
    '(s2, o2) ← CropCalendar_run s1 b;
    Ok (s2, o1 ++ o2).
Proof.
  induction a as [|ev a IH]; intros self; simpl.
  - by destruct (CropCalendar_run self b) as [[s2 o2]|e].
  - destruct (CropCalendar_step self ev) as [[s1 o1]|e]; simpl; [|done].
    rewrite IH. destruct (CropCalendar_run s1 a) as [[s2 o2]|e]; simpl; [|done].
    by destruct (CropCalendar_run s2 b) as [[s3 o3]|e].
Qed.

(** The call for the start date when no finish condition holds on it. *)
Lemma CropCalendar_call_start_day self :
  0 < max_duration self →
  (harvest_or_earliest (crop_end_type self) = true →
   ∃ e, crop_end_date self = Some e ∧ crop_start_date self < e) →
  CropCalendar_call self (crop_start_date self)
  = Ok (set_in_crop_cycle (set_duration self 0) true,
        [Log INFO (LogStartingCrop (crop_id self) (crop_start_date self));
         crop_start_signal self (crop_start_date self)]).
Proof.
  intros Hmax Hend. unfold CropCalendar_call, CropCalendar_start, CropCalendar_finish_type.
  destruct self as [cid sd st ed et md dur cyc]. simpl in *.
  assert (Hft : (if harvest_or_earliest et
                 then ge ← date_ge sd ed; Ok (if ge : bool then Some "harvest" else None)
                 else Ok None) = Ok (@None string)).
  { destruct (harvest_or_earliest et) eqn:Hhe; [|done].
    destruct (Hend eq_refl) as (e & -> & Hlt). simpl.
    by destruct (Z.leb_spec e sd); [lia|]. }
  destruct cyc; simpl; rewrite Z.eqb_refl; simpl; rewrite Hft; simpl;
    by destruct (Z.leb_spec md 0); [lia|].
Qed.

(** A call inside the cycle, on another day than the start date, when no
    finish condition holds: the duration grows by one and nothing is sent. *)
Lemma CropCalendar_call_active_day self day :
  in_crop_cycle self = true →
  day ≠ crop_start_date self →
  duration self + 1 < max_duration self →
  (harvest_or_earliest (crop_end_type self) = true →
   ∃ e, crop_end_date self = Some e ∧ day < e) →
  CropCalendar_call self day = Ok (set_duration self (duration self + 1), []).
Proof.
  intros Hcyc Hday Hmax Hend.
  unfold CropCalendar_call, CropCalendar_start, CropCalendar_finish_type.
  destruct self as [cid sd st ed et md dur cyc]. simpl in *. subst cyc. simpl.
  destruct (Z.eqb_spec day sd); [done|]. simpl.
  destruct (harvest_or_earliest et) eqn:Hhe.
  - destruct (Hend eq_refl) as (e & -> & Hlt). simpl.
    destruct (Z.leb_spec e day); [lia|].
    destruct (Z.leb_spec md (dur + 1)); [lia|]. done.
  - simpl. destruct (Z.leb_spec md (dur + 1)); [lia|]. done.
Qed.

(** A call inside the cycle on which a finish condition holds. *)
Lemma CropCalendar_call_finish_day self day :
  in_crop_cycle self = true →
  day ≠ crop_start_date self →
  has_end_date self →
  (max_duration self <= duration self + 1
   ∨ (harvest_or_earliest (crop_end_type self) = true
      ∧ ∃ e, crop_end_date self = Some e ∧ e <= day)) →
  CropCalendar_call self day
  = Ok (set_in_crop_cycle (set_duration self (duration self + 1)) false,
        [crop_finish_signal day
           (if max_duration self <=? duration self + 1 then "max_duration"
            else "harvest")]).
Proof.
  intros Hcyc Hday Hwf Hfin.
  unfold CropCalendar_call, CropCalendar_start, CropCalendar_finish_type.
  unfold has_end_date in Hwf.
  destruct self as [cid sd st ed et md dur cyc]. simpl in *. subst cyc. simpl.
  destruct (Z.eqb_spec day sd); [done|]. simpl.
  destruct (harvest_or_earliest et) eqn:Hhe.
  - destruct (Hwf eq_refl) as [e ->]. simpl.
    destruct (Z.leb_spec md (dur + 1)); [done|].
    destruct Hfin as [?|(_ & e' & [= <-] & Hle)]; [lia|].
    destruct (Z.leb_spec e day); [done|lia].
  - simpl. destruct (Z.leb_spec md (dur + 1)); [done|].
    destruct Hfin as [?|(? & _)]; [lia|done].
Qed.

Lemma daily_ticks_S start n :
  daily_ticks start (S n) = daily_ticks start n ++ [CcTick (start + Z.of_nat n)].
Proof. unfold daily_ticks. by rewrite seqZ_S, map_app. Qed.

Lemma CropCalendar_run_daily_active (self : CropCalendar) (k : nat) :
  Z.of_nat k < max_duration self →
  (harvest_or_earliest (crop_end_type self) = true →
   ∃ e, crop_end_date self = Some e ∧ crop_start_date self + Z.of_nat k < e) →
  CropCalendar_run self (daily_ticks (crop_start_date self) (S k))
  = Ok (set_in_crop_cycle (set_duration self (Z.of_nat k)) true,
        [Log INFO (LogStartingCrop (crop_id self) (crop_start_date self));
         crop_start_signal self (crop_start_date self)]
        :: replicate k []).
Proof.
  induction k as [|k IH]; intros Hmax Hend.
  - unfold daily_ticks. simpl. rewrite CropCalendar_call_start_day; [done|lia|].
    intros Hhe. destruct (Hend Hhe) as (e & He & Hlt). exists e. split; [done|lia].
  - rewrite daily_ticks_S, CropCalendar_run_app, IH; [|lia|].
    2:{ intros Hhe. destruct (Hend Hhe) as (e & He & Hlt). exists e. split; [done|lia]. }
    simpl. rewrite CropCalendar_call_active_day; simpl.
    + replace (Z.of_nat k + 1) with (Z.of_nat (S k)) by lia.
      f_equal. f_equal. f_equal. rewrite <- (replicate_cons_app _ []). done.
    + done.
    + lia.
    + lia.
    + intros Hhe. destruct (Hend Hhe) as (e & He & Hlt). exists e. split; [done|lia].
Qed.

(** Called once a day from the start date on, for [k] further days on which
    no finish condition holds: the first call sends crop-start, the others
    send nothing, and the duration is the number of days since the start. *)
Theorem X2_duration_counts_days_since_start (self : CropCalendar) (k : nat) :
  Z.of_nat k < max_duration self →
  (harvest_or_earliest (crop_end_type self) = true →
   ∃ e, crop_end_date self = Some e ∧ crop_start_date self + Z.of_nat k < e) →
  ∃ self',
    CropCalendar_run self (daily_ticks (crop_start_date self) (S k))
    = Ok (self',
          [Log INFO (LogStartingCrop (crop_id self) (crop_start_date self));
           crop_start_signal self (crop_start_date self)]
          :: replicate k [])
    ∧ duration self' = Z.of_nat k
    ∧ in_crop_cycle self' = true.
Proof.
  intros Hmax Hend. eexists. split; [by apply CropCalendar_run_daily_active|]. done.
Qed.

Lemma X2_witness :
  Z.of_nat 149 < max_duration calendar_150
  ∧ ∃ self',
      CropCalendar_run calendar_150 (daily_ticks (date_ymd 2001 3 1) 150)
      = Ok (self',
            [Log INFO (LogStartingCrop "wheat" (date_ymd 2001 3 1));
             crop_start_signal calendar_150 (date_ymd 2001 3 1)]
            :: replicate 149 [])
      ∧ duration self' = 149
      ∧ in_crop_cycle self' = true.
Proof.
  assert (Hmax : Z.of_nat 149 < max_duration calendar_150) by (simpl; lia).
  split; [exact Hmax|].
  apply (X2_duration_counts_days_since_start calendar_150 149 Hmax).
  simpl. discriminate.
Defined.

(** Called once a day from the start date on, the calendar sends its first
    crop-finish on the first day after the start on which a finish condition
    holds: the duration has reached [max_duration] (finish "max_duration") or,
    for the end types harvest and earliest, the end date is reached (finish
    "harvest" when the duration is still below [max_duration]); it leaves the
    cycle on that day with the duration at the number of days since the start. *)
Theorem X3_first_finish_day (self : CropCalendar) (k : nat) :
  has_end_date self →
  Z.of_nat k < max_duration self →
  (harvest_or_earliest (crop_end_type self) = true →
   ∃ e, crop_end_date self = Some e ∧ crop_start_date self + Z.of_nat k < e) →
  (max_duration self <= Z.of_nat k + 1
   ∨ (harvest_or_earliest (crop_end_type self) = true
      ∧ ∃ e, crop_end_date self = Some e ∧ e <= crop_start_date self + Z.of_nat k + 1)) →
  CropCalendar_run self (daily_ticks (crop_start_date self) (S (S k)))
  = Ok (set_in_crop_cycle (set_duration self (Z.of_nat k + 1)) false,
        ([Log INFO (LogStartingCrop (crop_id self) (crop_start_date self));
          crop_start_signal self (crop_start_date self)]
         :: replicate k [])
        ++ [[crop_finish_signal (crop_start_date self + Z.of_nat k + 1)
               (if max_duration self <=? Z.of_nat k + 1 then "max_duration"
                else "harvest")]]).
Proof.
  intros Hwf Hmax Hend Hfin.
  rewrite daily_ticks_S, CropCalendar_run_app.
  rewrite (CropCalendar_run_daily_active self k Hmax Hend). simpl.
  rewrite CropCalendar_call_finish_day; simpl.
  - replace (crop_start_date self + Z.of_nat (S k))
      with (crop_start_date self + Z.of_nat k + 1) by lia. done.
  - done.
  - lia.
  - by apply (has_end_date_static self).
  - destruct Hfin as [?|(Hhe & e & He & Hle)]; [by left|right].
    split; [done|]. exists e. split; [done|lia].
Qed.

Lemma X3_witness :
  has_end_date calendar_harvest
  ∧ CropCalendar_run calendar_harvest (daily_ticks 10 5)
    = Ok (set_in_crop_cycle (set_duration calendar_harvest 4) false,
          [[Log INFO (LogStartingCrop "maize" 10); crop_start_signal calendar_harvest 10];
           []; []; []; [crop_finish_signal 14 "harvest"]])
  ∧ CropCalendar_run calendar_150 (daily_ticks (date_ymd 2001 3 1) 151)
    = Ok (set_in_crop_cycle (set_duration calendar_150 150) false,
          ([Log INFO (LogStartingCrop "wheat" (date_ymd 2001 3 1));
            crop_start_signal calendar_150 (date_ymd 2001 3 1)]
           :: replicate 149 [])
          ++ [[crop_finish_signal (date_ymd 2001 3 1 + 150) "max_duration"]]).
Proof.
  assert (Hwf : has_end_date calendar_harvest) by (intros _; by eexists).
  split; [exact Hwf|]. split.
  - apply (X3_first_finish_day calendar_harvest 3 Hwf).
    + simpl. lia.
    + intros _. exists 14. split; [reflexivity|simpl; lia].
    + right. split; [reflexivity|]. exists 14. split; [reflexivity|simpl; lia].
  - apply (X3_first_finish_day calendar_150 149).
    + intros Hhe. discriminate Hhe.
    + simpl. lia.
    + intros Hhe. discriminate Hhe.
    + left. simpl. lia.
Defined.

(** A call outside the cycle, on another day than the start date, leaves
    the calendar as it is. *)
Lemma CropCalendar_call_idle self day ft :
  in_crop_cycle self = false →
  day ≠ crop_start_date self →
  CropCalendar_finish_type self day = Ok ft →
  CropCalendar_call self day
  = Ok (self, match ft with Some r => [crop_finish_signal day r] | None => [] end).
Proof.
  intros Hcyc Hday Hft. unfold CropCalendar_call, CropCalendar_start.
  rewrite Hcyc. destruct (Z.eqb_spec day (crop_start_date self)); [done|].
  rewrite Hft. simpl. destruct ft; [|done].
  destruct self; simpl in *; by subst.
Qed.

(** A calendar that is not in its cycle (it has not started yet, it has
    finished, or a crop-finish signal was delivered to it) stays exactly as
    it is, duration included, over every run that does not call it for its
    start date, and sends no crop-start; when moreover its duration is below
    [max_duration] and the days are before the end date (for the end types
    harvest and earliest), the run sends nothing at all. *)
Theorem X4_idle_calendar_is_inert (self : CropCalendar) (evs : list cc_event) :
  in_crop_cycle self = false →
  has_end_date self →
  Forall (fun day => day ≠ crop_start_date self) (cc_tick_days evs) →
  ∃ outs,
    CropCalendar_run self evs = Ok (self, outs)
    ∧ count_sends signals_crop_start (concat outs) = 0%nat
    ∧ (duration self < max_duration self →
       (harvest_or_earliest (crop_end_type self) = true →
        ∃ e, crop_end_date self = Some e ∧ Forall (fun day => day < e) (cc_tick_days evs)) →
       Forall (fun out => out = []) outs).
Proof.
  intros Hcyc Hwf. induction evs as [|ev evs IH]; intros Hdays.
  - exists []. repeat split; done.
  - destruct ev as [day|]; simpl in Hdays.
    + apply Forall_cons_1 in Hdays as [Hday Hdays].
      destruct (IH Hdays) as (outs & Hrun & Hstart & Hquiet).
      assert (Hft : ∃ ft, CropCalendar_finish_type self day = Ok ft
                          ∧ (duration self < max_duration self →
                             (harvest_or_earliest (crop_end_type self) = true →
                              ∃ e, crop_end_date self = Some e ∧ day < e) →
                             ft = None)).
      { unfold CropCalendar_finish_type.
        destruct (harvest_or_earliest (crop_end_type self)) eqn:Hhe.
        - destruct (Hwf Hhe) as [e He]. rewrite He. simpl. eexists. split; [done|].
          intros Hdur Hend. destruct (Hend eq_refl) as (e' & [= <-] & Hlt).
          destruct (Z.leb_spec (max_duration self) (duration self)); [lia|].
          by destruct (Z.leb_spec e day); [lia|].
        - simpl. eexists. split; [done|]. intros Hdur _.
          by destruct (Z.leb_spec (max_duration self) (duration self)); [lia|]. }
      destruct Hft as (ft & Hft & Hnone).
      eexists. simpl. rewrite (CropCalendar_call_idle self day ft Hcyc Hday Hft).
      simpl. rewrite Hrun. simpl. split; [done|]. split.
      * destruct ft; cbn [concat]; rewrite ?count_sends_app, Hstart; reflexivity.
      * intros Hdur Hend. constructor.
        -- rewrite Hnone; [done|done|]. intros Hhe.
           destruct (Hend Hhe) as (e & He & Hall).
           apply Forall_cons_1 in Hall as [Hlt _]. eauto.
        -- apply Hquiet; [done|]. intros Hhe.
           destruct (Hend Hhe) as (e & He & Hall).
           apply Forall_cons_1 in Hall as [_ Hall]. eauto.
    + destruct (IH Hdays) as (outs & Hrun & Hstart & Hquiet).
      exists ([] :: outs). simpl.
      assert (Hsame : CropCalendar_on_CROP_FINISH self = self)
        by (destruct self; simpl in *; by subst).
      rewrite Hsame, Hrun. simpl. split; [done|]. split; [done|].
      intros Hdur Hend. constructor; [done|]. by apply Hquiet.
Qed.

Lemma X4_witness :
  in_crop_cycle calendar_harvest = false
  ∧ ∃ outs,
      CropCalendar_run calendar_harvest [CcTick 7; CcFinishDelivered; CcTick 8; CcTick 9]
      = Ok (calendar_harvest, outs)
      ∧ Forall (fun out => out = []) outs.
Proof.
  assert (Hcyc : in_crop_cycle calendar_harvest = false) by reflexivity.
  split; [exact Hcyc|].
  destruct (X4_idle_calendar_is_inert calendar_harvest
              [CcTick 7; CcFinishDelivered; CcTick 8; CcTick 9] Hcyc)
    as (outs & Hrun & _ & Hquiet).
  - intros _. by eexists.
  - simpl. repeat constructor; discriminate.
  - exists outs. split; [exact Hrun|]. apply Hquiet.
    + simpl. lia.
    + intros _. exists 14. split; [reflexivity|]. simpl. repeat constructor.
Defined.

(** Over every run, whatever the days and their order: the crop-start
    signals are as many as the calls for the start date, no call sends more
    than one crop-finish, and the start date is never changed. *)
Theorem X5_one_crop_start_per_start_date_call
    (self : CropCalendar) (evs : list cc_event)
    (self' : CropCalendar) (outs : list (list effect)) :
  CropCalendar_run self evs = Ok (self', outs) →
  count_sends signals_crop_start (concat outs)
  = count_occ Z.eq_dec (cc_tick_days evs) (crop_start_date self)
  ∧ Forall (fun out => (count_sends signals_crop_finish out ≤ 1)%nat) outs
  ∧ length outs = length evs
  ∧ crop_start_date self' = crop_start_date self.
Proof.
  intros Hrun. split; [by eapply CropCalendar_run_starts|].
  split; [by eapply CropCalendar_run_finishes|].
  split; [|by eapply CropCalendar_run_static].
  revert self self' outs Hrun. induction evs as [|ev evs IH]; simpl; intros self self' outs Hr.
  - by injection Hr as _ <-.
  - inv_bind Hr. destruct a as [s1 o1]. inv_bind Hr. destruct a as [s2 o2].
    injection Hr as _ <-. simpl. f_equal. by eapply IH.
Qed.

Lemma X5_witness :
  ∃ self' outs,
    CropCalendar_run calendar_harvest [CcTick 10; CcTick 12; CcTick 10; CcTick 9]
    = Ok (self', outs)
    ∧ count_sends signals_crop_start (concat outs) = 2%nat.
Proof.
  destruct (CropCalendar_run calendar_harvest [CcTick 10; CcTick 12; CcTick 10; CcTick 9])
    as [[self' outs]|e] eqn:Hrun; [|discriminate Hrun].
  exists self', outs. split; [reflexivity|].
  destruct (X5_one_crop_start_per_start_date_call _ _ _ _ Hrun) as [-> _].
  reflexivity.
Defined.

(** ** Crop calendar: the finish signal outside the cycle *)

(** The finish signal is not tied to the cycle.  Whatever the state of the
    calendar (before its start, in its cycle, or after it), a call for a day
    on or after the end date of a calendar with end type harvest or earliest,
    or a call outside the cycle of a calendar with end type maturity whose
    duration has reached [max_duration], sends crop-finish exactly once and
    leaves the calendar out of its cycle.  So a calendar called day after day
    past its end date, or after it finished by [max_duration], sends
    crop-finish on every one of these days. *)
Theorem X6_finish_sent_whenever_the_condition_holds
    (self : CropCalendar) (day : date) :
  (harvest_or_earliest (crop_end_type self) = true
   ∧ ∃ e, crop_end_date self = Some e ∧ e <= day)
  ∨ (harvest_or_earliest (crop_end_type self) = false
     ∧ day ≠ crop_start_date self
     ∧ in_crop_cycle self = false
     ∧ max_duration self <= duration self) →
  ∃ self' out,
    CropCalendar_call self day = Ok (self', out)
    ∧ count_sends signals_crop_finish out = 1%nat
    ∧ in_crop_cycle self' = false
    ∧ crop_end_date self' = crop_end_date self
    ∧ crop_end_type self' = crop_end_type self.
Proof.
  intros Hcond. unfold CropCalendar_call.
  destruct (CropCalendar_start self day) as [s1 out1] eqn:Hstart.
  assert (Hstatic : crop_end_date s1 = crop_end_date self
                    ∧ crop_end_type s1 = crop_end_type self
                    ∧ max_duration s1 = max_duration self
                    ∧ count_sends signals_crop_finish out1 = 0%nat
                    ∧ (day ≠ crop_start_date self → in_crop_cycle self = false →
                       duration s1 = duration self)).
  { unfold CropCalendar_start in Hstart.
    destruct (in_crop_cycle self) eqn:Hin; cbn in Hstart;
      destruct (Z.eqb_spec day (crop_start_date self)); injection Hstart as <- <-;
      cbn; repeat split; try done. }
  destruct Hstatic as (Hed & Het & Hmd & Hout1 & Hdur).
  unfold CropCalendar_finish_type, date_ge. rewrite Het, Hed, Hmd.
  destruct Hcond as [(Hhe & e & He & Hle)|(Hhe & Hday & Hin & Hmax)].
  - rewrite Hhe, He. cbn [mbind Res_bind].
    destruct (Z.leb_spec e day); [|lia].
    destruct (max_duration self <=? duration s1); eexists _, _;
      (split; [reflexivity|]); rewrite count_sends_app, Hout1;
      (split; [reflexivity|]); cbn; repeat split; congruence.
  - rewrite Hhe. cbn [mbind Res_bind]. rewrite (Hdur Hday Hin).
    destruct (Z.leb_spec (max_duration self) (duration self)); [|lia].
    eexists _, _. split; [reflexivity|]. rewrite count_sends_app, Hout1.
    split; [reflexivity|]. cbn. repeat split; congruence.
Qed.

Lemma X6_witness :
  ∃ self' out,
    CropCalendar_call calendar_harvest 20 = Ok (self', out)
    ∧ count_sends signals_crop_finish out = 1%nat
    ∧ in_crop_cycle self' = false.
Proof.
  destruct (X6_finish_sent_whenever_the_condition_holds calendar_harvest 20)
    as (self' & out & Hcall & Hcount & Hin & _).
  - left. split; [reflexivity|]. exists 14. split; [reflexivity|lia].
  - exists self', out. by repeat split.
Defined.

(** ** Timed events dispatcher: calls, validation and the end date *)

Lemma TimedEvents_flat_map_absent (f : Z * list (string * pyval) → list effect)
    (day : Z) (tbl : list (Z * list (string * pyval))) :
  day ∉ tbl.*1 →
  flat_map (fun ev => if day =? ev.1 then f ev else []) tbl = [].
Proof.
  induction tbl as [|ev tbl IH]; [done|]. intros Hnot.
  rewrite fmap_cons in Hnot. cbn [flat_map].
  apply not_elem_of_cons in Hnot as [Hne Hnot].
  destruct (Z.eqb_spec day ev.1); [done|]. by apply IH.
Qed.

Lemma TimedEvents_flat_map_present (f : Z * list (string * pyval) → list effect)
    (day : Z) (kw : list (string * pyval)) (tbl : list (Z * list (string * pyval))) :
  (key_count day (tbl.*1) ≤ 1)%nat →
  (day, kw) ∈ tbl →
  flat_map (fun ev => if day =? ev.1 then f ev else []) tbl = f (day, kw).
Proof.
  induction tbl as [|ev tbl IH]; intros Hcount Hin;
    [by apply elem_of_nil in Hin|].
  rewrite fmap_cons, key_count_cons in Hcount. cbn [flat_map].
  apply (proj1 (elem_of_cons _ _ _)) in Hin as [<-|Hin].
  - cbn [fst snd] in *. rewrite Z.eqb_refl. destruct (decide (day = day)); [|done].
    rewrite TimedEvents_flat_map_absent; [by rewrite app_nil_r|].
    intros Hday. apply (proj2 (key_count_elem_of _ _)) in Hday. lia.
  - assert (Hday : day ∈ tbl.*1).
    { apply list_elem_of_fmap. by exists (day, kw). }
    apply (proj2 (key_count_elem_of _ _)) in Hday.
    destruct (decide (ev.1 = day)) as [Heq|Hne]; [lia|].
    destruct (Z.eqb_spec day ev.1); [congruence|]. simpl. apply IH; [lia|done].
Qed.

(** A dispatcher that was constructed holds the resolved signal and the
    table it was given; called for a day without entry it does nothing, and
    called for the day of an entry it logs and sends the configured signal
    once, with the keywords of that entry. *)
Theorem X7_timed_event_fires_on_its_day (d : te_def) (t : TimedEventsDispatcher) :
  TimedEventsDispatcher_init d = Ok t →
  signals_getattr (te_def_event_signal d) = Some (te_event_signal t)
  ∧ te_events_table t = te_def_events_table d
  ∧ (∀ day, day ∉ (te_def_events_table d).*1 → TimedEventsDispatcher_call t day = [])
  ∧ (∀ day kw,
       (day, kw) ∈ te_def_events_table d →
       TimedEventsDispatcher_call t day
       = [Log INFO (LogTimeEvent (te_def_name d) day); Send (te_event_signal t) kw]).
Proof.
  unfold TimedEventsDispatcher_init.
  destruct (signals_getattr (te_def_event_signal d)) as [sig|] eqn:Hsig; [|discriminate].
  destruct (Counter_multi _) as [|x l] eqn:Hmulti; [|discriminate].
  intros [= <-]. simpl. split; [done|]. split; [done|].
  assert (Hone : ∀ day, (key_count day ((te_def_events_table d).*1) ≤ 1)%nat).
  { intros day. destruct (decide (2 ≤ key_count day ((te_def_events_table d).*1))%nat)
      as [Htwo|?]; [|lia].
    apply elem_of_Counter_multi_events in Htwo. rewrite Hmulti in Htwo.
    by apply elem_of_nil in Htwo. }
  unfold TimedEventsDispatcher_call. simpl. split.
  - intros day Hnot. rewrite Counter_of_events_lookup. simpl.
    destruct (decide (key_count day _ = 0%nat)) as [|Hnz]; [done|].
    by apply (proj1 (key_count_elem_of _ _)) in Hnz.
  - intros day kw Hin. rewrite Counter_of_events_lookup. simpl.
    assert (Hday : day ∈ (te_def_events_table d).*1).
    { apply list_elem_of_fmap. by exists (day, kw). }
    apply (proj2 (key_count_elem_of _ _)) in Hday.
    destruct (decide (key_count day _ = 0%nat)); [done|].
    apply (TimedEvents_flat_map_present
             (fun ev => [Log INFO (LogTimeEvent (te_def_name d) day); Send sig ev.2])
             day kw); [apply Hone | done].
Qed.

Lemma X7_witness :
  ∃ t,
    TimedEventsDispatcher_init te_def_three_days = Ok t
    ∧ TimedEventsDispatcher_call t 9
      = [Log INFO (LogTimeEvent "irrigation" 9);
         Send "IRRIGATE" [("amount", VNum (PyInt 3 eq_refl))]]
    ∧ TimedEventsDispatcher_call t 8 = [].
Proof.
  destruct (TimedEventsDispatcher_init te_def_three_days) as [t|e] eqn:Hinit;
    [|discriminate Hinit].
  destruct (X7_timed_event_fires_on_its_day _ _ Hinit) as (Hsig & _ & Habsent & Hpresent).
  exists t. split; [reflexivity|]. split.
  - rewrite (Hpresent 9 [("amount", VNum (PyInt 3 eq_refl))]).
    + injection Hinit as <-. reflexivity.
    + simpl. right. left.
  - apply Habsent. simpl. intros Hin.
    repeat (apply (proj1 (elem_of_cons _ _ _)) in Hin as [Hin|Hin]; [discriminate Hin|]).
    by apply elem_of_nil in Hin.
Defined.

(** [validate] passes exactly when every entry of the table lies in the
    campaign window, and the error it raises names the day of the first entry
    that does not. *)
Theorem X8_timed_events_validate_window
    (t : TimedEventsDispatcher) (campaign_start : date) (next_campaign : option date) :
  (TimedEventsDispatcher_validate t campaign_start next_campaign = Ok tt
   ↔ Forall (fun ev : Z * list (string * pyval) =>
               check_date_range ev.1 campaign_start next_campaign = true)
       (te_events_table t))
  ∧ (∀ e, TimedEventsDispatcher_validate t campaign_start next_campaign = Raise e →
          ∃ pre ev post,
            te_events_table t = pre ++ ev :: post
            ∧ Forall (fun ev : Z * list (string * pyval) =>
                        check_date_range ev.1 campaign_start next_campaign = true) pre
            ∧ check_date_range ev.1 campaign_start next_campaign = false
            ∧ e = PCSEError (MsgTimedEventOutsideCampaign ev.1 campaign_start
                               next_campaign)).
Proof.
  unfold TimedEventsDispatcher_validate.
  induction (te_events_table t) as [|ev tbl [IH1 IH2]]; simpl.
  - split; [split; [constructor|done]|]. intros e [=].
  - destruct (check_date_range ev.1 campaign_start next_campaign) eqn:Hr.
    + split.
      * rewrite IH1. split; [by constructor|]. intros Hall.
        by apply Forall_cons_1 in Hall as [_ ?].
      * intros e He. destruct (IH2 e He) as (pre & ev' & post & -> & Hpre & Hev & ->).
        exists (ev :: pre), ev', post. repeat split; try done. by constructor.
    + split.
      * split; [done|]. intros Hall. apply Forall_cons_1 in Hall as [Hev _]. congruence.
      * intros e [= <-]. exists [], ev, tbl. repeat split; try done.
Qed.

(** [get_end_date] of a dispatcher that was constructed: [ValueError] when
    the table has no entry, and the latest day of the table otherwise. *)
Theorem X9_timed_events_end_date (d : te_def) (t : TimedEventsDispatcher) :
  TimedEventsDispatcher_init d = Ok t →
  (te_def_events_table d = [] →
   TimedEventsDispatcher_get_end_date t = Raise ValueError)
  ∧ (te_def_events_table d ≠ [] →
     ∃ m, TimedEventsDispatcher_get_end_date t = Ok m
          ∧ m ∈ (te_def_events_table d).*1
          ∧ ∀ day, day ∈ (te_def_events_table d).*1 → day <= m).
Proof.
  intros Hinit. apply TimedEventsDispatcher_init_Ok in Hinit as [Htbl Hc].
  destruct (exists_lower_bound (te_events_table t)) as [lo Hlo].
  assert (Hbuilt : te_built lo t) by done.
  rewrite <- Htbl. split.
  - intros Hnil. unfold TimedEventsDispatcher_get_end_date, py_max_keys.
    rewrite Hc, Hnil. reflexivity.
  - intros Hne.
    destruct (TimedEventsDispatcher_get_end_date_total lo t Hbuilt Hne) as [m Hm].
    exists m. split; [done|].
    by destruct (TimedEventsDispatcher_get_end_date_Ok lo t m Hbuilt Hm) as (? & ? & _).
Qed.

Lemma X9_witness :
  ∃ t,
    TimedEventsDispatcher_init te_def_three_days = Ok t
    ∧ TimedEventsDispatcher_get_end_date t = Ok 9.
Proof.
  destruct (TimedEventsDispatcher_init te_def_three_days) as [t|e] eqn:Hinit;
    [|discriminate Hinit].
  destruct (X9_timed_events_end_date _ _ Hinit) as [_ Hmax].
  destruct Hmax as (m & Hm & _ & _); [discriminate|].
  exists t. split; [reflexivity|]. rewrite Hm.
  injection Hinit as <-. vm_compute in Hm. symmetry. exact Hm.
Defined.

(** ** State events dispatcher: construction, the other zero conditions and
    the stored signs *)

(** Analogue of the check on the days of a timed events table: with a signal
    name that [signals] defines, [StateEventsDispatcher.__init__] raises a
    [PCSEError] exactly when a threshold is the key of two or more entries
    (thresholds are keys by their value: the int 1 and the float 1.0 are the
    same key), the error lists exactly those thresholds; and a dispatcher
    that is returned holds the table and one unset previous sign for every
    entry. *)
Theorem X10_state_events_init (d : se_def) :
  is_Some (signals_getattr (se_def_event_signal d)) →
  let states := py_value <$> (se_def_events_table d).*1 in
  ((∃ msg, StateEventsDispatcher_init d = Raise (PCSEError msg))
   ↔ ∃ state, (2 ≤ key_count state states)%nat)
  ∧ (∀ e, StateEventsDispatcher_init d = Raise e →
          ∃ multi_states,
            e = PCSEError (MsgMultiStates (se_def_name d) multi_states)
            ∧ NoDup multi_states
            ∧ ∀ state, state ∈ multi_states ↔ (2 ≤ key_count state states)%nat)
  ∧ (∀ self, StateEventsDispatcher_init d = Ok self →
             se_events_table self = se_def_events_table d
             ∧ se_zero_condition self = se_def_zero_condition d
             ∧ se_event_state self = se_def_event_state d
             ∧ signals_getattr (se_def_event_signal d) = Some (se_event_signal self)
             ∧ previous_signs self = replicate (length (se_def_events_table d)) None).
Proof.
  intros [sig Hsig] states. unfold StateEventsDispatcher_init. rewrite Hsig.
  set (keyed := map (fun ev : pynum * kwargs => (py_value ev.1, ev.2))
                    (se_def_events_table d)).
  assert (Hkeys : keyed.*1 = states).
  { unfold keyed, states. induction (se_def_events_table d) as [|ev tbl IH]; [done|].
    cbn. f_equal. exact IH. }
  pose proof (elem_of_Counter_multi_events keyed) as Hmulti.
  pose proof (NoDup_Counter_multi (Counter_of_events keyed)) as Hnd.
  rewrite Hkeys in Hmulti.
  destruct (Counter_multi (Counter_of_events keyed)) as [|state0 rest] eqn:Hm.
  - split; [|split].
    + split; [intros (msg & [=]) | intros (state & Hstate)].
      apply Hmulti in Hstate. by apply elem_of_nil in Hstate.
    + intros e [=].
    + intros self [= <-]. done.
  - split; [|split].
    + split; [intros _ | by eauto].
      exists state0. apply Hmulti. by left.
    + intros e [= <-]. eauto.
    + intros self [=].
Qed.

Lemma X10_witness :
  is_Some (signals_getattr (se_def_event_signal se_def_duplicates))
  ∧ ∃ multi_states,
      StateEventsDispatcher_init se_def_duplicates
      = Raise (PCSEError (MsgMultiStates "irrigation" multi_states))
      ∧ ∀ state, state ∈ multi_states
                 ↔ (2 ≤ key_count state
                          (py_value <$> (se_def_events_table se_def_duplicates).*1))%nat.
Proof.
  assert (Hsig : is_Some (signals_getattr (se_def_event_signal se_def_duplicates)))
    by (by eexists).
  split; [exact Hsig|].
  destruct (X10_state_events_init se_def_duplicates Hsig) as (_ & Herr & _).
  destruct (StateEventsDispatcher_init se_def_duplicates) as [self|e] eqn:Hinit;
    [discriminate Hinit|].
  destruct (Herr e eq_refl) as (multi & -> & _ & Hmulti).
  exists multi. split; [reflexivity | exact Hmulti].
Defined.


Section StateEventsMore.

Lemma evaluate_series_cons evaluate state kw zcs cur series :
  evaluate_series evaluate state kw zcs (cur :: series)
  = let r := evaluate cur state kw zcs in
    let rs := evaluate_series evaluate state kw (Some r.1) series in
    (rs.1, r.2 ++ rs.2).
Proof.
  simpl. destruct (evaluate cur state kw zcs) as [sign out].
  simpl. by destruct (evaluate_series evaluate state kw (Some sign) series).
Qed.

(** Whatever the zero condition, the sign that an evaluation returns is the
    sign of the current value minus the threshold. *)
Lemma evaluate_state_sign self cur state kw zcs :
  (_evaluate_state self cur state kw zcs).1 = cmp0 (py_sub cur state).
Proof.
  unfold _evaluate_state, _zero_condition_falling, _zero_condition_rising,
    _zero_condition_either.
  destruct (se_zero_condition self); destruct zcs; simpl; try done;
    by destruct (_ : bool).
Qed.

Lemma falling_series_not_above self state kw series :
  Forall (fun v => cmp0 (py_sub v state) ≠ 1) series →
  ∀ zcs, zcs ≠ Some 1 →
    (evaluate_series (_zero_condition_falling self) state kw zcs series).2 = [].
Proof.
  induction 1 as [|v series Hv _ IH]; intros zcs Hz; [done|].
  rewrite evaluate_series_cons. simpl.
  rewrite IH.
  - rewrite app_nil_r. unfold _zero_condition_falling.
    destruct zcs as [z|]; [|done].
    destruct (Z.eqb_spec z 1) as [->|_]; [done|]. done.
  - unfold _zero_condition_falling. destruct zcs as [z|]; simpl.
    + destruct (_ && _); simpl; congruence.
    + congruence.
Qed.

Lemma falling_series_above self state kw series :
  Forall (fun v => cmp0 (py_sub v state) = 1) series →
  ∀ zcs, (evaluate_series (_zero_condition_falling self) state kw zcs series).2 = [].
Proof.
  induction 1 as [|v series Hv _ IH]; intros zcs; [done|].
  rewrite evaluate_series_cons. simpl. rewrite IH, app_nil_r.
  unfold _zero_condition_falling. rewrite Hv.
  destruct zcs as [z|]; [|done]. simpl. by rewrite andb_false_r.
Qed.

Lemma falling_series_crossing self state kw rest :
  StronglySorted (fun a b => cmp0 (py_sub b state) <= cmp0 (py_sub a state)) rest →
  Exists (fun v => cmp0 (py_sub v state) ≠ 1) rest →
  ∃ v, v ∈ rest ∧ cmp0 (py_sub v state) ≠ 1
       ∧ (evaluate_series (_zero_condition_falling self) state kw (Some 1) rest).2
         = [Log INFO (LogStateEventAtEventState (se_name self) state);
            Send (se_event_signal self) kw].
Proof.
  induction 1 as [|v rest Hsorted IH Hall]; intros Hex; [by apply Exists_nil in Hex|].
  rewrite evaluate_series_cons. simpl.
  destruct (decide (cmp0 (py_sub v state) = 1)) as [Hv|Hv].
  - apply Exists_cons in Hex as [Hex|Hex]; [done|].
    destruct (IH Hex) as (w & Hw & Hsw & Heff).
    exists w. split; [by right|]. split; [done|].
    unfold _zero_condition_falling. rewrite Hv. simpl. exact Heff.
  - exists v. split; [by left|]. split; [done|].
    assert (Hsign : cmp0 (py_sub v state) = -1 ∨ cmp0 (py_sub v state) = 0)
      by (destruct (cmp0_range (py_sub v state)) as [?|[?|?]]; auto; done).
    rewrite falling_series_not_above.
    + unfold _zero_condition_falling. destruct Hsign as [-> | ->]; done.
    + rewrite List.Forall_forall in Hall. apply List.Forall_forall.
      intros x Hx. specialize (Hall x Hx). lia.
    + unfold _zero_condition_falling. destruct Hsign as [-> | ->]; simpl; congruence.
Qed.

Lemma exact_signs_sorted_desc state (l : list pynum) :
  Forall (fun v => sub_exact v state) l →
  StronglySorted (fun a b => (py_value b ≤ py_value a)%Qc) l →
  StronglySorted (fun a b => cmp0 (py_sub b state) <= cmp0 (py_sub a state)) l.
Proof.
  intros Hex Hs. induction Hs as [|a l Hs IH Hall]; [constructor|].
  apply Forall_cons_1 in Hex as [Ha Hex]. constructor; [by apply IH|].
  rewrite List.Forall_forall in Hall, Hex. apply List.Forall_forall. intros b Hb.
  rewrite !cmp0_exact_scaled by auto. specialize (Hall b Hb).
  apply py_le_scaled in Hall. lia.
Qed.

Lemma falling_series_crossing_exact self state kw v1 rest :
  Forall (fun v => sub_exact v state) (v1 :: rest) →
  (py_value state < py_value v1)%Qc →
  StronglySorted (fun a b => (py_value b ≤ py_value a)%Qc) (v1 :: rest) →
  Exists (fun v => (py_value v ≤ py_value state)%Qc) rest →
  (evaluate_series (_zero_condition_falling self) state kw None (v1 :: rest)).2
  = [Log INFO (LogStateEventAtEventState (se_name self) state);
     Send (se_event_signal self) kw].
Proof.
  intros Hexact Hv1 Hsorted Hex.
  pose proof (exact_signs_sorted_desc state _ Hexact Hsorted) as Hsigns.
  apply Forall_cons_1 in Hexact as [Hx1 Hexact].
  apply StronglySorted_inv in Hsigns as [Hsigns _].
  rewrite List.Forall_forall in Hexact.
  destruct (falling_series_crossing self state kw rest Hsigns) as (v & Hv & Hsv & Heff).
  { apply List.Exists_exists in Hex as (x & Hx & Hle). apply List.Exists_exists.
    exists x. split; [done|]. rewrite cmp0_exact_scaled by auto.
    apply py_le_scaled in Hle. lia. }
  rewrite evaluate_series_cons. simpl.
  rewrite cmp0_exact_scaled by done. apply py_lt_scaled in Hv1.
  rewrite (Z.sgn_pos (py_scaled v1 - py_scaled state)) by lia. exact Heff.
Qed.

Lemma falling_series_same_side_exact self state kw series :
  Forall (fun v => sub_exact v state) series →
  Forall (fun v => (py_value state < py_value v)%Qc) series
  ∨ Forall (fun v => (py_value v ≤ py_value state)%Qc) series →
  (evaluate_series (_zero_condition_falling self) state kw None series).2 = [].
Proof.
  intros Hexact Hside. rewrite List.Forall_forall in Hexact.
  destruct Hside as [Hall|Hall]; rewrite List.Forall_forall in Hall.
  - apply falling_series_above. apply List.Forall_forall.
    intros v Hv. rewrite cmp0_exact_scaled by auto.
    specialize (Hall v Hv). apply py_lt_scaled in Hall. lia.
  - apply falling_series_not_above; [|done]. apply List.Forall_forall.
    intros v Hv. rewrite cmp0_exact_scaled by auto.
    specialize (Hall v Hv). apply py_le_scaled in Hall. lia.
Qed.

(** Over a run of a dispatcher the sends add up entry by entry, for every
    zero condition. *)
Lemma StateEventsDispatcher_run_sends_any (self : StateEventsDispatcher) sig :
  ∀ ticks signs,
    count_sends sig (StateEventsDispatcher_run (set_previous_signs self signs) ticks).2
    = sum_list
        (map (fun p => count_sends sig
                 (evaluate_series (_evaluate_state self) p.1.1 p.1.2 p.2
                    (observed_values (se_event_state self) ticks)).2)
             (zip (se_events_table self) signs)).
Proof.
  induction ticks as [|[kiosk day] ticks IH]; intros signs.
  - simpl. symmetry. by apply sum_list_map_zero.
  - cbn [StateEventsDispatcher_run]. unfold StateEventsDispatcher_call.
    cbn [se_event_state set_previous_signs se_events_table previous_signs].
    unfold observed_values. cbn [omap list_omap fst].
    destruct (kiosk !! se_event_state self) as [cur|] eqn:Hk.
    + rewrite StateEvents_loop_spec.
      change (set_previous_signs (set_previous_signs self signs) ?s)
        with (set_previous_signs self s).
      specialize (IH (map (fun p => Some (_evaluate_state (set_previous_signs self signs)
                                            cur p.1.1 p.1.2 p.2).1)
                          (zip (se_events_table self) signs))).
      destruct (StateEventsDispatcher_run _ ticks) as [self' outs].
      simpl in IH |- *. rewrite count_sends_app, IH, zip_map_zip, map_map.
      rewrite count_sends_flat_map, <- sum_list_map_plus.
      f_equal. apply map_ext. intros [[state kw] zcs].
      cbn [fst snd].
      change (_evaluate_state (set_previous_signs self signs))
        with (_evaluate_state self).
      fold (observed_values (se_event_state self) ticks).
      destruct (_evaluate_state self cur state kw zcs) as [sign out].
      cbn [fst snd].
      destruct (evaluate_series (_evaluate_state self) state kw (Some sign) _)
        as [last_sign outs'].
      cbn [fst snd]. by rewrite count_sends_app.
    + specialize (IH signs).
      destruct (StateEventsDispatcher_run _ ticks) as [self' outs].
      simpl in IH |- *. exact IH.
Qed.

End StateEventsMore.

(** The falling zero condition mirrors the rising one.  For a dispatcher
    whose zero condition is falling, with the sign of an observation the
    value of [cmp(current - threshold, 0)] as Python computes it: the first
    observation of an entry sends nothing; a later one sends the configured
    signal with the entry's keywords exactly when the previous sign is 1 and
    the new sign is -1 or 0; over a run the sends of the dispatcher are the
    sends of its entries; a series whose signs never increase, start at 1
    and leave it sends exactly once; a series whose signs are all 1, or all
    -1 or 0, sends nothing.  When no subtraction from the threshold rounds
    an int (two ints, two floats, or a float and an int that [float()]
    converts exactly) the signs are those of the exact differences: a series
    that never increases, starts above the threshold and reaches it sends
    exactly once, and a series that stays above the threshold, or stays at
    or below it, sends nothing. *)
Theorem X11_falling_fires_on_crossing (self : StateEventsDispatcher) :
  se_zero_condition self = falling →
  (∀ cur state kw,
     _evaluate_state self cur state kw None = (cmp0 (py_sub cur state), []))
  ∧ (∀ cur state kw p,
       _evaluate_state self cur state kw (Some p)
       = (cmp0 (py_sub cur state),
          if (p =? 1)
             && ((cmp0 (py_sub cur state) =? -1) || (cmp0 (py_sub cur state) =? 0))
          then [Log INFO (LogStateEventAtEventState (se_name self) state);
                Send (se_event_signal self) kw]
          else []))
  ∧ (∀ sig ticks,
       count_sends sig (StateEventsDispatcher_run self ticks).2
       = sum_list
           (map (fun p => count_sends sig
                    (evaluate_series (_evaluate_state self) p.1.1 p.1.2 p.2
                       (observed_values (se_event_state self) ticks)).2)
                (zip (se_events_table self) (previous_signs self))))
  ∧ (∀ state kw v1 rest,
       cmp0 (py_sub v1 state) = 1 →
       StronglySorted (fun a b => cmp0 (py_sub b state) <= cmp0 (py_sub a state))
         (v1 :: rest) →
       Exists (fun v => cmp0 (py_sub v state) ≠ 1) rest →
       (evaluate_series (_evaluate_state self) state kw None (v1 :: rest)).2
       = [Log INFO (LogStateEventAtEventState (se_name self) state);
          Send (se_event_signal self) kw])
  ∧ (∀ state kw series,
       Forall (fun v => cmp0 (py_sub v state) = 1) series
       ∨ Forall (fun v => cmp0 (py_sub v state) ≠ 1) series →
       (evaluate_series (_evaluate_state self) state kw None series).2 = [])
  ∧ (∀ state kw v1 rest,
       Forall (fun v => sub_exact v state) (v1 :: rest) →
       (py_value state < py_value v1)%Qc →
       StronglySorted (fun a b => (py_value b ≤ py_value a)%Qc) (v1 :: rest) →
       Exists (fun v => (py_value v ≤ py_value state)%Qc) rest →
       (evaluate_series (_evaluate_state self) state kw None (v1 :: rest)).2
       = [Log INFO (LogStateEventAtEventState (se_name self) state);
          Send (se_event_signal self) kw])
  ∧ (∀ state kw series,
       Forall (fun v => sub_exact v state) series →
       Forall (fun v => (py_value state < py_value v)%Qc) series
       ∨ Forall (fun v => (py_value v ≤ py_value state)%Qc) series →
       (evaluate_series (_evaluate_state self) state kw None series).2 = []).
Proof.
  intros Hfalling.
  assert (Heval : _evaluate_state self = _zero_condition_falling self)
    by (unfold _evaluate_state; by rewrite Hfalling).
  split; [by rewrite Heval|]. split.
  { intros cur state kw p. rewrite Heval. unfold _zero_condition_falling.
    by destruct (_ && _). }
  split.
  { intros sig ticks.
    rewrite <- (StateEventsDispatcher_run_sends_any self sig ticks (previous_signs self)).
    by destruct self. }
  rewrite Heval. split.
  { intros state kw v1 rest Hv1 Hsorted Hex.
    apply StronglySorted_inv in Hsorted as [Hsorted _].
    destruct (falling_series_crossing self state kw rest Hsorted Hex)
      as (v & Hv & Hsv & Heff).
    rewrite evaluate_series_cons. simpl. rewrite Hv1. exact Heff. }
  split.
  { intros state kw series [Hall|Hall].
    - by apply falling_series_above.
    - by apply falling_series_not_above. }
  split.
  - intros state kw v1 rest. apply falling_series_crossing_exact.
  - intros state kw series. apply falling_series_same_side_exact.
Qed.

(** The soil moisture, a float, falls through 2.0, 1.0 and 0.0 past the
    threshold 1, an int. *)
Lemma X11_witness :
  let two := PyFloat (float_of_int 2) eq_refl in
  let one := PyFloat (float_of_int 1) eq_refl in
  let zero := PyFloat (S754_zero false) eq_refl in
  let state := PyInt 1 eq_refl in
  se_zero_condition sm_falling = falling
  ∧ Forall (fun v => sub_exact v state) [two; one; zero]
  ∧ (evaluate_series (_evaluate_state sm_falling) state [] None [two; one; zero]).2
    = [Log INFO (LogStateEventAtEventState "irrigation" state); Send "IRRIGATE" []].
Proof.
  intros two one zero state.
  assert (Hfalling : se_zero_condition sm_falling = falling) by reflexivity.
  assert (Hexact : Forall (fun v => sub_exact v state) [two; one; zero])
    by (repeat constructor; by vm_compute).
  split; [exact Hfalling|]. split; [exact Hexact|].
  destruct (X11_falling_fires_on_crossing sm_falling Hfalling)
    as (_ & _ & _ & _ & _ & Hcross & _).
  apply (Hcross state [] two [one; zero] Hexact).
  - reflexivity.
  - repeat constructor; discriminate.
  - left. discriminate.
Defined.

(** The either zero condition is the two others together: for every entry
    and every series of observed values, the three evaluation functions
    return the same signs, and [_zero_condition_either] sends as often as
    [_zero_condition_rising] and [_zero_condition_falling] taken together. *)
Theorem X12_either_is_rising_plus_falling
    (self : StateEventsDispatcher) (sig : string) (state : pynum)
    (kw : list (string * pyval)) (series : list pynum) (zcs : option Z) :
  let e := evaluate_series (_zero_condition_either self) state kw zcs series in
  let r := evaluate_series (_zero_condition_rising self) state kw zcs series in
  let f := evaluate_series (_zero_condition_falling self) state kw zcs series in
  e.1 = r.1 ∧ e.1 = f.1
  ∧ count_sends sig e.2 = (count_sends sig r.2 + count_sends sig f.2)%nat.
Proof.
  revert zcs. induction series as [|cur series IH]; intros zcs; [done|].
  cbn zeta. rewrite !evaluate_series_cons. cbn zeta.
  assert (Hstep :
    (_zero_condition_either self cur state kw zcs).1 = cmp0 (py_sub cur state)
    ∧ (_zero_condition_rising self cur state kw zcs).1 = cmp0 (py_sub cur state)
    ∧ (_zero_condition_falling self cur state kw zcs).1 = cmp0 (py_sub cur state)
    ∧ count_sends sig (_zero_condition_either self cur state kw zcs).2
      = (count_sends sig (_zero_condition_rising self cur state kw zcs).2
         + count_sends sig (_zero_condition_falling self cur state kw zcs).2)%nat).
  { unfold _zero_condition_either, _zero_condition_rising, _zero_condition_falling.
    destruct zcs as [z|]; [|done].
    pose proof (cmp0_range (py_sub cur state)) as Hsign.
    destruct (Z.eqb_spec z 1) as [Hz1|Hz1]; destruct (Z.eqb_spec z (-1)) as [Hz2|Hz2];
      [lia| | |];
      destruct Hsign as [-> | [-> | ->]]; simpl; rewrite ?bool_decide_eq_true_2 by done;
      repeat split; lia. }
  destruct Hstep as (He & Hr & Hf & Hcount).
  rewrite He, Hr, Hf. cbn [fst snd].
  destruct (IH (Some (cmp0 (py_sub cur state)))) as (IH1 & IH2 & IH3).
  cbn zeta in IH1, IH2, IH3.
  split; [done|]. split; [done|].
  rewrite !count_sends_app, Hcount, IH3. lia.
Qed.

Lemma StateEventsDispatcher_call_signs kiosk (self : StateEventsDispatcher) day :
  length (previous_signs self) = length (se_events_table self) →
  (StateEventsDispatcher_call kiosk self day).1
  = match kiosk !! se_event_state self with
    | None => self
    | Some v =>
        set_previous_signs self
          (map (fun e => Some (cmp0 (py_sub v e.1))) (se_events_table self))
    end.
Proof.
  intros Hlen. unfold StateEventsDispatcher_call.
  destruct (kiosk !! se_event_state self) as [v|]; [|done].
  rewrite StateEvents_loop_spec. cbn [fst]. f_equal.
  transitivity (map (fun e => Some (cmp0 (py_sub v e.1)))
                    (map fst (zip (se_events_table self) (previous_signs self)))).
  - rewrite map_map. apply map_ext.
    intros [[state kw] zcs]. cbn [fst snd]. by rewrite evaluate_state_sign.
  - change (map fst ?l) with (l.*1). rewrite fst_zip; [done|lia].
Qed.

(** What a run of a state events dispatcher leaves behind.  A run changes
    nothing of the dispatcher but the stored signs; with no observation (the
    watched variable absent from the kiosk on every tick) the stored signs
    are as before, and otherwise they are, entry by entry, the sign of the
    last observed value minus the threshold of the entry, as
    [cmp(current - threshold, 0)] computes it, whatever the zero condition
    and whatever was stored before. *)
Theorem X13_stored_signs_follow_last_observation
    (self : StateEventsDispatcher) (ticks : list (gmap string pynum * date)) :
  length (previous_signs self) = length (se_events_table self) →
  let self' := (StateEventsDispatcher_run self ticks).1 in
  self' = set_previous_signs self (previous_signs self')
  ∧ previous_signs self'
    = match list.last (observed_values (se_event_state self) ticks) with
      | None => previous_signs self
      | Some v => map (fun e => Some (cmp0 (py_sub v e.1))) (se_events_table self)
      end.
Proof.
  revert self. induction ticks as [|[kiosk day] ticks IH]; intros self Hlen.
  - simpl. by destruct self.
  - cbn zeta. cbn [StateEventsDispatcher_run].
    pose proof (StateEventsDispatcher_call_signs kiosk self day Hlen) as Hcall.
    destruct (StateEventsDispatcher_call kiosk self day) as [self1 out] eqn:Hc.
    cbn [fst] in Hcall.
    unfold observed_values. cbn [omap list_omap fst].
    fold (omap (fun tick : gmap string pynum * date => tick.1 !! se_event_state self) ticks).
    fold (observed_values (se_event_state self) ticks).
    assert (Hlen1 : length (previous_signs self1) = length (se_events_table self1)).
    { rewrite Hcall. destruct (kiosk !! se_event_state self); [|done].
      cbn. by rewrite length_map. }
    assert (Hsame : se_event_state self1 = se_event_state self
                    ∧ se_events_table self1 = se_events_table self
                    ∧ set_previous_signs self1 = set_previous_signs self).
    { rewrite Hcall. by destruct (kiosk !! se_event_state self). }
    destruct Hsame as (Hstate & Htable & Hset).
    specialize (IH self1 Hlen1). cbn zeta in IH.
    destruct (StateEventsDispatcher_run self1 ticks) as [self2 outs].
    cbn [fst] in IH |- *. destruct IH as [IH1 IH2].
    rewrite Hstate, Htable in IH2. rewrite Hset in IH1.
    split; [exact IH1|]. rewrite IH2.
    destruct (kiosk !! se_event_state self) as [v|] eqn:Hk.
    + destruct (observed_values (se_event_state self) ticks) as [|w ws] eqn:Hobs.
      * simpl. by rewrite Hcall.
      * rewrite (last_cons v). destruct (list.last (w :: ws)) eqn:Hl; [done|].
        by apply last_None in Hl.
    + by rewrite Hcall.
Qed.

Lemma X13_witness :
  let two := PyFloat (float_of_int 2) eq_refl in
  let zero := PyFloat (S754_zero false) eq_refl in
  length (previous_signs sm_falling) = length (se_events_table sm_falling)
  ∧ previous_signs
      (StateEventsDispatcher_run sm_falling
         [({["SM" := two]}, 1); (∅, 2); ({["SM" := zero]}, 3); (∅, 4)]).1
    = map (fun e => Some (cmp0 (py_sub zero e.1))) (se_events_table sm_falling).
Proof.
  intros two zero. split; [reflexivity|].
  exact (proj2 (X13_stored_signs_follow_last_observation sm_falling
           [({["SM" := two]}, 1); (∅, 2); ({["SM" := zero]}, 3); (∅, 4)] eq_refl)).
Defined.

(** ** Scheduler: what the constructor rejects and what it builds *)

Lemma bind_Raise {A B} (m : Res A) (k : A → Res B) (e : exn) :
  m ≫= k = Raise e → m = Raise e ∨ ∃ a, m = Ok a ∧ k a = Raise e.
Proof. destruct m as [a|e']; simpl; [eauto | intros [= ->]; by left]. Qed.

Lemma initialize_dates_Raise agromanagement : ∀ self e,
  initialize_dates self agromanagement = Raise e →
  e = PCSEError MsgCampaignsNotSequential.
Proof.
  induction agromanagement as [|c agro IH]; intros self e; simpl; [discriminate|].
  intros Hi. apply bind_Raise in Hi as [Hi|(s1 & _ & Hi)]; [|by eapply IH].
  unfold _check_campaign_date in Hi. destruct (_tmp_date self); [|discriminate].
  destruct (_ <=? _); [|discriminate]. by injection Hi as <-.
Qed.

Lemma CropCalendar_validate_not_sequential cc campaign_start next_campaign :
  CropCalendar_validate cc campaign_start next_campaign
  ≠ Raise (PCSEError MsgCampaignsNotSequential).
Proof.
  unfold CropCalendar_validate, date_add, date_ge. intros Hv.
  apply bind_Raise in Hv as [Hv|(e & _ & Hv)].
  - destruct (crop_end_type cc); try discriminate.
    destruct (_ && _); discriminate.
  - apply bind_Raise in Hv as [Hv|(ge & _ & Hv)].
    + destruct e; discriminate.
    + destruct ge; [discriminate|]. destruct (check_date_range _ _ _); discriminate.
Qed.

Lemma build_TimedEventDispatchers_not_sequential defs :
  _build_TimedEventDispatchers defs ≠ Raise (PCSEError MsgCampaignsNotSequential).
Proof.
  induction defs as [|d defs IH]; simpl; [discriminate|]. intros Hb.
  apply bind_Raise in Hb as [Hb|(t & _ & Hb)].
  - unfold TimedEventsDispatcher_init in Hb.
    destruct (signals_getattr _); [|discriminate].
    destruct (Counter_multi _); discriminate.
  - apply bind_Raise in Hb as [Hb|(r & _ & Hb)]; [done|discriminate].
Qed.

Lemma validate_TimedEventDispatchers_not_sequential teds campaign_start next_campaign :
  validate_TimedEventDispatchers teds campaign_start next_campaign
  ≠ Raise (PCSEError MsgCampaignsNotSequential).
Proof.
  induction teds as [|t teds IH]; simpl; [discriminate|]. intros Hv.
  apply bind_Raise in Hv as [Hv|(u & _ & Hv)]; [|done].
  unfold TimedEventsDispatcher_validate in Hv.
  induction (te_events_table t) as [|ev evs IHev]; simpl in Hv; [discriminate|].
  destruct (check_date_range _ _ _); [by apply IHev | discriminate].
Qed.

Lemma build_StateEventDispatchers_not_sequential defs :
  _build_StateEventDispatchers defs ≠ Raise (PCSEError MsgCampaignsNotSequential).
Proof.
  induction defs as [|d defs IH]; simpl; [discriminate|]. intros Hb.
  apply bind_Raise in Hb as [Hb|(t & _ & Hb)].
  - unfold StateEventsDispatcher_init in Hb.
    destruct (signals_getattr _); [|discriminate].
    destruct (Counter_multi _); discriminate.
  - apply bind_Raise in Hb as [Hb|(r & _ & Hb)]; [done|discriminate].
Qed.

Lemma initialize_campaign_not_sequential self c campaign_start next_campaign :
  initialize_campaign self c campaign_start next_campaign
  ≠ Raise (PCSEError MsgCampaignsNotSequential).
Proof.
  unfold initialize_campaign. intros Hi. destruct c.2 as [def|]; [|discriminate].
  apply bind_Raise in Hi as [Hi|(s1 & _ & Hi)].
  { destruct (def_CropCalendar def); [|discriminate].
    apply bind_Raise in Hi as [Hi|(u & _ & Hi)]; [|discriminate].
    by apply CropCalendar_validate_not_sequential in Hi. }
  apply bind_Raise in Hi as [Hi|(s2 & _ & Hi)].
  { destruct (def_TimedEvents def); [|discriminate].
    apply bind_Raise in Hi as [Hi|(teds & _ & Hi)].
    - by apply build_TimedEventDispatchers_not_sequential in Hi.
    - apply bind_Raise in Hi as [Hi|(u & _ & Hi)]; [|discriminate].
      by apply validate_TimedEventDispatchers_not_sequential in Hi. }
  destruct (def_StateEvents def); [|discriminate].
  apply bind_Raise in Hi as [Hi|(seds & _ & Hi)]; [|discriminate].
  by apply build_StateEventDispatchers_not_sequential in Hi.
Qed.

Lemma initialize_campaigns_not_sequential triples : ∀ self,
  initialize_campaigns self triples ≠ Raise (PCSEError MsgCampaignsNotSequential).
Proof.
  induction triples as [|[[c cs] nxt] triples IH]; intros self; simpl; [discriminate|].
  destruct cs as [cs|]; [|discriminate]. intros Hi.
  apply bind_Raise in Hi as [Hi|(s1 & _ & Hi)].
  - by apply initialize_campaign_not_sequential in Hi.
  - by apply IH in Hi.
Qed.

(** What the check of the campaign dates really compares.  The constructor
    raises the error about campaigns that are not sequential exactly when
    some later campaign starts on or before the start date of the FIRST
    campaign: [_tmp_date] is set once and never advanced, so a campaign is
    never compared with the one before it.  The bodies of the campaigns play
    no part in it. *)
Theorem X14_campaign_dates_compared_with_first
    (d0 : Z) (b0 : option campaign_def) (rest : list (Z * option campaign_def)) :
  AgroManager_init ((d0, b0) :: rest) = Raise (PCSEError MsgCampaignsNotSequential)
  ↔ Exists (fun c : Z * option campaign_def => c.1 <= d0) rest.
Proof.
  unfold AgroManager_init, initialize. cbn [initialize_dates].
  unfold _check_campaign_date at 1. cbn [_tmp_date AgroManager_new fst mbind Res_bind].
  match goal with
  | |- context [initialize_dates ?s rest] =>
      pose proof (initialize_dates_compares_with_first s d0 rest eq_refl) as Hcmp;
      destruct (initialize_dates s rest) as [s1|e] eqn:Hd
  end.
  - rewrite <- Hcmp. split; [|intros [e [=]]].
    intros Hi. cbn [mbind Res_bind] in Hi.
    by apply initialize_campaigns_not_sequential in Hi.
  - apply initialize_dates_Raise in Hd as Hmsg. subst e.
    rewrite <- Hcmp. split; [eauto|done].
Qed.

Lemma CropCalendar_validate_range cc campaign_start next_campaign :
  CropCalendar_validate cc campaign_start next_campaign = Ok tt →
  check_date_range (crop_start_date cc) campaign_start next_campaign = true.
Proof.
  unfold CropCalendar_validate. intros Hv. inv_bind_as Hv e He. inv_bind_as Hv g Hg.
  destruct g; [discriminate|]. by destruct (check_date_range _ _ _).
Qed.

Lemma TimedEvents_validate_loop_range events campaign_start next_campaign :
  TimedEvents_validate_loop events campaign_start next_campaign = Ok tt →
  ∀ ev, ev ∈ events → check_date_range ev.1 campaign_start next_campaign = true.
Proof.
  induction events as [|ev0 events IH]; simpl; intros Hv ev Hev.
  - by apply elem_of_nil in Hev.
  - destruct (check_date_range ev0.1 _ _) eqn:Hr; [|discriminate].
    apply elem_of_cons in Hev as [->|Hev]; [done | by apply IH].
Qed.

Lemma validate_TimedEventDispatchers_range teds campaign_start next_campaign :
  validate_TimedEventDispatchers teds campaign_start next_campaign = Ok tt →
  ∀ t ev, t ∈ teds → ev ∈ te_events_table t →
          check_date_range ev.1 campaign_start next_campaign = true.
Proof.
  induction teds as [|t0 teds IH]; simpl; intros Hv t ev Ht Hev.
  - by apply elem_of_nil in Ht.
  - inv_bind_as Hv u Hu. destruct u.
    apply elem_of_cons in Ht as [->|Ht]; [|by eapply IH].
    by eapply TimedEvents_validate_loop_range.
Qed.

Lemma initialize_campaign_built self c campaign_start next_campaign st :
  initialize_campaign self c campaign_start next_campaign = Ok st →
  ∃ b, st = mkAgroManager (campaign_start_dates self) (_start_date self) (_end_date self)
              (crop_calendars self ++ [b.1.1]) (timed_event_dispatchers self ++ [b.1.2])
              (state_event_dispatchers self ++ [b.2]) (_tmp_date self) (_icampaign self)
       ∧ campaign_built c campaign_start next_campaign b.
Proof.
  unfold initialize_campaign, campaign_built. intros Hi.
  destruct c.2 as [def|]; simpl.
  2:{ injection Hi as <-. exists (None, None, None). simpl. by repeat split. }
  inv_bind_as Hi s1 Hs1. inv_bind_as Hi s2 Hs2.
  assert (Hcc : ∃ occ, s1 = set_crop_calendars self (crop_calendars self ++ [occ])
                       ∧ occ = option_map CropCalendar_init (def_CropCalendar def)
                       ∧ ∀ cc, occ = Some cc →
                               CropCalendar_validate cc campaign_start next_campaign = Ok tt).
  { destruct (def_CropCalendar def) as [ccd|].
    - inv_bind_as Hs1 u Hu. injection Hs1 as <-. destruct u.
      exists (Some (CropCalendar_init ccd)). split; [done|]. split; [done|].
      by intros cc [= <-].
    - injection Hs1 as <-. exists None. split; [done|]. split; [done|]. by intros cc [=]. }
  destruct Hcc as (occ & -> & Hocc & Hval).
  assert (Hte : ∃ oteds, s2 = set_timed_event_dispatchers
                                (set_crop_calendars self (crop_calendars self ++ [occ]))
                                (timed_event_dispatchers self ++ [oteds])
                         ∧ match def_TimedEvents def with
                           | None => oteds = None
                           | Some defs =>
                               ∃ teds, oteds = Some teds
                                       ∧ _build_TimedEventDispatchers defs = Ok teds
                                       ∧ validate_TimedEventDispatchers teds campaign_start
                                           next_campaign = Ok tt
                           end).
  { destruct (def_TimedEvents def) as [ted|].
    - inv_bind_as Hs2 tds Htds. inv_bind_as Hs2 u Hu. injection Hs2 as <-. destruct u.
      exists (Some tds). split; [done|]. by exists tds.
    - injection Hs2 as <-. by exists None. }
  destruct Hte as (oteds & -> & Hoteds).
  assert (Hse : ∃ oseds, st = set_state_event_dispatchers
                                (set_timed_event_dispatchers
                                   (set_crop_calendars self (crop_calendars self ++ [occ]))
                                   (timed_event_dispatchers self ++ [oteds]))
                                (state_event_dispatchers self ++ [oseds])
                         ∧ match def_StateEvents def with
                           | None => oseds = None
                           | Some defs =>
                               ∃ seds, oseds = Some seds
                                       ∧ _build_StateEventDispatchers defs = Ok seds
                           end).
  { destruct (def_StateEvents def) as [sed|].
    - inv_bind_as Hi sds Hsds. injection Hi as <-. exists (Some sds).
      split; [done|]. by exists sds.
    - injection Hi as <-. by exists None. }
  destruct Hse as (oseds & -> & Hoseds).
  exists (occ, oteds, oseds). by repeat split.
Qed.

Lemma initialize_campaigns_built triples : ∀ self st,
  initialize_campaigns self triples = Ok st →
  ∃ bundles : list (option CropCalendar * option (list TimedEventsDispatcher)
                    * option (list StateEventsDispatcher)),
    st = mkAgroManager (campaign_start_dates self) (_start_date self) (_end_date self)
           (crop_calendars self ++ bundles.*1.*1)
           (timed_event_dispatchers self ++ bundles.*1.*2)
           (state_event_dispatchers self ++ bundles.*2)
           (_tmp_date self) (_icampaign self)
    ∧ Forall2 (fun t b => ∃ cs, t.1.2 = Some cs ∧ campaign_built t.1.1 cs t.2 b)
        triples bundles.
Proof.
  induction triples as [|[[c cs] nxt] triples IH]; intros self st; simpl.
  - intros [= <-]. exists []. simpl. rewrite !app_nil_r. split; [by destruct self|].
    constructor.
  - destruct cs as [cs|]; [|discriminate]. intros Hi.
    inv_bind_as Hi s1 Hs1.
    apply initialize_campaign_built in Hs1 as (b & -> & Hb).
    apply IH in Hi as (bundles & -> & Hall). cbn.
    exists (b :: bundles). rewrite <- !app_assoc. split; [done|].
    constructor; [|done]. by exists cs.
Qed.

Lemma check_campaign_date_start_date self d self' :
  _check_campaign_date self d = Ok self' → _start_date self' = _start_date self.
Proof.
  unfold _check_campaign_date. destruct (_tmp_date self).
  - destruct (_ <=? _); [discriminate|]. by intros [= <-].
  - by intros [= <-].
Qed.

Lemma initialize_dates_start_date agromanagement : ∀ self self',
  initialize_dates self agromanagement = Ok self' → _start_date self' = _start_date self.
Proof.
  induction agromanagement as [|c agro IH]; intros self self'; simpl.
  - by intros [= <-].
  - intros Hi. inv_bind_as Hi s1 Hs1.
    apply check_campaign_date_start_date in Hs1. apply IH in Hi. simpl in Hi. congruence.
Qed.

Lemma triples_lookup (agromanagement : list (Z * option campaign_def)) i c :
  agromanagement !! i = Some c →
  zip (zip agromanagement
         (map (fun c : Z * option campaign_def => Some c.1) agromanagement))
      (tail (map (fun c : Z * option campaign_def => Some c.1) agromanagement ++ [None]))
    !! i
  = Some (c, Some c.1, agromanagement.*1 !! S i).
Proof.
  intros Hc.
  change (map ?f agromanagement) with (f <$> agromanagement).
  apply lookup_zip_with_Some.
  exists (c, Some c.1), (agromanagement.*1 !! S i). split; [done|]. split.
  - apply lookup_zip_with_Some. exists c, (Some c.1). split; [done|]. split; [done|].
    by rewrite list_lookup_fmap, Hc.
  - rewrite lookup_tail.
    pose proof (lookup_lt_Some _ _ _ Hc) as Hlt.
    destruct (agromanagement.*1 !! S i) as [d|] eqn:Hn.
    + pose proof (lookup_lt_Some _ _ _ Hn) as Hlt'. rewrite length_fmap in Hlt'.
      rewrite lookup_app_l by (by rewrite length_fmap).
      rewrite list_lookup_fmap in Hn. rewrite list_lookup_fmap.
      destruct (agromanagement !! S i) as [c'|]; simpl in *; congruence.
    + apply lookup_ge_None in Hn. rewrite length_fmap in Hn.
      rewrite lookup_app_r by (rewrite length_fmap; lia).
      rewrite length_fmap. by replace (S i - length agromanagement)%nat with 0%nat by lia.
Qed.

(** What the constructor returns when it returns: the start dates followed
    by [None], no memoized date, the cursor at 0, and in the three queues, at
    the index of every campaign, what one pass of the loop builds for it from
    its start date and the start date of the next campaign. *)
Lemma AgroManager_init_built
    (agromanagement : list (Z * option campaign_def)) (st : AgroManager) :
  AgroManager_init agromanagement = Ok st →
  campaign_start_dates st = map Some (agromanagement.*1) ++ [None]
  ∧ _start_date st = None ∧ _end_date st = None ∧ _icampaign st = 0%nat
  ∧ crop_calendars st
    = map (fun c : Z * option campaign_def =>
             option_map CropCalendar_init (c.2 ≫= def_CropCalendar)) agromanagement
  ∧ ∀ i c, agromanagement !! i = Some c →
      ∃ b, crop_calendars st !! i = Some b.1.1
           ∧ timed_event_dispatchers st !! i = Some b.1.2
           ∧ state_event_dispatchers st !! i = Some b.2
           ∧ campaign_built c c.1 (agromanagement.*1 !! S i) b.
Proof.
  unfold AgroManager_init, initialize. intros Hi.
  inv_bind_as Hi s1 Hs1.
  pose proof (initialize_dates_start_date _ _ _ Hs1) as Hsd.
  apply initialize_dates_spec in Hs1 as (Hd & He & Hic & Hc & Ht & Hs). simpl in *.
  set (dates := map (fun c : Z * option campaign_def => Some c.1) agromanagement) in *.
  rewrite Hd in Hi. rewrite removelast_last in Hi.
  apply initialize_campaigns_built in Hi as (bundles & -> & Hall). cbn.
  rewrite ?Hd, ?Hsd, ?He, ?Hic, ?Hc, ?Ht, ?Hs. cbn.
  assert (Hlook : ∀ i c, agromanagement !! i = Some c →
            ∃ b, bundles !! i = Some b
                 ∧ campaign_built c c.1 (agromanagement.*1 !! S i) b).
  { intros i c Hci. pose proof (triples_lookup agromanagement i c Hci) as Htr.
    fold dates in Htr.
    destruct (Forall2_lookup_l _ _ _ _ _ Hall Htr) as (b & Hb & cs & Hcs & Hbuilt).
    simpl in Hcs. injection Hcs as <-. by exists b. }
  split; [unfold dates; by rewrite <- list_fmap_compose|].
  split; [done|]. split; [done|]. split; [done|]. split.
  - apply list_eq. intros i.
    change (map ?f agromanagement) with (f <$> agromanagement).
    rewrite !list_lookup_fmap.
    destruct (agromanagement !! i) as [c|] eqn:Hci; simpl.
    + destruct (Hlook i c Hci) as (b & -> & Hb1 & _). simpl. by rewrite Hb1.
    + destruct (bundles !! i) as [b|] eqn:Hbi; [|done].
      destruct (Forall2_lookup_r _ _ _ _ _ Hall Hbi) as (t & Ht' & _).
      apply lookup_lt_Some in Ht'. apply lookup_ge_None in Hci.
      rewrite !length_zip in Ht'. unfold dates in Ht'. rewrite length_map in Ht'. lia.
  - intros i c Hci. destruct (Hlook i c Hci) as (b & Hbi & Hb).
    exists b. rewrite list_lookup_fmap in Hb. rewrite !list_lookup_fmap, Hbi. simpl.
    by repeat (split; [done|]).
Qed.

(** What the constructor builds, campaign by campaign.  When it returns,
    the three queues hold, at the index of every campaign, what one pass of
    the loop builds for it, checked against the window from the start date of
    the campaign to the start date of the next one (no upper end for the last
    campaign): the calendar made from the definition starts inside the
    window, and so does every day of every timed events table.  The cursor is
    at 0 and neither date is memoized. *)
Theorem X15_queues_mirror_the_campaigns
    (agromanagement : list (Z * option campaign_def)) (st : AgroManager) :
  AgroManager_init agromanagement = Ok st →
  campaign_start_dates st = map Some (agromanagement.*1) ++ [None]
  ∧ _start_date st = None ∧ _end_date st = None ∧ _icampaign st = 0%nat
  ∧ crop_calendars st
    = map (fun c : Z * option campaign_def =>
             option_map CropCalendar_init (c.2 ≫= def_CropCalendar)) agromanagement
  ∧ ∀ i c, agromanagement !! i = Some c →
      ∃ b, crop_calendars st !! i = Some b.1.1
           ∧ timed_event_dispatchers st !! i = Some b.1.2
           ∧ state_event_dispatchers st !! i = Some b.2
           ∧ campaign_built c c.1 (agromanagement.*1 !! S i) b
           ∧ (∀ cc, b.1.1 = Some cc →
                check_date_range (crop_start_date cc) c.1 (agromanagement.*1 !! S i) = true)
           ∧ (∀ teds t ev, b.1.2 = Some teds → t ∈ teds → ev ∈ te_events_table t →
                check_date_range ev.1 c.1 (agromanagement.*1 !! S i) = true).
Proof.
  intros Hi.
  destruct (AgroManager_init_built _ _ Hi) as (Hd & Hsd & He & Hic & Hcc & Hlook).
  repeat (split; [done|]).
  intros i c Hci. destruct (Hlook i c Hci) as (b & Hb1 & Hb2 & Hb3 & Hb).
  exists b. repeat (split; [done|]).
  destruct Hb as (_ & Hval & Hte & _). split.
  - intros cc Hcc'. by apply CropCalendar_validate_range, Hval.
  - intros teds t ev Hteds Ht' Hev.
    destruct (c.2 ≫= def_TimedEvents) as [defs|]; [|congruence].
    destruct Hte as (teds' & Hteds' & _ & Hv).
    assert (teds' = teds) as -> by congruence.
    by eapply validate_TimedEventDispatchers_range.
Qed.

Lemma X15_witness :
  ∃ st, AgroManager_init agro_two_crops = Ok st
        ∧ crop_calendars st
          = [Some (CropCalendar_init (mkCcDef "wheat" 110 sowing (Some 150) harvest 60));
             Some (CropCalendar_init (mkCcDef "maize" 200 emergence None maturity 90))]
        ∧ _icampaign st = 0%nat.
Proof.
  destruct (AgroManager_init agro_two_crops) as [st|e] eqn:Hinit;
    [|vm_compute in Hinit; discriminate Hinit].
  destruct (X15_queues_mirror_the_campaigns agro_two_crops st Hinit)
    as (_ & _ & _ & Hic & Hcc & _).
  exists st. split; [reflexivity|]. split; [exact Hcc | exact Hic].
Defined.

(** ** Scheduler: what a run leaves untouched *)

Lemma CropCalendar_call_definition cc day cc' out :
  CropCalendar_call cc day = Ok (cc', out) →
  calendar_definition cc' = calendar_definition cc.
Proof.
  unfold CropCalendar_call, CropCalendar_start. intros Hc.
  destruct cc as [cid sd st ed et md du icc]. cbn in Hc.
  destruct icc; cbn in Hc; destruct (day =? sd); cbn in Hc;
    inv_bind_as Hc ft Hft; destruct ft; injection Hc as <- _; reflexivity.
Qed.

Lemma StateEventsDispatcher_call_definition kiosk d day :
  dispatcher_definition (StateEventsDispatcher_call kiosk d day).1
  = dispatcher_definition d.
Proof.
  unfold StateEventsDispatcher_call. destruct (kiosk !! se_event_state d); [|done].
  by destruct (StateEvents_loop _ _ _).
Qed.

Lemma StateEventsDispatchers_call_definition kiosk seds day :
  map dispatcher_definition (StateEventsDispatchers_call kiosk seds day).1
  = map dispatcher_definition seds.
Proof.
  induction seds as [|d seds IH]; [done|]. cbn [StateEventsDispatchers_call].
  pose proof (StateEventsDispatcher_call_definition kiosk d day) as Hd.
  destruct (StateEventsDispatcher_call kiosk d day) as [d' out].
  destruct (StateEventsDispatchers_call kiosk seds day) as [seds' outs].
  cbn in *. by rewrite Hd, IH.
Qed.

Lemma bundle_tick_definition kiosk day occ ote ose occ' ose' out :
  bundle_tick kiosk day occ ote ose = Ok (occ', ose', out) →
  option_map calendar_definition occ' = option_map calendar_definition occ
  ∧ option_map (map dispatcher_definition) ose'
    = option_map (map dispatcher_definition) ose.
Proof.
  unfold bundle_tick. intros Hb. inv_bind_as Hb r Hr. destruct r as [occ1 out1].
  assert (Hocc : option_map calendar_definition occ1 = option_map calendar_definition occ).
  { destruct occ as [cc|].
    - inv_bind_as Hr r Hcall. destruct r as [cc1 o]. injection Hr as <- _.
      simpl. f_equal. by eapply CropCalendar_call_definition.
    - by injection Hr as <- _. }
  destruct ose as [seds|].
  - pose proof (StateEventsDispatchers_call_definition kiosk seds day) as Hs.
    destruct (StateEventsDispatchers_call kiosk seds day) as [seds' o].
    injection Hb as <- <- _. simpl in *. by rewrite Hs.
  - by injection Hb as <- <- _.
Qed.

(** The part of the state that no step changes, and how a step moves the
    three queues: it drops [k] bundles, at most one, advancing the cursor by
    as much, and changes of what stays only the counters of the calendars
    and the stored signs of the state events dispatchers. *)
Lemma AgroManager_switch_frame self day s1 :
  AgroManager_switch self day = Ok s1 →
  campaign_start_dates s1 = campaign_start_dates self
  ∧ _start_date s1 = _start_date self
  ∧ _end_date s1 = _end_date self
  ∧ _tmp_date s1 = _tmp_date self
  ∧ ∃ k, (k ≤ 1)%nat
         ∧ _icampaign s1 = (_icampaign self + k)%nat
         ∧ crop_calendars s1 = drop k (crop_calendars self)
         ∧ timed_event_dispatchers s1 = drop k (timed_event_dispatchers self)
         ∧ state_event_dispatchers s1 = drop k (state_event_dispatchers self).
Proof.
  unfold AgroManager_switch, py_pop0. intros Hs. inv_bind_as Hs nxt Hnxt.
  destruct (date_eq day nxt).
  - inv_bind_as Hs ccs Hccs. inv_bind_as Hs tes Htes. inv_bind_as Hs ses Hses.
    injection Hs as <-. cbn.
    destruct (crop_calendars self); [discriminate|]. injection Hccs as <-.
    destruct (timed_event_dispatchers self); [discriminate|]. injection Htes as <-.
    destruct (state_event_dispatchers self); [discriminate|]. injection Hses as <-.
    repeat (split; [done|]). exists 1%nat. split; [lia|]. by repeat split.
  - injection Hs as <-. repeat (split; [done|]). exists 0%nat.
    rewrite Nat.add_0_r. split; [lia|]. by repeat split.
Qed.

Lemma py_index_0 {A} (l : list A) (x : A) :
  py_index l 0 = Ok x → ∃ l', l = x :: l'.
Proof. unfold py_index. destruct l as [|y l]; [discriminate|]. intros [= ->]. eauto. Qed.

Lemma AgroManager_handlers_frame kiosk self day self' out :
  AgroManager_handlers kiosk self day = Ok (self', out) →
  campaign_start_dates self' = campaign_start_dates self
  ∧ _start_date self' = _start_date self
  ∧ _end_date self' = _end_date self
  ∧ _tmp_date self' = _tmp_date self
  ∧ _icampaign self' = _icampaign self
  ∧ map (option_map calendar_definition) (crop_calendars self')
    = map (option_map calendar_definition) (crop_calendars self)
  ∧ timed_event_dispatchers self' = timed_event_dispatchers self
  ∧ map (option_map (map dispatcher_definition)) (state_event_dispatchers self')
    = map (option_map (map dispatcher_definition)) (state_event_dispatchers self).
Proof.
  intros Hh.
  assert (Hne : ∃ occ ccs ote tes ose ses,
            crop_calendars self = occ :: ccs
            ∧ timed_event_dispatchers self = ote :: tes
            ∧ state_event_dispatchers self = ose :: ses).
  { unfold AgroManager_handlers in Hh.
    inv_bind_as Hh cc0 Hcc0. inv_bind_as Hh r Hr. destruct r as [s1 out1].
    inv_bind_as Hh te0 Hte0. inv_bind_as Hh se0 Hse0.
    assert (timed_event_dispatchers s1 = timed_event_dispatchers self
            ∧ state_event_dispatchers s1 = state_event_dispatchers self) as [Et Es].
    { destruct cc0 as [cc|].
      - inv_bind_as Hr r Hcall. destruct r. by injection Hr as <- _.
      - by injection Hr as <- _. }
    rewrite Et in Hte0. rewrite Es in Hse0.
    apply py_index_0 in Hcc0 as [ccs ->]. apply py_index_0 in Hte0 as [tes ->].
    apply py_index_0 in Hse0 as [ses ->]. by eexists _, _, _, _, _, _. }
  destruct Hne as (occ & ccs & ote & tes & ose & ses & Hc & Ht & Hs).
  rewrite (AgroManager_handlers_cons kiosk self day _ _ _ _ _ _ Hc Ht Hs) in Hh.
  inv_bind_as Hh r Hr. destruct r as [[occ' ose'] out']. injection Hh as <- _.
  apply bundle_tick_definition in Hr as [Hocc Hose]. cbn.
  rewrite Hocc, Hose, Hc, Ht, Hs. by repeat split.
Qed.

Lemma AgroManager_step_frame self ev self' out :
  AgroManager_step self ev = Ok (self', out) →
  campaign_start_dates self' = campaign_start_dates self
  ∧ _start_date self' = _start_date self
  ∧ _end_date self' = _end_date self
  ∧ _tmp_date self' = _tmp_date self
  ∧ ∃ k, (k ≤ 1)%nat
         ∧ _icampaign self' = (_icampaign self + k)%nat
         ∧ map (option_map calendar_definition) (crop_calendars self')
           = drop k (map (option_map calendar_definition) (crop_calendars self))
         ∧ timed_event_dispatchers self' = drop k (timed_event_dispatchers self)
         ∧ map (option_map (map dispatcher_definition)) (state_event_dispatchers self')
           = drop k (map (option_map (map dispatcher_definition))
                       (state_event_dispatchers self)).
Proof.
  destruct ev as [kiosk day|]; cbn [AgroManager_step]; intros Hs.
  - unfold AgroManager_call in Hs. inv_bind_as Hs s1 Hs1.
    apply AgroManager_switch_frame in Hs1
      as (Hd1 & Hsd1 & He1 & Htmp1 & k & Hk & Hic1 & Hc1 & Ht1 & Hse1).
    apply AgroManager_handlers_frame in Hs
      as (Hd2 & Hsd2 & He2 & Htmp2 & Hic2 & Hc2 & Ht2 & Hse2).
    repeat (split; [congruence|]). exists k.
    split; [done|]. split; [congruence|].
    rewrite Hc2, Ht2, Hse2, Hc1, Ht1, Hse1.
    change (map ?f (drop k ?l)) with (f <$> drop k l).
    by rewrite !fmap_drop.
  - inv_bind_as Hs o Ho. injection Hs as <- _. cbn.
    repeat (split; [done|]). exists 0%nat. rewrite Nat.add_0_r. cbn.
    split; [lia|]. split; [done|]. split; [|done].
    rewrite map_map. apply map_ext. by intros [cc|].
Qed.

Lemma AgroManager_run_frame evs : ∀ self self' out,
  AgroManager_run self evs = Ok (self', out) →
  campaign_start_dates self' = campaign_start_dates self
  ∧ _start_date self' = _start_date self
  ∧ _end_date self' = _end_date self
  ∧ _tmp_date self' = _tmp_date self
  ∧ ∃ k, (k ≤ length evs)%nat
         ∧ _icampaign self' = (_icampaign self + k)%nat
         ∧ map (option_map calendar_definition) (crop_calendars self')
           = drop k (map (option_map calendar_definition) (crop_calendars self))
         ∧ timed_event_dispatchers self' = drop k (timed_event_dispatchers self)
         ∧ map (option_map (map dispatcher_definition)) (state_event_dispatchers self')
           = drop k (map (option_map (map dispatcher_definition))
                       (state_event_dispatchers self)).
Proof.
  induction evs as [|ev evs IH]; intros self self' out; cbn [AgroManager_run].
  - intros [= <- _]. repeat (split; [done|]). exists 0%nat.
    rewrite Nat.add_0_r. split; [simpl; lia|]. by repeat split.
  - intros Hr. inv_bind_as Hr r1 Hstep. destruct r1 as [s1 o1].
    inv_bind_as Hr r2 Hrun. destruct r2 as [s2 o2]. injection Hr as <- _.
    apply AgroManager_step_frame in Hstep
      as (Hd1 & Hsd1 & He1 & Htmp1 & k1 & Hk1 & Hic1 & Hc1 & Ht1 & Hse1).
    apply IH in Hrun as (Hd2 & Hsd2 & He2 & Htmp2 & k2 & Hk2 & Hic2 & Hc2 & Ht2 & Hse2).
    repeat (split; [congruence|]). exists (k1 + k2)%nat.
    split; [simpl; lia|]. split; [lia|].
    rewrite Hc2, Ht2, Hse2, Hc1, Ht1, Hse1, !drop_drop. done.
Qed.

Lemma AgroManager_end_date_memo st st1 m :
  AgroManager_end_date st = Ok (st1, m) →
  st1 = set_end_date st (Some m) ∧ _end_date st1 = Some m.
Proof.
  unfold AgroManager_end_date. destruct (_end_date st) as [d|] eqn:He.
  - intros [= <- <-]. split; [|done]. destruct st; simpl in *. by subst.
  - intros Hm. inv_bind_as Hm r Hloop. destruct r as [cds tds].
    assert (Hfin : ∀ e : option Z,
              match e with
              | Some d => Ok (set_end_date st (Some d), d)
              | None => Raise TypeError
              end = Ok (st1, m) →
              st1 = set_end_date st (Some m) ∧ _end_date st1 = Some m).
    { intros [d|]; [|discriminate]. by intros [= <- <-]. }
    destruct cds as [|cd cds], tds as [|td tds]; try discriminate;
      inv_bind_as Hm e1 H1; inv_bind_as Hm e2 H2; by apply Hfin in Hm.
Qed.

(** The start date of the run.  In every state that a scheduler built from
    at least one campaign can reach, [start_date] returns the start date of
    the first campaign and memoizes it; a second read returns the memoized
    value. *)
Theorem X16_start_date_is_first_campaign
    (d0 : Z) (b0 : option campaign_def) (rest : list (Z * option campaign_def))
    (st : AgroManager) (evs : list am_event) (st' : AgroManager) (out : list effect) :
  AgroManager_init ((d0, b0) :: rest) = Ok st →
  AgroManager_run st evs = Ok (st', out) →
  AgroManager_start_date st' = Ok (set_start_date st' (Some d0), Some d0)
  ∧ AgroManager_start_date (set_start_date st' (Some d0))
    = Ok (set_start_date st' (Some d0), Some d0).
Proof.
  intros Hinit Hrun.
  destruct (AgroManager_init_built _ _ Hinit) as (Hd & Hsd & _).
  destruct (AgroManager_run_frame _ _ _ _ Hrun) as (Hd' & Hsd' & _).
  unfold AgroManager_start_date. rewrite Hsd', Hsd, Hd', Hd. done.
Qed.

Lemma X16_witness :
  ∃ st st' out,
    AgroManager_init agro_example = Ok st
    ∧ AgroManager_run st [Tick ∅ (date_ymd 2001 3 1); Tick ∅ (date_ymd 2002 1 1)]
      = Ok (st', out)
    ∧ AgroManager_start_date st'
      = Ok (set_start_date st' (Some (date_ymd 2001 3 1)), Some (date_ymd 2001 3 1)).
Proof.
  destruct (AgroManager_init agro_example) as [st|e] eqn:Hinit; [|discriminate Hinit].
  destruct (AgroManager_run st [Tick ∅ (date_ymd 2001 3 1); Tick ∅ (date_ymd 2002 1 1)])
    as [[st' out]|e] eqn:Hrun.
  - exists st, st', out. split; [reflexivity|]. split; [exact Hrun|].
    exact (proj1 (X16_start_date_is_first_campaign _ _ _ st _ st' out Hinit Hrun)).
  - injection Hinit as <-. discriminate Hrun.
Defined.

(** The end date is computed once.  When [end_date] returns, it has stored
    its value; whatever is called afterwards, and however many campaigns are
    retired and dropped from the queues, every later read returns the same
    day and changes nothing. *)
Theorem X17_end_date_is_memoized
    (st st1 : AgroManager) (m : Z) (evs : list am_event)
    (st2 : AgroManager) (out : list effect) :
  AgroManager_end_date st = Ok (st1, m) →
  AgroManager_run st1 evs = Ok (st2, out) →
  st1 = set_end_date st (Some m)
  ∧ AgroManager_end_date st2 = Ok (st2, m).
Proof.
  intros Hend Hrun. apply AgroManager_end_date_memo in Hend as [Hst1 He].
  split; [done|].
  destruct (AgroManager_run_frame _ _ _ _ Hrun) as (_ & _ & He' & _).
  unfold AgroManager_end_date. by rewrite He', He.
Qed.

Lemma X17_witness :
  ∃ st st1 st2 out,
    AgroManager_init agro_example = Ok st
    ∧ AgroManager_end_date st = Ok (st1, date_ymd 2001 3 1 + 150)
    ∧ AgroManager_run st1 [Tick ∅ (date_ymd 2001 3 1); Tick ∅ (date_ymd 2002 1 1)]
      = Ok (st2, out)
    ∧ present_calendars st2 = []
    ∧ AgroManager_end_date st2 = Ok (st2, date_ymd 2001 3 1 + 150).
Proof.
  destruct (AgroManager_init agro_example) as [st|e] eqn:Hinit; [|discriminate Hinit].
  destruct (AgroManager_end_date st) as [[st1 m]|e] eqn:Hend.
  2:{ injection Hinit as <-. discriminate Hend. }
  assert (Hm : m = date_ymd 2001 3 1 + 150).
  { injection Hinit as <-. by injection Hend as _ <-. }
  destruct (AgroManager_run st1 [Tick ∅ (date_ymd 2001 3 1); Tick ∅ (date_ymd 2002 1 1)])
    as [[st2 out]|e] eqn:Hrun.
  2:{ injection Hinit as <-. injection Hend as <- _. discriminate Hrun. }
  exists st, st1, st2, out. split; [reflexivity|]. rewrite <- Hm.
  split; [exact Hend|]. split; [exact Hrun|]. split.
  - injection Hinit as <-. injection Hend as <- _. injection Hrun as <- _. reflexivity.
  - exact (proj2 (X17_end_date_is_memoized st st1 m _ st2 out Hend Hrun)).
Defined.

(** A tick off the boundary.  In every state that an initialized scheduler
    can reach, a call for a day that is not the start date of the upcoming
    campaign pops nothing and leaves the cursor where it is: the result of
    the call is the result of the bundle at the head of the queues receiving
    the tick. *)
Theorem X18_tick_off_boundary_keeps_the_bundle
    (agromanagement : list (Z * option campaign_def)) (st : AgroManager)
    (evs : list am_event) (st1 : AgroManager) (out1 : list effect)
    (kiosk : gmap string pynum) (day : date) :
  AgroManager_init agromanagement = Ok st →
  agromanagement ≠ [] →
  AgroManager_run st evs = Ok (st1, out1) →
  campaign_start_dates st1 !! (_icampaign st1 + 1)%nat ≠ Some (Some day) →
  ∃ occ0 ote0 ose0 ccs tes ses,
    crop_calendars st1 = occ0 :: ccs
    ∧ timed_event_dispatchers st1 = ote0 :: tes
    ∧ state_event_dispatchers st1 = ose0 :: ses
    ∧ AgroManager_call kiosk st1 day
      = '(occ0', ose0', out) ← bundle_tick kiosk day occ0 ote0 ose0;
        Ok (mkAgroManager (campaign_start_dates st1) (_start_date st1) (_end_date st1)
              (occ0' :: ccs) (ote0 :: tes) (ose0' :: ses) (_tmp_date st1)
              (_icampaign st1),
            out).
Proof.
  intros Hinit Hne Hrun Hnext.
  pose proof (AgroManager_init_inv _ _ Hinit Hne) as Hinv.
  destruct (AgroManager_run_inv _ evs st Hinv) as (st2 & out2 & Hrun2 & Hinv2).
  rewrite Hrun in Hrun2. injection Hrun2 as <- <-.
  destruct Hinv2 as ((dates & Hd & Hn) & Hic & Hlc & Hlt & Hls & _).
  destruct (lookup_start_dates dates (_icampaign st1 + 1)) as (nxt & Hnxt & _); [lia|].
  rewrite <- Hd in Hnxt.
  assert (Hneq : date_eq day nxt = false).
  { destruct (date_eq day nxt) eqn:Heq; [|done].
    apply date_eq_is_Some in Heq. subst nxt. by rewrite Hnxt in Hnext. }
  destruct (crop_calendars st1) as [|occ0 ccs] eqn:Hc; simpl in *; [lia|].
  destruct (timed_event_dispatchers st1) as [|ote0 tes] eqn:Ht; simpl in *; [lia|].
  destruct (state_event_dispatchers st1) as [|ose0 ses] eqn:Hs; simpl in *; [lia|].
  exists occ0, ote0, ose0, ccs, tes, ses. repeat (split; [done|]).
  unfold AgroManager_call, AgroManager_switch, py_index.
  rewrite Hnxt. cbn [mbind Res_bind]. rewrite Hneq. cbn [mbind Res_bind].
  by rewrite (AgroManager_handlers_cons kiosk st1 day occ0 ccs ote0 tes ose0 ses).
Qed.

Lemma X18_witness :
  agro_example ≠ []
  ∧ ∃ st st1 out1 st2 out2,
      AgroManager_init agro_example = Ok st
      ∧ AgroManager_run st [Tick ∅ (date_ymd 2001 3 1)] = Ok (st1, out1)
      ∧ AgroManager_call ∅ st1 (date_ymd 2001 3 2) = Ok (st2, out2)
      ∧ _icampaign st2 = 0%nat
      ∧ length (crop_calendars st2) = 2%nat.
Proof.
  assert (Hne : agro_example ≠ []) by discriminate.
  split; [exact Hne|].
  destruct (AgroManager_init agro_example) as [st|e] eqn:Hinit; [|discriminate Hinit].
  destruct (AgroManager_run st [Tick ∅ (date_ymd 2001 3 1)]) as [[st1 out1]|e] eqn:Hrun.
  2:{ injection Hinit as <-. discriminate Hrun. }
  assert (Hnext : campaign_start_dates st1 !! (_icampaign st1 + 1)%nat
                  ≠ Some (Some (date_ymd 2001 3 2))).
  { injection Hinit as <-. injection Hrun as <- _. discriminate. }
  destruct (X18_tick_off_boundary_keeps_the_bundle agro_example st _ st1 out1 ∅
              (date_ymd 2001 3 2) Hinit Hne Hrun Hnext)
    as (occ0 & ote0 & ose0 & ccs & tes & ses & Hc & Ht & Hs & Hcall).
  injection Hinit as <-. injection Hrun as <- <-.
  injection Hc as <- <-. injection Ht as <- <-. injection Hs as <- <-.
  eexists _, _, _, _, _. split; [reflexivity|]. split; [reflexivity|].
  split; [exact Hcall|]. split; reflexivity.
Defined.

(** The empty agromanagement definition.  The constructor accepts an empty
    list of campaigns; the scheduler it returns has [None] as its only start
    date and three empty queues, every call of it raises [IndexError], and
    [end_date] raises the error about an empty definition. *)
Theorem X19_empty_agromanagement :
  ∃ st, AgroManager_init [] = Ok st
        ∧ campaign_start_dates st = [None]
        ∧ crop_calendars st = []
        ∧ timed_event_dispatchers st = []
        ∧ state_event_dispatchers st = []
        ∧ (∀ kiosk day, AgroManager_call kiosk st day = Raise IndexError)
        ∧ (∀ kiosk day evs, AgroManager_run st (Tick kiosk day :: evs) = Raise IndexError)
        ∧ AgroManager_end_date st = Raise (PCSEError MsgEmptyAgromanagement).
Proof.
  eexists. split; [reflexivity|]. by repeat split.
Qed.

(** The queues are the campaigns from the cursor on.  For a scheduler built
    from a definition and any run of it that returns: the start dates are
    those of the definition, the cursor has advanced at most once per event,
    the calendars in the queue are, counters apart, the calendars of the
    campaigns from the cursor on, the timed events dispatchers are those the
    constructor built for these campaigns, unchanged, and the state events
    dispatchers are those it built, stored signs apart. *)
Theorem X20_queues_are_the_campaigns_from_the_cursor
    (agromanagement : list (Z * option campaign_def)) (st : AgroManager)
    (evs : list am_event) (st' : AgroManager) (out : list effect) :
  AgroManager_init agromanagement = Ok st →
  AgroManager_run st evs = Ok (st', out) →
  campaign_start_dates st' = map Some (agromanagement.*1) ++ [None]
  ∧ (_icampaign st' ≤ length evs)%nat
  ∧ map (option_map calendar_definition) (crop_calendars st')
    = drop (_icampaign st')
        (map (fun c : Z * option campaign_def =>
                option_map CropCalendar_init (c.2 ≫= def_CropCalendar)) agromanagement)
  ∧ timed_event_dispatchers st' = drop (_icampaign st') (timed_event_dispatchers st)
  ∧ map (option_map (map dispatcher_definition)) (state_event_dispatchers st')
    = drop (_icampaign st')
        (map (option_map (map dispatcher_definition)) (state_event_dispatchers st)).
Proof.
  intros Hinit Hrun.
  destruct (AgroManager_init_built _ _ Hinit) as (Hd & _ & _ & Hic & Hcc & _).
  destruct (AgroManager_run_frame _ _ _ _ Hrun)
    as (Hd' & _ & _ & _ & k & Hk & Hic' & Hc' & Ht' & Hs').
  rewrite Hic in Hic'. simpl in Hic'. subst k.
  split; [congruence|]. split; [done|]. split; [|done].
  rewrite Hc', Hcc, map_map. f_equal. apply map_ext.
  intros c. by destruct (c.2 ≫= def_CropCalendar).
Qed.

Lemma X20_witness :
  ∃ st st' out,
    AgroManager_init agro_two_crops = Ok st
    ∧ AgroManager_run st [Tick ∅ 110; Tick ∅ 111; CropFinishDelivered; Tick ∅ 200]
      = Ok (st', out)
    ∧ _icampaign st' = 1%nat
    ∧ map (option_map calendar_definition) (crop_calendars st')
      = [Some (CropCalendar_init (mkCcDef "maize" 200 emergence None maturity 90))].
Proof.
  destruct (AgroManager_init agro_two_crops) as [st|e] eqn:Hinit;
    [|vm_compute in Hinit; discriminate Hinit].
  destruct (AgroManager_run st [Tick ∅ 110; Tick ∅ 111; CropFinishDelivered; Tick ∅ 200])
    as [[st' out]|e] eqn:Hrun.
  2:{ vm_compute in Hinit. injection Hinit as <-. vm_compute in Hrun. discriminate Hrun. }
  assert (Hic : _icampaign st' = 1%nat).
  { vm_compute in Hinit. injection Hinit as <-. vm_compute in Hrun.
    by injection Hrun as <- _. }
  destruct (X20_queues_are_the_campaigns_from_the_cursor agro_two_crops st _ st' out
              Hinit Hrun) as (_ & _ & Hcc & _).
  exists st, st', out. split; [reflexivity|]. split; [exact Hrun|]. split; [exact Hic|].
  rewrite Hcc, Hic. reflexivity.
Defined.
